(** * Incremental verifier of the language service: a shallow embedding

    The TypeScript sources under verification are the incremental verifier of
    the project service: [verifyDocumentRegistryStats], [getProgramStructure],
    [verifyProgramStructure] and [verifyResolutionCache] with its local
    helpers.  Every function is embedded under its own name.

    - A call either returns or throws; [outcome] records which.
    - A [Map] or [Set] that is only compared is a [gmap] or [gset]; a [Map]
      whose [forEach] drives mutations of the shadow cache is an association
      list in insertion order ([JsMap]).
    - Resolution objects live in a store indexed by their identity, so that
      [===] on two resolutions is equality of their addresses. *)

From Stdlib Require Import Ascii String OrderedTypeEx.
From stdpp Require Import gmap strings list fin_maps sorting.

#[global] Set Warnings "-clear-no-such-hyp".


(** ** Calls that may throw *)

Inductive outcome (A : Type) : Type :=
| Returns (a : A)
| Throws.
Arguments Returns {A} a.
Arguments Throws {A}.

#[global] Instance outcome_ret : MRet outcome := fun _ a => Returns a.
#[global] Instance outcome_bind : MBind outcome := fun _ _ f m =>
  match m with
  | Returns a => f a
  | Throws => Throws
  end.

(** [ts.Debug.assert(cond, ...)]: the message and the diagnostic thunk are only
    used to build the error, which the embedding does not distinguish. *)
Definition Debug_assert (cond : bool) : outcome unit :=
  if cond then Returns () else Throws.

(** [xs.forEach(x => body(x))] for a body that only asserts. *)
Fixpoint forEach {A : Type} (body : A → outcome unit) (xs : list A) : outcome unit :=
  match xs with
  | [] => Returns ()
  | x :: rest => body x ;; forEach body rest
  end.

(** [xs.forEach(x => body(x))] for a body that updates the state [S]. *)
Fixpoint forEachS {A S : Type} (body : A → S → outcome S) (xs : list A) (s : S) : outcome S :=
  match xs with
  | [] => Returns s
  | x :: rest => s' ← body x s; forEachS body rest s'
  end.

(** [m.forEach((v, k) => body(k, v))] for a body that only asserts.  The
    entries are visited in the order of [map_to_list] rather than in insertion
    order; for a body without effects the order only decides which failing
    assertion is met first, and every failure is the same [Throws]. *)
Definition mapForEach `{Countable K} {V : Type}
    (body : K → V → outcome unit) (m : gmap K V) : outcome unit :=
  forEach (fun kv => body kv.1 kv.2) (map_to_list m).

(** [s.forEach(x => body(x))] for a body that only asserts. *)
Definition setForEach `{Countable K}
    (body : K → outcome unit) (s : gset K) : outcome unit :=
  forEach body (elements s).

(** [m?.forEach(...)] on a possibly undefined receiver. *)
Definition optMapForEach `{Countable K} {V : Type}
    (body : K → V → outcome unit) (m : option (gmap K V)) : outcome unit :=
  match m with
  | Some m => mapForEach body m
  | None => Returns ()
  end.

Definition optSetForEach `{Countable K}
    (body : K → outcome unit) (s : option (gset K)) : outcome unit :=
  match s with
  | Some s => setForEach body s
  | None => Returns ()
  end.

(** ** Insertion-ordered maps *)

Definition JsMap (K V : Type) : Type := list (K * V).

Fixpoint jsGet `{EqDecision K} {V : Type} (k : K) (m : JsMap K V) : option V :=
  match m with
  | [] => None
  | (k', v) :: rest => if decide (k' = k) then Some v else jsGet k rest
  end.

Definition jsHas `{EqDecision K} {V : Type} (k : K) (m : JsMap K V) : bool :=
  bool_decide (is_Some (jsGet k m)).

(** [m.set(k, v)]: an existing key keeps its position, a new one goes last. *)
Fixpoint jsSet `{EqDecision K} {V : Type} (k : K) (v : V) (m : JsMap K V) : JsMap K V :=
  match m with
  | [] => [(k, v)]
  | (k', v') :: rest =>
      if decide (k' = k) then (k, v) :: rest else (k', v') :: jsSet k v rest
  end.

Fixpoint jsDelete `{EqDecision K} {V : Type} (k : K) (m : JsMap K V) : JsMap K V :=
  match m with
  | [] => []
  | (k', v') :: rest =>
      if decide (k' = k) then jsDelete k rest else (k', v') :: jsDelete k rest
  end.

(** ** Shared vocabulary *)

Abbreviation Path := string (only parsing).

(** [ts.ResolutionMode] is [ModuleKind.ESNext | ModuleKind.CommonJS | undefined]. *)
Inductive ModuleKind : Type := CommonJS | ESNext.
Abbreviation ResolutionMode := (option ModuleKind) (only parsing).

#[global] Instance ModuleKind_eq_dec : EqDecision ModuleKind.
Proof. solve_decision. Defined.

Inductive ScriptKind : Type :=
| SK_Unknown | SK_JS | SK_JSX | SK_TS | SK_TSX | SK_External | SK_JSON | SK_Deferred.

#[global] Instance ScriptKind_eq_dec : EqDecision ScriptKind.
Proof. solve_decision. Defined.

Definition ScriptKind_to_nat (k : ScriptKind) : nat :=
  match k with
  | SK_Unknown => 0 | SK_JS => 1 | SK_JSX => 2 | SK_TS => 3
  | SK_TSX => 4 | SK_External => 5 | SK_JSON => 6 | SK_Deferred => 7
  end.

Definition ScriptKind_of_nat (n : nat) : option ScriptKind :=
  match n with
  | 0 => Some SK_Unknown | 1 => Some SK_JS | 2 => Some SK_JSX | 3 => Some SK_TS
  | 4 => Some SK_TSX | 5 => Some SK_External | 6 => Some SK_JSON | 7 => Some SK_Deferred
  | _ => None
  end.

#[global] Instance ScriptKind_countable : Countable ScriptKind.
Proof.
  apply (inj_countable ScriptKind_to_nat ScriptKind_of_nat).
  by intros [].
Defined.

Record SourceFile : Type := mkSourceFile {
  fileName : string;
  path : Path;
  resolvedPath : Path;
  impliedNodeFormat : ResolutionMode;
  text : string;
  scriptKind : ScriptKind;
}.

(** ** Document registry *)

Module DocumentRegistry.

Record DocumentRegistryEntry : Type := mkEntry {
  sourceFile : SourceFile;
  languageServiceRefCount : nat;
}.

(** [type BucketEntry = DocumentRegistryEntry | Map<ScriptKind, DocumentRegistryEntry>];
    [ts.isDocumentRegistryEntry] tells the two apart. *)
Inductive BucketEntry : Type :=
| SingleEntry (entry : DocumentRegistryEntry)
| PerScriptKind (entries : gmap ScriptKind DocumentRegistryEntry).

(** [documentRegistry.getBuckets()], keyed by [DocumentRegistryBucketKeyWithMode]. *)
Abbreviation Buckets := (gmap string (gmap Path BucketEntry)) (only parsing).

Abbreviation DocumentRegistryExpectedStats :=
  (gmap string (gmap Path (gmap ScriptKind nat))) (only parsing).

(** The body of [bucketEntries.forEach((entry, path) => ...)]; [expected] is
    [statsByPath?.get(path)]. *)
Definition verifyBucketEntry (expected : option (gmap ScriptKind nat))
    (entry : BucketEntry) : outcome unit :=
  match entry with
  | SingleEntry entry =>
      Debug_assert
        (bool_decide (size <$> expected = Some 1)
         && bool_decide (is_Some (expected ≫= (.!! scriptKind (sourceFile entry))))
         && bool_decide (expected ≫= (.!! scriptKind (sourceFile entry))
                         = Some (languageServiceRefCount entry)))
  | PerScriptKind entry =>
      mapForEach (fun kind real =>
        Debug_assert (bool_decide (Some (languageServiceRefCount real)
                                   = expected ≫= (.!! kind)))) entry ;;
      optMapForEach (fun kind _value =>
        Debug_assert (bool_decide (is_Some (entry !! kind)))) expected
  end.

Definition verifyDocumentRegistryStats (buckets : Buckets)
    (stats : DocumentRegistryExpectedStats) : outcome unit :=
  mapForEach (fun key bucketEntries =>
    let statsByPath := stats !! key in
    mapForEach (fun path entry =>
      verifyBucketEntry (statsByPath ≫= (.!! path)) entry) bucketEntries ;;
    optMapForEach (fun path _value =>
      Debug_assert (bool_decide (is_Some (bucketEntries !! path)))) statsByPath) buckets ;;
  mapForEach (fun key _value =>
    Debug_assert (bool_decide (is_Some (buckets !! key)))) stats.

(** What the registry and the tally must agree on for one bucket entry. *)
Definition entryMatchesTally (entry : BucketEntry)
    (expected : option (gmap ScriptKind nat)) : Prop :=
  match entry with
  | SingleEntry e =>
      ∃ tally, expected = Some tally ∧ size tally = 1 ∧
        tally !! scriptKind (sourceFile e) = Some (languageServiceRefCount e)
  | PerScriptKind entries =>
      (∀ kind real, entries !! kind = Some real →
         ∃ tally, expected = Some tally ∧
           tally !! kind = Some (languageServiceRefCount real)) ∧
      (∀ tally kind count, expected = Some tally → tally !! kind = Some count →
         is_Some (entries !! kind))
  end.

Definition registryMatchesStats (buckets : Buckets)
    (stats : DocumentRegistryExpectedStats) : Prop :=
  (∀ key bucketEntries path entry,
     buckets !! key = Some bucketEntries → bucketEntries !! path = Some entry →
     entryMatchesTally entry (stats !! key ≫= (.!! path))) ∧
  (∀ key statsByPath path tally,
     stats !! key = Some statsByPath → statsByPath !! path = Some tally →
     ∃ bucketEntries, buckets !! key = Some bucketEntries ∧
       is_Some (bucketEntries !! path)) ∧
  (∀ key, is_Some (stats !! key) → is_Some (buckets !! key)).

(** A registry with one shared entry and one per-script-kind entry, and the
    tally of the two projects holding them. *)
Definition appTs : SourceFile :=
  mkSourceFile "/user/app.ts" "/user/app.ts" "/user/app.ts" None "export {}" SK_TS.
Definition utilJs : SourceFile :=
  mkSourceFile "/user/util.js" "/user/util.js" "/user/util.js" None EmptyString SK_JS.
Definition utilJsx : SourceFile :=
  mkSourceFile "/user/util.js" "/user/util.js" "/user/util.js" None EmptyString SK_JSX.

Definition sampleBuckets : Buckets :=
  {[ "k1" := <[ "/user/app.ts" := SingleEntry (mkEntry appTs 2) ]>
             {[ "/user/util.js" :=
                  PerScriptKind (<[ SK_JS := mkEntry utilJs 1 ]>
                                 {[ SK_JSX := mkEntry utilJsx 1 ]}) ]} ]}.

Definition sampleStats : DocumentRegistryExpectedStats :=
  {[ "k1" := <[ "/user/app.ts" := {[ SK_TS := 2 ]} ]>
             {[ "/user/util.js" := <[ SK_JS := 1 ]> {[ SK_JSX := 1 ]} ]} ]}.

(** The same tally with a script kind the registry does not hold. *)
Definition staleStats : DocumentRegistryExpectedStats :=
  {[ "k1" := <[ "/user/app.ts" := <[ SK_TSX := 1 ]> {[ SK_TS := 2 ]} ]>
             {[ "/user/util.js" := <[ SK_JS := 1 ]> {[ SK_JSX := 1 ]} ]} ]}.

End DocumentRegistry.

(** ** Resolutions and programs *)

(** Identity of a resolution object: [r1 === r2] is [r1 = r2] on [ref]. *)
Abbreviation ref := positive (only parsing).

Record ResolvedModuleFull : Type := mkResolvedModule {
  resolvedFileName : string;
}.

Record ResolvedTypeReferenceDirective : Type := mkResolvedTypeRef {
  typeRefResolvedFileName : option string;
}.

(** [ts.ResolutionWithFailedLookupLocations], with the fields of both the module
    and the type-reference flavour; an optional field that is absent is [None]. *)
Record Resolution : Type := mkResolution {
  resolvedModule : option ResolvedModuleFull;
  resolvedTypeReferenceDirective : option ResolvedTypeReferenceDirective;
  failedLookupLocations : option (list string);
  affectingLocations : option (list string);
  node10Result : option string;
  isInvalidated : option bool;
  refCount : option nat;
  files : option (gset Path);
}.

(** The objects reachable from the caches, by identity. *)
Abbreviation Store := (gmap ref Resolution) (only parsing).

Abbreviation ModeAwareCache := (JsMap (string * ResolutionMode) ref) (only parsing).

Record LibResolution : Type := mkLibResolution {
  resolution : ref;
  actual : string;
}.

(** One call of the callback of [forEachResolvedModule] and of
    [forEachResolvedTypeReferenceDirective]. *)
Record ResolvedEntry : Type := mkResolvedEntry {
  entryResolution : ref;
  entryName : string;
  entryMode : ResolutionMode;
  entryFilePath : Path;
}.

Abbreviation CompilerOptions := (gmap string string) (only parsing).

(** The [ts.Program] of the verifier's contract, as the answers of the queries
    the verifier makes.  [forEachResolvedModule file] lists the callback
    invocations in order, for [file] or, without one, for every file. *)
Record Program : Type := mkProgram {
  getSourceFiles : list SourceFile;
  getSourceFileByPath : Path → option SourceFile;
  getCompilerOptions : CompilerOptions;
  getResolvedModule : SourceFile → string → ResolutionMode → option ref;
  getResolvedTypeReferenceDirective : SourceFile → string → ResolutionMode → option ref;
  forEachResolvedModule : option SourceFile → list ResolvedEntry;
  forEachResolvedTypeReferenceDirective : option SourceFile → list ResolvedEntry;
  getAutomaticTypeDirectiveResolutions : ModeAwareCache;
  resolvedLibReferences : option (JsMap string LibResolution);
}.

Definition getResolvedModuleFileName (r : Resolution) : option string :=
  resolvedFileName <$> resolvedModule r.

Definition getResolvedTypeRefFileName (r : Resolution) : option string :=
  resolvedTypeReferenceDirective r ≫= typeRefResolvedFileName.

(** ** Program structure *)

Module ProgramStructure.

(** A template hole [${x}] for [x : string | undefined]. *)
Definition showUndefined (x : option string) : string := default "undefined" x.

(** A template hole for a [ResolutionMode]: [ModuleKind.CommonJS] is 1 and
    [ModuleKind.ESNext] is 99. *)
Definition showMode (mode : ResolutionMode) : string :=
  match mode with
  | Some CommonJS => "1"
  | Some ESNext => "99"
  | None => "undefined"
  end.

Definition LF : ascii := "010"%char.
Definition CR : ascii := "013"%char.

(** [text.split(/\r?\n/g)]. *)
Fixpoint splitLines (text : string) : list string :=
  match text with
  | EmptyString => [EmptyString]
  | String c rest =>
      if decide (c = LF) then EmptyString :: splitLines rest
      else
        match rest with
        | String c' rest' =>
            if decide (c = CR ∧ c' = LF) then EmptyString :: splitLines rest'
            else match splitLines rest with
                 | l :: ls => String c l :: ls
                 | [] => [String c EmptyString]
                 end
        | EmptyString => [String c EmptyString]
        end
  end.

(** [f.text.split(/\r?\n/g).map(l => l ? "    " + l : '').join("\n")]. *)
Definition indentText (text : string) : string :=
  String.concat (String LF EmptyString)
    (map (fun l => if decide (l = EmptyString) then EmptyString else "    " +:+ l)
       (splitLines text)).

(** [xs.slice().sort(compare)]: a stable sort, here by insertion. *)
Fixpoint sortInsert {A : Type} (compare : A → A → comparison) (x : A) (xs : list A) : list A :=
  match xs with
  | [] => [x]
  | y :: rest =>
      match compare x y with
      | Gt => y :: sortInsert compare x rest
      | _ => x :: y :: rest
      end
  end.

Fixpoint sort {A : Type} (compare : A → A → comparison) (xs : list A) : list A :=
  match xs with
  | [] => []
  | x :: rest => sortInsert compare x (sort compare rest)
  end.

Section WithHelpers.

(** Helpers of the compiler that are declared outside these sources. *)
Variable comparePathsCaseSensitive : Path → Path → comparison.
(** [mode => ts.getNameOfCompilerOptionValue(mode, ts.moduleOptionDeclaration.type)]. *)
Variable getNameOfCompilerOptionValue : ModuleKind → string.

Variable store : Store.

(** The line pushed for one resolution. *)
Definition resolutionLine (getResolvedFileName : Resolution → option string)
    (indent : string) (resolved : ref) (key : string) (mode : ResolutionMode) : string :=
  indent +:+ "  " +:+ key +:+ ": " +:+
  match mode with
  | Some mode => getNameOfCompilerOptionValue mode +:+ ":"
  | None => EmptyString
  end +:+
  showUndefined (store !! resolved ≫= getResolvedFileName).

(** [forEach] is the list of callback invocations, or [None] when the
    function passed is [undefined]; the state of the loop is the flag
    [addedCacheType] and [baseline]. *)
Definition getResolutionCacheDetails (baseline : list string) (cacheType : string)
    (forEach : option (list (ref * string * ResolutionMode)))
    (getResolvedFileName : Resolution → option string) (indent : string) : list string :=
  match forEach with
  | None => baseline
  | Some invocations =>
      (fold_left (fun '(addedCacheType, baseline) '(resolved, key, mode) =>
         let baseline :=
           if addedCacheType : bool then baseline
           else baseline ++ [indent +:+ cacheType +:+ ":"] in
         (true, baseline ++ [resolutionLine getResolvedFileName indent resolved key mode]))
       invocations (false, baseline)).2
  end.

Definition libLine (indent : string) (libFileName : string) (resolved : LibResolution) : string :=
  indent +:+ "  " +:+ libFileName +:+ ": Actual: " +:+ actual resolved +:+ " Resolution: " +:+
  showUndefined (store !! resolution resolved ≫= getResolvedModuleFileName).

Definition getLibResolutionCacheDetails (baseline : list string)
    (cache : option (JsMap string LibResolution)) (indent : string) : list string :=
  match cache with
  | None => baseline
  | Some cache =>
      (fold_left (fun '(addedCacheType, baseline) '(libFileName, resolved) =>
         let baseline :=
           if addedCacheType : bool then baseline
           else baseline ++ [indent +:+ "Libs:"] in
         (true, baseline ++ [libLine indent libFileName resolved]))
       cache (false, baseline)).2
  end.

Definition invocationsOf (entries : list ResolvedEntry) : list (ref * string * ResolutionMode) :=
  map (fun e => (entryResolution e, entryName e, entryMode e)) entries.

(** [cache.forEach] of a mode-aware cache calls back with (resolution, name, mode). *)
Definition cacheInvocations (cache : ModeAwareCache) : list (ref * string * ResolutionMode) :=
  map (fun '((name, mode), resolved) => (resolved, name, mode)) cache.

Definition fileHeader (f : SourceFile) : string :=
  "  File: " +:+ fileName f +:+ " Path: " +:+ path f +:+
  " ResolvedPath: " +:+ resolvedPath f +:+
  " impliedNodeFormat: " +:+ showMode (impliedNodeFormat f).

Definition getProgramStructure (program : option Program) : string :=
  let baseline : list string := [] in
  let baseline :=
    match program with
    | None => baseline
    | Some program =>
        fold_left (fun baseline f =>
          let baseline := baseline ++ [fileHeader f] in
          let baseline := baseline ++ [indentText (text f)] in
          let baseline :=
            getResolutionCacheDetails baseline "Modules"
              (Some (invocationsOf (forEachResolvedModule program (Some f))))
              getResolvedModuleFileName "    " in
          getResolutionCacheDetails baseline "TypeRefs"
            (Some (invocationsOf (forEachResolvedTypeReferenceDirective program (Some f))))
            getResolvedTypeRefFileName "    ")
          (sort (fun f1 f2 => comparePathsCaseSensitive (path f1) (path f2))
                (getSourceFiles program))
          baseline
    end in
  let baseline :=
    getResolutionCacheDetails baseline "AutoTypeRefs"
      ((fun program => cacheInvocations (getAutomaticTypeDirectiveResolutions program))
         <$> program)
      getResolvedTypeRefFileName "  " in
  let baseline :=
    getLibResolutionCacheDetails baseline (program ≫= resolvedLibReferences) "    " in
  String.concat (String LF EmptyString) baseline.

Definition verifyProgramStructure (expectedProgram actualProgram : Program)
    (projectName : string) : outcome unit :=
  let actual := getProgramStructure (Some actualProgram) in
  let expected := getProgramStructure (Some expectedProgram) in
  Debug_assert (bool_decide (actual = expected)).

(** The listing in declarative form: the block of one cache, of one file, and
    of the whole program. *)
Definition cacheBlock (cacheType : string) (invocations : list (ref * string * ResolutionMode))
    (getResolvedFileName : Resolution → option string) (indent : string) : list string :=
  match invocations with
  | [] => []
  | _ => (indent +:+ cacheType +:+ ":") ::
         map (fun '(resolved, key, mode) =>
                resolutionLine getResolvedFileName indent resolved key mode) invocations
  end.

Definition libBlock (cache : JsMap string LibResolution) (indent : string) : list string :=
  match cache with
  | [] => []
  | _ => (indent +:+ "Libs:") ::
         map (fun '(libFileName, resolved) => libLine indent libFileName resolved) cache
  end.

Definition fileBlock (program : Program) (f : SourceFile) : list string :=
  [fileHeader f; indentText (text f)] ++
  cacheBlock "Modules" (invocationsOf (forEachResolvedModule program (Some f)))
    getResolvedModuleFileName "    " ++
  cacheBlock "TypeRefs" (invocationsOf (forEachResolvedTypeReferenceDirective program (Some f)))
    getResolvedTypeRefFileName "    ".

Definition filesInOrder (program : Program) : list SourceFile :=
  sort (fun f1 f2 => comparePathsCaseSensitive (path f1) (path f2)) (getSourceFiles program).

Definition programLines (program : Program) : list string :=
  flat_map (fileBlock program) (filesInOrder program) ++
  cacheBlock "AutoTypeRefs" (cacheInvocations (getAutomaticTypeDirectiveResolutions program))
    getResolvedTypeRefFileName "  " ++
  libBlock (default [] (resolvedLibReferences program)) "    ".

(** Two programs that answer alike every query [getProgramStructure] makes. *)
Definition sameStructure (p1 p2 : Program) : Prop :=
  getSourceFiles p1 ≡ₚ getSourceFiles p2 ∧
  (∀ f, f ∈ getSourceFiles p1 →
     forEachResolvedModule p1 (Some f) = forEachResolvedModule p2 (Some f) ∧
     forEachResolvedTypeReferenceDirective p1 (Some f)
       = forEachResolvedTypeReferenceDirective p2 (Some f)) ∧
  getAutomaticTypeDirectiveResolutions p1 = getAutomaticTypeDirectiveResolutions p2 ∧
  resolvedLibReferences p1 = resolvedLibReferences p2.

End WithHelpers.

(** What the structure needs of the path comparison to be a sort key. *)
Record TotalComparison (compare : Path → Path → comparison) : Prop := {
  compare_antisym : ∀ a b, compare b a = CompOpp (compare a b);
  compare_eq : ∀ a b, compare a b = Eq → a = b;
  compare_trans : ∀ a b c, compare a b ≠ Gt → compare b c ≠ Gt → compare a c ≠ Gt;
}.

Definition ordered (compare : Path → Path → comparison) (f1 f2 : SourceFile) : Prop :=
  compare (path f1) (path f2) ≠ Gt.

(** Sample data: ordinal comparison of paths, the names of the two modes, and
    a program of two files given out of order. *)
Definition ordinalCompare : Path → Path → comparison := String_as_OT.cmp.

Definition moduleKindName (mode : ModuleKind) : string :=
  match mode with
  | CommonJS => "commonjs"
  | ESNext => "esnext"
  end.

Definition mainTs : SourceFile :=
  mkSourceFile "/src/main.ts" "/src/main.ts" "/src/main.ts" (Some ESNext)
    ("import 'bar';" +:+ String CR (String LF "let x;")) SK_TS.

Definition libDts : SourceFile :=
  mkSourceFile "/lib/lib.d.ts" "/lib/lib.d.ts" "/lib/lib.d.ts" None EmptyString SK_TS.

(** [mainTs] with Unix line ends. *)
Definition mainTsLF : SourceFile :=
  mkSourceFile "/src/main.ts" "/src/main.ts" "/src/main.ts" (Some ESNext)
    ("import 'bar';" +:+ String LF "let x;") SK_TS.

Definition sampleStore : Store :=
  {[ 1%positive :=
       mkResolution (Some (mkResolvedModule "/node_modules/bar/index.js")) None
         None None None None (Some 1) (Some {[ "/src/main.ts" ]}) ]}.

Definition programOf (files : list SourceFile) : Program :=
  mkProgram files
    (fun p => list_find (fun f => path f = p) files ≫= fun r => Some r.2)
    ∅
    (fun f name mode =>
       if decide (path f = "/src/main.ts" ∧ name = "bar" ∧ mode = Some ESNext)
       then Some 1%positive else None)
    (fun _ _ _ => None)
    (fun file =>
       if decide ((path <$> file) = Some "/lib/lib.d.ts") then []
       else [mkResolvedEntry 1%positive "bar" (Some ESNext) "/src/main.ts"])
    (fun _ => [])
    []
    None.

Definition sampleProgram : Program := programOf [mainTs; libDts].
Definition sampleProgramLF : Program := programOf [libDts; mainTsLF].

(** [needle] occurs in [hay]. *)
Fixpoint occursIn (needle hay : string) : bool :=
  String.prefix needle hay ||
  match hay with
  | EmptyString => false
  | String _ rest => occursIn needle rest
  end.

End ProgramStructure.

(** ** Resolution cache *)

(** A field whose declared type is outside these sources.  [===] on two such
    values is equality of numbers for counts and identity for objects, which
    is [=] on [JsValue] in both cases. *)
Inductive JsValue : Type :=
| JsNumber (n : nat)
| JsObject (id : positive).

#[global] Instance JsValue_eq_dec : EqDecision JsValue.
Proof. solve_decision. Defined.

Module DirectoryWatchesOfFailedLookup.
Record t : Type := mk {
  refCount : nat;
  nonRecursive : option bool;
}.
End DirectoryWatchesOfFailedLookup.

Module FileWatcherOfAffectingLocation.
Record t : Type := mk {
  resolutions : JsValue;
  files : JsValue;
  symlinks : option (gset string);
}.
End FileWatcherOfAffectingLocation.

(** The part of [ts.ResolutionCache] the verifier reads and writes. *)
Record ResolutionCache : Type := mkResolutionCache {
  rootDirForResolution : string;
  resolvedModuleNames : JsMap Path ModeAwareCache;
  resolvedTypeReferenceDirectives : JsMap Path ModeAwareCache;
  resolvedLibraries : JsMap string ref;
  resolvedFileToResolution : gmap Path (gset ref);
  resolutionsWithFailedLookups : gset ref;
  resolutionsWithOnlyAffectingLocations : gset ref;
  directoryWatchesOfFailedLookups : gmap string DirectoryWatchesOfFailedLookup.t;
  fileWatchesOfAffectingLocations : gmap string FileWatcherOfAffectingLocation.t;
}.

Definition set_resolvedModuleNames (m : JsMap Path ModeAwareCache)
    (c : ResolutionCache) : ResolutionCache :=
  mkResolutionCache (rootDirForResolution c) m (resolvedTypeReferenceDirectives c)
    (resolvedLibraries c) (resolvedFileToResolution c) (resolutionsWithFailedLookups c)
    (resolutionsWithOnlyAffectingLocations c) (directoryWatchesOfFailedLookups c)
    (fileWatchesOfAffectingLocations c).

Definition set_resolvedTypeReferenceDirectives (m : JsMap Path ModeAwareCache)
    (c : ResolutionCache) : ResolutionCache :=
  mkResolutionCache (rootDirForResolution c) (resolvedModuleNames c) m
    (resolvedLibraries c) (resolvedFileToResolution c) (resolutionsWithFailedLookups c)
    (resolutionsWithOnlyAffectingLocations c) (directoryWatchesOfFailedLookups c)
    (fileWatchesOfAffectingLocations c).

Definition set_resolvedLibraries (m : JsMap string ref)
    (c : ResolutionCache) : ResolutionCache :=
  mkResolutionCache (rootDirForResolution c) (resolvedModuleNames c)
    (resolvedTypeReferenceDirectives c) m (resolvedFileToResolution c)
    (resolutionsWithFailedLookups c) (resolutionsWithOnlyAffectingLocations c)
    (directoryWatchesOfFailedLookups c) (fileWatchesOfAffectingLocations c).

(** One of the two per-file maps of a cache, as the verifier passes it around
    ([storeExpected]). *)
Record PerFileMap : Type := mkPerFileMap {
  readMap : ResolutionCache → JsMap Path ModeAwareCache;
  writeMap : JsMap Path ModeAwareCache → ResolutionCache → ResolutionCache;
}.

Definition moduleNamesOf : PerFileMap :=
  mkPerFileMap resolvedModuleNames set_resolvedModuleNames.
Definition typeReferenceDirectivesOf : PerFileMap :=
  mkPerFileMap resolvedTypeReferenceDirectives set_resolvedTypeReferenceDirectives.

Record ResolutionCacheHost : Type := mkHost {
  getCurrentDirectory : string;
  toPath : string → Path;
}.

(** The shadow cache while the verifier runs: the objects, the cache's own
    maps and the private state [H] of its closure. *)
Record Shadow (H : Type) : Type := mkShadow {
  heap : Store;
  cacheOf : ResolutionCache;
  closure : H;
}.
Arguments mkShadow {H} _ _ _.
Arguments heap {H} _.
Arguments cacheOf {H} _.
Arguments closure {H} _.

(** The operations of [ts.createResolutionCache] the verifier calls.  Their
    code is outside these sources; the verifier is embedded over any
    implementation of them. *)
Record ResolutionCacheImpl (H : Type) : Type := mkImpl {
  createResolutionCache : ResolutionCacheHost → string → bool → ResolutionCache * H;
  startCachingPerDirectoryResolution : Shadow H → outcome (Shadow H);
  watchFailedLookupLocationsOfExternalModuleResolutions :
    string → ref → Path → option string → bool → Shadow H → outcome (Shadow H);
  removeResolutionsOfFile : Path → Shadow H → outcome (Shadow H);
  finishCachingPerDirectoryResolution :
    option Program → option Program → Shadow H → outcome (Shadow H);
}.
Arguments createResolutionCache {H} _ _ _ _.
Arguments startCachingPerDirectoryResolution {H} _ _.
Arguments watchFailedLookupLocationsOfExternalModuleResolutions {H} _ _ _ _ _ _ _.
Arguments removeResolutionsOfFile {H} _ _ _.
Arguments finishCachingPerDirectoryResolution {H} _ _ _ _.

Module ResolutionInfo.
Record t : Type := mk {
  cacheType : string;
  fileName : string;
  name : string;
  mode : ResolutionMode;
}.
End ResolutionInfo.

(** The local state of one call of [verifyResolutionCache]: the shadow cache
    [expected] and the three maps keyed by resolution identity. *)
Record VerifierState (H : Type) : Type := mkState {
  expected : Shadow H;
  expectedToResolution : gmap ref ref;
  resolutionToExpected : gmap ref ref;
  resolutionToRefs : gmap ref (list ResolutionInfo.t);
}.
Arguments mkState {H} _ _ _ _.
Arguments expected {H} _.
Arguments expectedToResolution {H} _.
Arguments resolutionToExpected {H} _.
Arguments resolutionToRefs {H} _.

Definition set_expected {H : Type} (sh : Shadow H) (st : VerifierState H) : VerifierState H :=
  mkState sh (expectedToResolution st) (resolutionToExpected st) (resolutionToRefs st).

Definition set_cache {H : Type} (c : ResolutionCache) (st : VerifierState H) : VerifierState H :=
  set_expected (mkShadow (heap (expected st)) c (closure (expected st))) st.

(** Reading a field of the object behind a reference.  Only a dangling
    reference has no object, and the embedding stops there. *)
Definition deref (s : Store) (r : ref) : outcome Resolution :=
  match s !! r with
  | Some o => Returns o
  | None => Throws
  end.

(** JavaScript truthiness of the optional fields that are tested with [!]. *)
Definition truthyCount (n : option nat) : bool :=
  match n with
  | Some (S _) => true
  | _ => false
  end.

Definition truthyFlag (b : option bool) : bool := default false b.

(** [!s?.size] is false exactly for a set with an element. *)
Definition truthySize (s : option (gset Path)) : bool :=
  match s with
  | Some s => negb (bool_decide (size s = 0))
  | None => false
  end.

(** ** The resolution cache verifier *)

Section Verifier.

Context {H : Type} (impl : ResolutionCacheImpl H).

(** Constants and helpers of the compiler declared outside these sources. *)
Variable emptyResolution : ref.
Variable getAutomaticTypeDirectiveContainingFile : CompilerOptions → string → string.
Variable getInferredLibraryNameResolveFrom : CompilerOptions → string → string → string.
Variable getLibraryNameFromLibFileName : string → string.

(** The parameters of [verifyResolutionCache], which its local functions
    capture. *)
Variable actual : ResolutionCache.
Variable actualProgram : Program.
Variable resolutionHostCacheHost : ResolutionCacheHost.
Variable projectName : string.
Variable userResolvedModuleNames : bool.

Definition currentDirectory : string := getCurrentDirectory resolutionHostCacheHost.

Definition inferredTypesPath : Path :=
  toPath resolutionHostCacheHost
    (getAutomaticTypeDirectiveContainingFile (getCompilerOptions actualProgram) currentDirectory).

Definition verifyResolutionIsInCache (cacheType : string) (cache : option ModeAwareCache)
    (resolution : ref) (name : string) (mode : ResolutionMode) (fileName : string)
    : outcome unit :=
  if decide (resolution ≠ emptyResolution) then
    Debug_assert (bool_decide (cache ≫= jsGet (name, mode) = Some resolution))
  else
    Debug_assert (negb (default false (jsHas (name, mode) <$> cache))).

(** The object literal of a new [ExpectedResolution]: five fields copied, the
    others absent. *)
Definition newExpectedResolution (resolved : Resolution) : Resolution :=
  mkResolution (resolvedModule resolved) (resolvedTypeReferenceDirective resolved)
    (failedLookupLocations resolved) (affectingLocations resolved)
    (node10Result resolved) None None None.

(** The two maps [resolutionToRefs] and [resolutionToExpected] are filled
    together; were the second to miss a key of the first, the cache would be
    handed [undefined], and the embedding stops there. *)
Definition collectResolution (cacheType : string) (fileName : Path) (resolved : ref)
    (resolvedFileName : option string) (name : string) (mode : ResolutionMode)
    (deferWatchingNonRelativeResolution : bool) (st : VerifierState H)
    : outcome (ref * VerifierState H) :=
  let info := ResolutionInfo.mk cacheType fileName name mode in
  '(expectedResolution, st) ←
    match resolutionToRefs st !! resolved with
    | Some existing =>
        match resolutionToExpected st !! resolved with
        | Some expectedResolution =>
            Returns (expectedResolution,
                     mkState (expected st) (expectedToResolution st)
                       (resolutionToExpected st)
                       (<[resolved := existing ++ [info]]> (resolutionToRefs st)))
        | None => Throws
        end
    | None =>
        object ← deref (heap (expected st)) resolved;
        let expectedResolution := fresh (dom (heap (expected st))) in
        Returns (expectedResolution,
                 mkState
                   (mkShadow (<[expectedResolution := newExpectedResolution object]>
                                (heap (expected st)))
                      (cacheOf (expected st)) (closure (expected st)))
                   (<[expectedResolution := resolved]> (expectedToResolution st))
                   (<[resolved := expectedResolution]> (resolutionToExpected st))
                   (<[resolved := [info]]> (resolutionToRefs st)))
    end;
  watched ← watchFailedLookupLocationsOfExternalModuleResolutions impl name
               expectedResolution fileName resolvedFileName
               deferWatchingNonRelativeResolution (expected st);
  Returns (expectedResolution, set_expected watched st).

(** [expectedCache.set(name, mode, expected)] for the cache stored under
    [fileName] in [storeExpected]. *)
Definition setInExpectedCache (storeExpected : PerFileMap) (fileName : Path)
    (name : string) (mode : ResolutionMode) (expectedResolution : ref)
    (c : ResolutionCache) : ResolutionCache :=
  writeMap storeExpected
    (jsSet fileName
       (jsSet (name, mode) expectedResolution
          (default [] (jsGet fileName (readMap storeExpected c))))
       (readMap storeExpected c)) c.

(** The callback of [cache?.forEach] in [collectResolutionToRefFromCache]; the
    state of the loop is the verifier's state and whether [expectedCache] has
    been created.  [expectedCache] is the very object stored under [fileName]
    in [storeExpected], so setting a key of it is setting the key in the
    stored cache. *)
Definition collectEntry (cacheType : string) (fileName : Path)
    (getResolvedFileName : Resolution → option string)
    (deferWatchingNonRelativeResolution : bool) (storeExpected : PerFileMap)
    (getProgramResolutions : string → ResolutionMode → option ref)
    (entry : string * ResolutionMode * ref) (loop : bool * VerifierState H)
    : outcome (bool * VerifierState H) :=
  let '((name, mode), resolved) := entry in
  let '(expectedCache, st) := loop in
  object ← deref (heap (expected st)) resolved;
  let resolvedFileName := getResolvedFileName object in
  '(expectedResolution, st) ←
    collectResolution cacheType fileName resolved resolvedFileName name mode
      deferWatchingNonRelativeResolution st;
  let st :=
    if expectedCache : bool then st
    else set_cache (writeMap storeExpected
                      (jsSet fileName [] (readMap storeExpected (cacheOf (expected st))))
                      (cacheOf (expected st))) st in
  let st :=
    set_cache (setInExpectedCache storeExpected fileName name mode
                 expectedResolution (cacheOf (expected st))) st in
  Debug_assert (bool_decide (Some resolved = getProgramResolutions name mode)) ;;
  Returns (true, st).

(** Both callers pass the cache of the entry they iterate, never [undefined]. *)
Definition collectResolutionToRefFromCache (cacheType : string) (fileName : Path)
    (cache : ModeAwareCache) (getResolvedFileName : Resolution → option string)
    (deferWatchingNonRelativeResolution : bool) (storeExpected : PerFileMap)
    (getProgramResolutions : string → ResolutionMode → option ref)
    (st : VerifierState H) : outcome (VerifierState H) :=
  Debug_assert (bool_decide (is_Some (getSourceFileByPath actualProgram fileName))
                || bool_decide (inferredTypesPath = fileName)) ;;
  loop ← forEachS (collectEntry cacheType fileName getResolvedFileName
                     deferWatchingNonRelativeResolution storeExpected
                     getProgramResolutions) cache (false, st);
  Returns loop.2.

(** [verifySet], on sets of strings. *)
Definition verifySet (expected actual : option (gset string)) (caption : string)
    : outcome unit :=
  optSetForEach (fun expected =>
    Debug_assert (default false ((fun actual => bool_decide (expected ∈ actual)) <$> actual)))
    expected ;;
  optSetForEach (fun actual =>
    Debug_assert (default false ((fun expected => bool_decide (actual ∈ expected)) <$> expected)))
    actual.

Definition verifyMap {Expected Actual : Type}
    (expected : option (gmap string Expected)) (actual : option (gmap string Actual))
    (verifyValue : option Expected → option Actual → string → outcome unit)
    (caption : string) : outcome unit :=
  optMapForEach (fun path expected =>
    verifyValue (Some expected) (actual ≫= (.!! path)) (caption +:+ ":: " +:+ path))
    expected ;;
  optMapForEach (fun path actual =>
    verifyValue (expected ≫= (.!! path)) (Some actual) (caption +:+ ":: " +:+ path))
    actual.

Section WithState.

(** The checks that follow the collection read the state without changing it. *)
Variable st : VerifierState H.

Definition verifyResolutionSet (expected actual : option (gset ref)) (caption : string)
    : outcome unit :=
  optSetForEach (fun resolution =>
    Debug_assert
      match expectedToResolution st !! resolution with
      | Some counterpart =>
          default false ((fun actual => bool_decide (counterpart ∈ actual)) <$> actual)
      | None => false
      end) expected ;;
  optSetForEach (fun resolution =>
    Debug_assert
      match resolutionToExpected st !! resolution with
      | Some counterpart =>
          default false ((fun expected => bool_decide (counterpart ∈ expected)) <$> expected)
      | None => false
      end) actual.

Definition verifyMapOfResolutionSet (expected actual : option (gmap Path (gset ref)))
    (caption : string) : outcome unit :=
  verifyMap expected actual verifyResolutionSet caption.

Definition verifyDirectoryWatchesOfFailedLookups
    (expected actual : gmap string DirectoryWatchesOfFailedLookup.t) : outcome unit :=
  verifyMap (Some expected) (Some actual) (fun expected actual caption =>
    Debug_assert (bool_decide (DirectoryWatchesOfFailedLookup.refCount <$> expected
                               = DirectoryWatchesOfFailedLookup.refCount <$> actual)) ;;
    Debug_assert (truthyCount (DirectoryWatchesOfFailedLookup.refCount <$> expected)) ;;
    Debug_assert (bool_decide (expected ≫= DirectoryWatchesOfFailedLookup.nonRecursive
                               = actual ≫= DirectoryWatchesOfFailedLookup.nonRecursive)))
    "directoryWatchesOfFailedLookups".

Definition verifyFileWatcherOfAffectingLocation
    (expected actual : option FileWatcherOfAffectingLocation.t) (caption : string)
    : outcome unit :=
  Debug_assert (bool_decide (FileWatcherOfAffectingLocation.resolutions <$> expected
                             = FileWatcherOfAffectingLocation.resolutions <$> actual)) ;;
  Debug_assert (bool_decide (FileWatcherOfAffectingLocation.files <$> expected
                             = FileWatcherOfAffectingLocation.files <$> actual)) ;;
  verifySet (expected ≫= FileWatcherOfAffectingLocation.symlinks)
    (actual ≫= FileWatcherOfAffectingLocation.symlinks)
    (projectName +:+ ":: " +:+ caption +:+ ":: symlinks").

Definition verifyFileWatchesOfAffectingLocations
    (expected actual : gmap string FileWatcherOfAffectingLocation.t) : outcome unit :=
  verifyMap (Some expected) (Some actual) verifyFileWatcherOfAffectingLocation
    "fileWatchesOfAffectingLocations".

(** The body of [resolutionToRefs.forEach((info, resolution) => ...)]. *)
Definition verifyRefCount (resolution : ref) (info : list ResolutionInfo.t) : outcome unit :=
  object ← deref (heap (expected st)) resolution;
  Debug_assert (bool_decide (refCount object = Some (length info))) ;;
  Debug_assert (negb (truthyFlag (isInvalidated object))) ;;
  match resolutionToExpected st !! resolution with
  | None => Throws
  | Some expectedResolution =>
      expectedObject ← deref (heap (expected st)) expectedResolution;
      Debug_assert (bool_decide (refCount expectedObject = refCount object)) ;;
      verifySet (files expectedObject) (files object) "Resolution files"
  end.

(** The comparisons between the collection and the teardown. *)
Definition verifyCollected : outcome unit :=
  mapForEach verifyRefCount (resolutionToRefs st) ;;
  verifyMapOfResolutionSet (Some (resolvedFileToResolution (cacheOf (expected st))))
    (Some (resolvedFileToResolution actual)) "resolvedFileToResolution" ;;
  verifyResolutionSet (Some (resolutionsWithFailedLookups (cacheOf (expected st))))
    (Some (resolutionsWithFailedLookups actual)) "resolutionsWithFailedLookups" ;;
  verifyResolutionSet (Some (resolutionsWithOnlyAffectingLocations (cacheOf (expected st))))
    (Some (resolutionsWithOnlyAffectingLocations actual))
    "resolutionsWithOnlyAffectingLocations" ;;
  verifyDirectoryWatchesOfFailedLookups (directoryWatchesOfFailedLookups (cacheOf (expected st)))
    (directoryWatchesOfFailedLookups actual) ;;
  verifyFileWatchesOfAffectingLocations (fileWatchesOfAffectingLocations (cacheOf (expected st)))
    (fileWatchesOfAffectingLocations actual).

(** The assertions after the teardown. *)
Definition verifyReleased : outcome unit :=
  mapForEach (fun _resolution expectedResolution =>
    expectedObject ← deref (heap (expected st)) expectedResolution;
    Debug_assert (negb (truthyCount (refCount expectedObject))) ;;
    Debug_assert (negb (truthySize (files expectedObject)))) (resolutionToExpected st) ;;
  Debug_assert (bool_decide (size (resolvedFileToResolution (cacheOf (expected st))) = 0)) ;;
  Debug_assert (bool_decide (size (resolutionsWithFailedLookups (cacheOf (expected st))) = 0)) ;;
  Debug_assert (bool_decide
    (size (resolutionsWithOnlyAffectingLocations (cacheOf (expected st))) = 0)) ;;
  Debug_assert (bool_decide (size (directoryWatchesOfFailedLookups (cacheOf (expected st))) = 0)) ;;
  Debug_assert (bool_decide (size (fileWatchesOfAffectingLocations (cacheOf (expected st))) = 0)).

End WithState.

(** What the program answers for a name of a file, as the two callbacks
    [getProgramResolutions] compute it.  [getSourceFileByPath(path)!] of a path
    outside the program leaves no resolution to compare with. *)
Definition programModuleResolution (path : Path) (name : string) (mode : ResolutionMode)
    : option ref :=
  file ← getSourceFileByPath actualProgram path;
  getResolvedModule actualProgram file name mode.

Definition programTypeRefResolution (path : Path) (name : string) (mode : ResolutionMode)
    : option ref :=
  if decide (path ≠ inferredTypesPath) then
    file ← getSourceFileByPath actualProgram path;
    getResolvedTypeReferenceDirective actualProgram file name mode
  else jsGet (name, mode) (getAutomaticTypeDirectiveResolutions actualProgram).

Definition libraryPath (libFileName : string) : Path :=
  toPath resolutionHostCacheHost
    (getInferredLibraryNameResolveFrom (getCompilerOptions actualProgram)
       currentDirectory libFileName).

(** The state at the start: a new cache that has started caching, and empty
    maps. *)
Definition initialState (objects : Store) : outcome (VerifierState H) :=
  let '(c, h) := createResolutionCache impl resolutionHostCacheHost
                   (rootDirForResolution actual) false in
  started ← startCachingPerDirectoryResolution impl (mkShadow objects c h);
  Returns (mkState started ∅ ∅ ∅).

(** The callbacks of the three [forEach] over the live cache. *)
Definition collectModules (entry : Path * ModeAwareCache) (st : VerifierState H)
    : outcome (VerifierState H) :=
  let '(path, resolutions) := entry in
  collectResolutionToRefFromCache "Modules" path resolutions
    getResolvedModuleFileName true moduleNamesOf (programModuleResolution path) st.

Definition collectTypeRefs (entry : Path * ModeAwareCache) (st : VerifierState H)
    : outcome (VerifierState H) :=
  let '(path, resolutions) := entry in
  collectResolutionToRefFromCache "TypeRefs" path resolutions
    getResolvedTypeRefFileName false typeReferenceDirectivesOf
    (programTypeRefResolution path) st.

Definition collectLibrary (entry : string * ref) (st : VerifierState H)
    : outcome (VerifierState H) :=
  let '(libFileName, resolved) := entry in
  object ← deref (heap (expected st)) resolved;
  '(expectedResolution, st) ←
    collectResolution "Libs" (libraryPath libFileName) resolved
      (getResolvedModuleFileName object)
      (getLibraryNameFromLibFileName libFileName) None false st;
  Returns (set_cache (set_resolvedLibraries
             (jsSet libFileName expectedResolution
                (resolvedLibraries (cacheOf (expected st))))
             (cacheOf (expected st))) st).

(** The callbacks of the three [forEach] over the resolutions of the program. *)
Definition verifyModuleIsInCache (e : ResolvedEntry) : outcome unit :=
  verifyResolutionIsInCache "Modules"
    (jsGet (entryFilePath e) (resolvedModuleNames actual))
    (entryResolution e) (entryName e) (entryMode e) (entryFilePath e).

Definition verifyTypeRefIsInCache (e : ResolvedEntry) : outcome unit :=
  verifyResolutionIsInCache "TypeRefs"
    (jsGet (entryFilePath e) (resolvedTypeReferenceDirectives actual))
    (entryResolution e) (entryName e) (entryMode e) (entryFilePath e).

Definition verifyAutoTypeRefIsInCache (entry : string * ResolutionMode * ref) : outcome unit :=
  let '((name, mode), resolution) := entry in
  verifyResolutionIsInCache "AutoTypeRefs"
    (jsGet inferredTypesPath (resolvedTypeReferenceDirectives actual))
    resolution name mode inferredTypesPath.

(** From the first [forEach] to the first [finishCachingPerDirectoryResolution]. *)
Definition collect (st : VerifierState H) : outcome (VerifierState H) :=
  st ← forEachS collectModules (resolvedModuleNames actual) st;
  st ← forEachS collectTypeRefs (resolvedTypeReferenceDirectives actual) st;
  st ← forEachS collectLibrary (resolvedLibraries actual) st;
  (if userResolvedModuleNames then Returns ()
   else forEach verifyModuleIsInCache (forEachResolvedModule actualProgram None)) ;;
  forEach verifyTypeRefIsInCache (forEachResolvedTypeReferenceDirective actualProgram None) ;;
  forEach verifyAutoTypeRefIsInCache (getAutomaticTypeDirectiveResolutions actualProgram) ;;
  finished ← finishCachingPerDirectoryResolution impl (Some actualProgram) None (expected st);
  Returns (set_expected finished st).

(** "Stop watching resolutions to verify everything gets closed." *)
Definition removeEntry (entry : Path * ModeAwareCache) (sh : Shadow H)
    : outcome (Shadow H) :=
  let '(path, _resolutions) := entry in
  removeResolutionsOfFile impl path sh.

Definition teardown (st : VerifierState H) : outcome (VerifierState H) :=
  sh ← forEachS removeEntry (resolvedModuleNames actual) (expected st);
  sh ← forEachS removeEntry (resolvedTypeReferenceDirectives actual) sh;
  finished ← finishCachingPerDirectoryResolution impl None (Some actualProgram) sh;
  Returns (set_expected finished st).

(** The state in which the comparisons run. *)
Definition collectedState (objects : Store) : outcome (VerifierState H) :=
  st ← initialState objects;
  collect st.

(** [verifyResolutionCache], started on the objects of the heap; it returns
    the state it ends in, which holds the heap as the call leaves it. *)
Definition verifyResolutionCache (objects : Store) : outcome (VerifierState H) :=
  st ← initialState objects;
  collected ← collect st;
  verifyCollected collected ;;
  released ← teardown collected;
  verifyReleased released ;;
  Returns released.

(** What the assertions of the collection say of the live cache and the
    program.  [cachedAt m path name mode] is [m.get(path)?.get(name, mode)]. *)
Definition cachedAt (m : JsMap Path ModeAwareCache) (path : Path) (name : string)
    (mode : ResolutionMode) : option ref :=
  jsGet path m ≫= jsGet (name, mode).

(** Program to cache: a resolution the program reports, other than the
    sentinel, is the one the cache holds at its key. *)
Definition programResolutionsCached : Prop :=
  (userResolvedModuleNames = false →
   ∀ e, e ∈ forEachResolvedModule actualProgram None →
     entryResolution e ≠ emptyResolution →
     cachedAt (resolvedModuleNames actual) (entryFilePath e) (entryName e) (entryMode e)
       = Some (entryResolution e)) ∧
  (∀ e, e ∈ forEachResolvedTypeReferenceDirective actualProgram None →
     entryResolution e ≠ emptyResolution →
     cachedAt (resolvedTypeReferenceDirectives actual) (entryFilePath e) (entryName e)
       (entryMode e) = Some (entryResolution e)) ∧
  (∀ name mode resolution,
     ((name, mode), resolution) ∈ getAutomaticTypeDirectiveResolutions actualProgram →
     resolution ≠ emptyResolution →
     cachedAt (resolvedTypeReferenceDirectives actual) inferredTypesPath name mode
       = Some resolution).

(** Cache to program: a resolution the cache holds is the one the program
    reports for its key. *)
Definition cachedResolutionsReported : Prop :=
  (∀ path cache name mode resolved,
     (path, cache) ∈ resolvedModuleNames actual → ((name, mode), resolved) ∈ cache →
     programModuleResolution path name mode = Some resolved) ∧
  (∀ path cache name mode resolved,
     (path, cache) ∈ resolvedTypeReferenceDirectives actual →
     ((name, mode), resolved) ∈ cache →
     programTypeRefResolution path name mode = Some resolved).

(** The sentinel is at no key of the cache for which the program reports it. *)
Definition sentinelNotCached : Prop :=
  (userResolvedModuleNames = false →
   ∀ e, e ∈ forEachResolvedModule actualProgram None →
     entryResolution e = emptyResolution →
     cachedAt (resolvedModuleNames actual) (entryFilePath e) (entryName e) (entryMode e)
       = None) ∧
  (∀ e, e ∈ forEachResolvedTypeReferenceDirective actualProgram None →
     entryResolution e = emptyResolution →
     cachedAt (resolvedTypeReferenceDirectives actual) (entryFilePath e) (entryName e)
       (entryMode e) = None) ∧
  (∀ name mode resolution,
     ((name, mode), resolution) ∈ getAutomaticTypeDirectiveResolutions actualProgram →
     resolution = emptyResolution →
     cachedAt (resolvedTypeReferenceDirectives actual) inferredTypesPath name mode = None).

(** Every file with an entry in one of the two per-file maps of the live
    cache is a source file of the program or the containing file of the
    automatic type directives. *)
Definition cachedFilesInProgram : Prop :=
  ∀ path,
    is_Some (jsGet path (resolvedModuleNames actual)) ∨
    is_Some (jsGet path (resolvedTypeReferenceDirectives actual)) →
    is_Some (getSourceFileByPath actualProgram path) ∨ path = inferredTypesPath.

End Verifier.

(** ** What the verifier establishes *)

Definition filesOf (o : Resolution) : gset Path := default ∅ (files o).

(** How often the live cache refers to [R]: once for every (file, name, mode)
    of the two per-file maps and every library that holds it. *)
Definition occurrences (R : ref) (l : list ref) : nat :=
  length (filter (fun r => r = R) l).
Arguments occurrences : simpl never.

Definition cachedResolutions (m : JsMap Path ModeAwareCache) : list ref :=
  concat ((fun c : ModeAwareCache => c.*2) <$> m.*2).

Definition referencesTo (actual : ResolutionCache) (R : ref) : nat :=
  occurrences R (cachedResolutions (resolvedModuleNames actual)) +
  occurrences R (cachedResolutions (resolvedTypeReferenceDirectives actual)) +
  occurrences R (resolvedLibraries actual).*2.

Definition collectedCount {H : Type} (st : VerifierState H) (R : ref) : nat :=
  length (default [] (resolutionToRefs st !! R)).

Definition keysNonEmpty {H : Type} (st : VerifierState H) : Prop :=
  ∀ R info, resolutionToRefs st !! R = Some info → info ≠ [].

(** The four assertions on a collected resolution [R] with references [info]. *)
Definition refCountVerified {H : Type} (st : VerifierState H) (R : ref)
    (info : list ResolutionInfo.t) : Prop :=
  ∃ object expectedResolution expectedObject,
    heap (expected st) !! R = Some object ∧
    refCount object = Some (length info) ∧
    isInvalidated object ≠ Some true ∧
    resolutionToExpected st !! R = Some expectedResolution ∧
    heap (expected st) !! expectedResolution = Some expectedObject ∧
    refCount expectedObject = refCount object ∧
    filesOf expectedObject ⊆ filesOf object ∧
    filesOf object ⊆ filesOf expectedObject.

Definition directoryWatchesAgree
    (expected actual : gmap string DirectoryWatchesOfFailedLookup.t) : Prop :=
  ∀ path,
    match expected !! path, actual !! path with
    | Some e, Some a =>
        DirectoryWatchesOfFailedLookup.refCount e = DirectoryWatchesOfFailedLookup.refCount a ∧
        DirectoryWatchesOfFailedLookup.refCount e ≠ 0 ∧
        DirectoryWatchesOfFailedLookup.nonRecursive e
          = DirectoryWatchesOfFailedLookup.nonRecursive a
    | None, None => True
    | _, _ => False
    end.

Definition symlinksOf (w : FileWatcherOfAffectingLocation.t) : gset string :=
  default ∅ (FileWatcherOfAffectingLocation.symlinks w).

Definition fileWatchesAgree
    (expected actual : gmap string FileWatcherOfAffectingLocation.t) : Prop :=
  ∀ path,
    match expected !! path, actual !! path with
    | Some e, Some a =>
        FileWatcherOfAffectingLocation.resolutions e
          = FileWatcherOfAffectingLocation.resolutions a ∧
        FileWatcherOfAffectingLocation.files e = FileWatcherOfAffectingLocation.files a ∧
        symlinksOf e ⊆ symlinksOf a ∧ symlinksOf a ⊆ symlinksOf e
    | None, None => True
    | _, _ => False
    end.

(** The state of the shadow cache that passes the assertions after the
    teardown.  A count or a file set that was never assigned passes [!] like
    zero and like the empty set. *)
Definition shadowReleased {H : Type} (st : VerifierState H) : Prop :=
  (∀ R expectedResolution, resolutionToExpected st !! R = Some expectedResolution →
     ∃ expectedObject, heap (expected st) !! expectedResolution = Some expectedObject ∧
       default 0 (refCount expectedObject) = 0 ∧ filesOf expectedObject = ∅) ∧
  size (resolvedFileToResolution (cacheOf (expected st))) = 0 ∧
  size (resolutionsWithFailedLookups (cacheOf (expected st))) = 0 ∧
  size (resolutionsWithOnlyAffectingLocations (cacheOf (expected st))) = 0 ∧
  size (directoryWatchesOfFailedLookups (cacheOf (expected st))) = 0 ∧
  size (fileWatchesOfAffectingLocations (cacheOf (expected st))) = 0.

(** The file-watch comparison as the specification words it: the resolution
    sets of the two watches, taken as [Set] objects with contents [sets],
    compared through the cross-reference maps; the file sets by identity; the
    symlinks by value. *)
Definition setBehind (sets : gmap positive (gset ref)) (v : option JsValue)
    : option (gset ref) :=
  match v with
  | Some (JsObject id) => sets !! id
  | _ => None
  end.

Definition fileWatcherCheckBySpec {H : Type} (st : VerifierState H)
    (sets : gmap positive (gset ref))
    (expected actual : option FileWatcherOfAffectingLocation.t) : outcome unit :=
  verifyResolutionSet st
    (setBehind sets (FileWatcherOfAffectingLocation.resolutions <$> expected))
    (setBehind sets (FileWatcherOfAffectingLocation.resolutions <$> actual)) "resolutions" ;;
  Debug_assert (bool_decide (FileWatcherOfAffectingLocation.files <$> expected
                             = FileWatcherOfAffectingLocation.files <$> actual)) ;;
  verifySet (expected ≫= FileWatcherOfAffectingLocation.symlinks)
    (actual ≫= FileWatcherOfAffectingLocation.symlinks) "symlinks".

(** ** Which objects the shadow cache may write *)

Definition modeAwareRefs (c : ModeAwareCache) : gset ref := list_to_set c.*2.

Definition perFileRefs (m : JsMap Path ModeAwareCache) : gset ref :=
  ⋃ (modeAwareRefs <$> m.*2).

(** The resolutions a cache holds for files and libraries. *)
Definition cacheRefs (c : ResolutionCache) : gset ref :=
  perFileRefs (resolvedModuleNames c) ∪ perFileRefs (resolvedTypeReferenceDirectives c) ∪
  list_to_set (resolvedLibraries c).*2.

Section Locality.
Context {H : Type} (closureRefs : H → gset ref).

Definition tracked (sh : Shadow H) : gset ref :=
  cacheRefs (cacheOf sh) ∪ closureRefs (closure sh).

(** A step from [sh] to [sh'] that writes no object but those the cache holds
    and those in [args], and comes to hold no others. *)
Definition localTo (args : gset ref) (sh sh' : Shadow H) : Prop :=
  (∀ a, a ∉ tracked sh ∪ args → heap sh' !! a = heap sh !! a) ∧
  tracked sh' ⊆ tracked sh ∪ args.

(** An implementation whose operations touch only the resolutions handed to
    the cache: a new cache holds none, and each method is local to the cache
    and its resolution argument. *)
Record HeapLocal (impl : ResolutionCacheImpl H) : Prop := {
  create_local : ∀ host root log,
    cacheRefs (createResolutionCache impl host root log).1 = ∅ ∧
    closureRefs (createResolutionCache impl host root log).2 = ∅;
  start_local : ∀ sh sh',
    startCachingPerDirectoryResolution impl sh = Returns sh' → localTo ∅ sh sh';
  watch_local : ∀ name e file resolvedFileName defer sh sh',
    watchFailedLookupLocationsOfExternalModuleResolutions impl name e file
      resolvedFileName defer sh = Returns sh' → localTo {[e]} sh sh';
  remove_local : ∀ file sh sh',
    removeResolutionsOfFile impl file sh = Returns sh' → localTo ∅ sh sh';
  finish_local : ∀ newProgram oldProgram sh sh',
    finishCachingPerDirectoryResolution impl newProgram oldProgram sh = Returns sh' →
    localTo ∅ sh sh';
}.

(** The shadow cache keeps off the objects that were on the heap when the
    verifier was called: they are as they were and the cache holds none. *)
Definition confinedShadow (objects : Store) (sh : Shadow H) : Prop :=
  (∀ a o, objects !! a = Some o → heap sh !! a = Some o) ∧
  tracked sh ## dom objects.

Definition confined (objects : Store) (st : VerifierState H) : Prop :=
  confinedShadow objects (expected st) ∧
  (∀ R e, resolutionToExpected st !! R = Some e → e ∉ dom objects).

(** A per-file map of the cache that holds only resolutions of the cache. *)
Definition perFileMapLocal (pm : PerFileMap) : Prop :=
  ∀ c, perFileRefs (readMap pm c) ⊆ cacheRefs c ∧
       ∀ m, cacheRefs (writeMap pm m c) ⊆ perFileRefs m ∪ cacheRefs c.

End Locality.

(** ** A reference resolution cache *)

Module SpecCache.

(** The code of the resolution cache ([ts.createResolutionCache] and the
    methods of the cache it returns) is not among these sources.  This module
    models it from the data model and the lifecycle of the specification:
    watching a resolution for a file adds the file to its file set and
    increments its reference count; the first reference enters the resolution
    in the index by resolved file, in the set of resolutions with failed
    lookups (or, without failed lookups, the set of those with only affecting
    locations) and counts one dependent on the directory watch of every failed
    lookup and on the file watch of every affecting location; removing a file
    decrements and, at zero, prunes; a watch exists exactly while it has a
    dependent.  The verifier itself is embedded over any implementation; this
    one serves to run it. *)

Definition bump (n : option nat) : option nat := Some (S (default 0 n)).

(** The directory of a location: what precedes its last slash. *)
Fixpoint directoryPrefix (location : string) : option string :=
  match location with
  | EmptyString => None
  | String c rest =>
      match directoryPrefix rest with
      | Some d => Some (String c d)
      | None => if decide (c = "/"%char) then Some EmptyString else None
      end
  end.

Definition getDirectoryPath (location : string) : string :=
  default location (directoryPrefix location).

Definition addDirectoryWatch (dir : string)
    (m : gmap string DirectoryWatchesOfFailedLookup.t) :=
  match m !! dir with
  | Some w =>
      <[dir := DirectoryWatchesOfFailedLookup.mk
                 (S (DirectoryWatchesOfFailedLookup.refCount w))
                 (DirectoryWatchesOfFailedLookup.nonRecursive w)]> m
  | None => <[dir := DirectoryWatchesOfFailedLookup.mk 1 None]> m
  end.

Definition removeDirectoryWatch (dir : string)
    (m : gmap string DirectoryWatchesOfFailedLookup.t) :=
  match m !! dir with
  | Some w =>
      match DirectoryWatchesOfFailedLookup.refCount w with
      | S (S n) =>
          <[dir := DirectoryWatchesOfFailedLookup.mk (S n)
                     (DirectoryWatchesOfFailedLookup.nonRecursive w)]> m
      | _ => delete dir m
      end
  | None => m
  end.

Definition countOf (v : JsValue) : nat :=
  match v with
  | JsNumber n => n
  | JsObject _ => 0
  end.

Definition addFileWatch (location : string)
    (m : gmap string FileWatcherOfAffectingLocation.t) :=
  match m !! location with
  | Some w =>
      <[location := FileWatcherOfAffectingLocation.mk
                      (JsNumber (S (countOf (FileWatcherOfAffectingLocation.resolutions w))))
                      (FileWatcherOfAffectingLocation.files w)
                      (FileWatcherOfAffectingLocation.symlinks w)]> m
  | None => <[location := FileWatcherOfAffectingLocation.mk (JsNumber 1) (JsNumber 0) None]> m
  end.

Definition removeFileWatch (location : string)
    (m : gmap string FileWatcherOfAffectingLocation.t) :=
  match m !! location with
  | Some w =>
      match countOf (FileWatcherOfAffectingLocation.resolutions w) with
      | S (S n) =>
          <[location := FileWatcherOfAffectingLocation.mk (JsNumber (S n))
                          (FileWatcherOfAffectingLocation.files w)
                          (FileWatcherOfAffectingLocation.symlinks w)]> m
      | _ => delete location m
      end
  | None => m
  end.

Definition isEmptyList {A : Type} (l : list A) : bool :=
  match l with
  | [] => true
  | _ => false
  end.

(** Modelled from the spec: the bookkeeping of the cache, not among these
    sources, when a resolution gets its first reference ("watches are created
    on first dependency"): enter [e] in the indexes and count it on the
    watches. *)
Definition register (e : ref) (o : Resolution) (resolvedFileName : option string)
    (c : ResolutionCache) : ResolutionCache :=
  let failed := default [] (failedLookupLocations o) in
  let affecting := default [] (affectingLocations o) in
  mkResolutionCache (rootDirForResolution c) (resolvedModuleNames c)
    (resolvedTypeReferenceDirectives c) (resolvedLibraries c)
    (match resolvedFileName with
     | Some f =>
         <[f := {[e]} ∪ default ∅ (resolvedFileToResolution c !! f)]>
           (resolvedFileToResolution c)
     | None => resolvedFileToResolution c
     end)
    (if isEmptyList failed then resolutionsWithFailedLookups c
     else {[e]} ∪ resolutionsWithFailedLookups c)
    (if isEmptyList failed && negb (isEmptyList affecting)
     then {[e]} ∪ resolutionsWithOnlyAffectingLocations c
     else resolutionsWithOnlyAffectingLocations c)
    (foldr (fun location => addDirectoryWatch (getDirectoryPath location))
       (directoryWatchesOfFailedLookups c) failed)
    (foldr addFileWatch (fileWatchesOfAffectingLocations c) affecting).

(** Modelled from the spec: the bookkeeping of the cache, not among these
    sources, when a resolution loses its last reference ("torn down when their
    last dependent resolution is removed"): the inverse of [register]. *)
Definition unregister (e : ref) (o : Resolution) (c : ResolutionCache) : ResolutionCache :=
  let failed := default [] (failedLookupLocations o) in
  let affecting := default [] (affectingLocations o) in
  mkResolutionCache (rootDirForResolution c) (resolvedModuleNames c)
    (resolvedTypeReferenceDirectives c) (resolvedLibraries c)
    (omap (fun s => if decide (s ∖ {[e]} = ∅) then None else Some (s ∖ {[e]}))
       (resolvedFileToResolution c))
    (resolutionsWithFailedLookups c ∖ {[e]})
    (resolutionsWithOnlyAffectingLocations c ∖ {[e]})
    (foldr (fun location => removeDirectoryWatch (getDirectoryPath location))
       (directoryWatchesOfFailedLookups c) failed)
    (foldr removeFileWatch (fileWatchesOfAffectingLocations c) affecting).

(** Modelled from the spec: [watchFailedLookupLocationsOfExternalModuleResolutions]
    of the cache, not among these sources ("increments the shadow ref count and
    registers directory/file watches"). *)
Definition watchResolution (name : string) (e : ref) (file : Path)
    (resolvedFileName : option string) (deferWatchingNonRelativeResolution : bool)
    (sh : Shadow unit) : outcome (Shadow unit) :=
  o ← deref (heap sh) e;
  let o' := mkResolution (resolvedModule o) (resolvedTypeReferenceDirective o)
              (failedLookupLocations o) (affectingLocations o) (node10Result o)
              (isInvalidated o) (bump (refCount o))
              (Some ({[file]} ∪ default ∅ (files o))) in
  Returns (mkShadow (<[e := o']> (heap sh))
             (if decide (refCount o' = Some 1)
              then register e o' resolvedFileName (cacheOf sh)
              else cacheOf sh)
             (closure sh)).

(** Modelled from the spec: the release of one reference by the cache, not
    among these sources ("decremented and pruned when a referencing file is
    removed"). *)
Definition stopWatching (e : ref) (file : Path) (sh : Shadow unit) : Shadow unit :=
  match heap sh !! e with
  | None => sh
  | Some o =>
      let o' := mkResolution (resolvedModule o) (resolvedTypeReferenceDirective o)
                  (failedLookupLocations o) (affectingLocations o) (node10Result o)
                  (isInvalidated o) (Some (pred (default 0 (refCount o))))
                  (Some (default ∅ (files o) ∖ {[file]})) in
      mkShadow (<[e := o']> (heap sh))
        (if decide (refCount o' = Some 0) then unregister e o' (cacheOf sh) else cacheOf sh)
        (closure sh)
  end.

Definition stopWatchingAll (file : Path) (resolutions : ModeAwareCache) (sh : Shadow unit)
    : Shadow unit :=
  fold_left (fun sh '(_, e) => stopWatching e file sh) resolutions sh.

(** Modelled from the spec: [removeResolutionsOfFile] of the cache, not among
    these sources: every resolution the cache holds for the file is released
    and the entries of the file are deleted. *)
Definition removeFile (file : Path) (sh : Shadow unit) : outcome (Shadow unit) :=
  let sh := stopWatchingAll file
              (default [] (jsGet file (resolvedModuleNames (cacheOf sh)))) sh in
  let sh := stopWatchingAll file
              (default [] (jsGet file (resolvedTypeReferenceDirectives (cacheOf sh)))) sh in
  Returns (mkShadow (heap sh)
             (set_resolvedModuleNames (jsDelete file (resolvedModuleNames (cacheOf sh)))
                (set_resolvedTypeReferenceDirectives
                   (jsDelete file (resolvedTypeReferenceDirectives (cacheOf sh)))
                   (cacheOf sh)))
             (closure sh)).

(** Modelled from the spec: the part of [finishCachingPerDirectoryResolution],
    not among these sources, that the teardown relies on ("simulating full
    invalidation"): without a new program every library resolution is
    released. *)
Definition releaseLibraries (sh : Shadow unit) : Shadow unit :=
  let sh := fold_left (fun sh '(_, e) =>
              match heap sh !! e with
              | Some o =>
                  fold_left (fun sh file => stopWatching e file sh)
                    (elements (default ∅ (files o))) sh
              | None => sh
              end) (resolvedLibraries (cacheOf sh)) sh in
  mkShadow (heap sh) (set_resolvedLibraries [] (cacheOf sh)) (closure sh).

(** Modelled from the spec: [finishCachingPerDirectoryResolution] of the cache,
    not among these sources. *)
Definition finish (newProgram oldProgram : option Program) (sh : Shadow unit)
    : outcome (Shadow unit) :=
  match newProgram with
  | Some _ => Returns sh
  | None => Returns (releaseLibraries sh)
  end.

(** Modelled from the spec: [ts.createResolutionCache], not among these
    sources: a cache with nothing in it. *)
Definition create (host : ResolutionCacheHost) (rootDirForResolution : string)
    (logChangesWhenResolvingModule : bool) : ResolutionCache * unit :=
  (mkResolutionCache rootDirForResolution [] [] [] ∅ ∅ ∅ ∅ ∅, ()).

Definition impl : ResolutionCacheImpl unit :=
  mkImpl unit create Returns watchResolution removeFile finish.

(** The closure of the reference cache holds no resolution. *)
Definition closureRefs (h : unit) : gset ref := ∅.

(** The three maps through which a cache holds resolutions. *)
Definition holdings (c : ResolutionCache)
    : JsMap Path ModeAwareCache * JsMap Path ModeAwareCache * JsMap string ref :=
  (resolvedModuleNames c, resolvedTypeReferenceDirectives c, resolvedLibraries c).

End SpecCache.

(** ** A project of two files *)

Module Scenario.

(** Files [a.ts] and [b.ts] both import "bar", which resolves to one shared
    resolution; [a.ts] also imports the ambient module "fs" and references the
    types of "node"; "jest" is an automatic type directive and [lib.es5.d.ts]
    a library. *)

Definition inferredFile (options : CompilerOptions) (dir : string) : string :=
  dir +:+ "/__inferred type names__.ts".
Definition libraryLookupFile (options : CompilerOptions) (dir lib : string) : string :=
  dir +:+ "/__lib_node_modules_lookup_" +:+ lib +:+ "__.ts".
Definition libraryName (lib : string) : string := "@typescript/" +:+ lib.
Definition host : ResolutionCacheHost := mkHost "/src" id.

Definition aTs : SourceFile :=
  mkSourceFile "/src/a.ts" "/src/a.ts" "/src/a.ts" None EmptyString SK_TS.
Definition bTs : SourceFile :=
  mkSourceFile "/src/b.ts" "/src/b.ts" "/src/b.ts" None EmptyString SK_TS.

Definition sentinel : ref := 1%positive.
Definition bar : ref := 2%positive.
Definition node : ref := 3%positive.
Definition jest : ref := 4%positive.
Definition es5 : ref := 5%positive.

Definition sentinelObject : Resolution :=
  mkResolution None None None None None None None None.

Definition liveObjects : Store :=
  <[sentinel := sentinelObject]>
  (<[bar := mkResolution (Some (mkResolvedModule "/node_modules/bar/index.js")) None
       (Some ["/src/node_modules/bar/package.json"; "/src/node_modules/bar.ts"])
       (Some ["/node_modules/bar/package.json"]) None None (Some 2)
       (Some {[ "/src/a.ts"; "/src/b.ts" ]})]>
  (<[node := mkResolution None
       (Some (mkResolvedTypeRef (Some "/node_modules/@types/node/index.d.ts")))
       None (Some ["/node_modules/@types/node/package.json"]) None (Some false) (Some 1)
       (Some {[ "/src/a.ts" ]})]>
  (<[jest := mkResolution None
       (Some (mkResolvedTypeRef (Some "/node_modules/@types/jest/index.d.ts")))
       None None None None (Some 1)
       (Some {[ "/src/__inferred type names__.ts" ]})]>
  (<[es5 := mkResolution None None
       (Some ["/src/node_modules/@typescript/lib-es5.d.ts"]) None None None (Some 1)
       (Some {[ "/src/__lib_node_modules_lookup_lib.es5.d.ts__.ts" ]})]> ∅)))).

Definition modulesOf (p : Path) : ModeAwareCache :=
  if decide (p = "/src/a.ts") then [(("bar", None), bar); (("fs", None), sentinel)]
  else if decide (p = "/src/b.ts") then [(("bar", None), bar)]
  else [].

Definition typeRefsOf (p : Path) : ModeAwareCache :=
  if decide (p = "/src/a.ts") then [(("node", None), node)] else [].

Definition entriesOf (resolutionsOf : Path → ModeAwareCache) (p : Path) : list ResolvedEntry :=
  map (fun '((n, m), r) => mkResolvedEntry r n m p) (resolutionsOf p).

Definition program : Program :=
  mkProgram [aTs; bTs]
    (fun p => list_find (fun f => path f = p) [aTs; bTs] ≫= fun found => Some found.2)
    ∅
    (fun f n m => jsGet (n, m) (modulesOf (path f)))
    (fun f n m => jsGet (n, m) (typeRefsOf (path f)))
    (fun file =>
       match file with
       | Some f => entriesOf modulesOf (path f)
       | None => entriesOf modulesOf "/src/a.ts" ++ entriesOf modulesOf "/src/b.ts"
       end)
    (fun file =>
       match file with
       | Some f => entriesOf typeRefsOf (path f)
       | None => entriesOf typeRefsOf "/src/a.ts" ++ entriesOf typeRefsOf "/src/b.ts"
       end)
    [(("jest", None), jest)]
    None.

Definition watch (n : nat) : DirectoryWatchesOfFailedLookup.t :=
  DirectoryWatchesOfFailedLookup.mk n None.

Definition fileWatch (n : nat) : FileWatcherOfAffectingLocation.t :=
  FileWatcherOfAffectingLocation.mk (JsNumber n) (JsNumber 0) None.

(** The live cache of the project. *)
Definition live : ResolutionCache :=
  mkResolutionCache "/src"
    [("/src/a.ts", [(("bar", None), bar)]); ("/src/b.ts", [(("bar", None), bar)])]
    [("/src/a.ts", [(("node", None), node)]);
     ("/src/__inferred type names__.ts", [(("jest", None), jest)])]
    [("lib.es5.d.ts", es5)]
    (<["/node_modules/bar/index.js" := {[bar]}]>
     (<["/node_modules/@types/node/index.d.ts" := {[node]}]>
      {["/node_modules/@types/jest/index.d.ts" := {[jest]}]}))
    {[bar; es5]}
    {[node]}
    (<["/src/node_modules/bar" := watch 1]>
     (<["/src/node_modules/@typescript" := watch 1]>
      {["/src/node_modules" := watch 1]}))
    (<["/node_modules/bar/package.json" := fileWatch 1]>
     {["/node_modules/@types/node/package.json" := fileWatch 1]}).

(** A cache that lost the module resolutions of both files. *)
Definition liveWithoutModules : ResolutionCache :=
  mkResolutionCache "/src"
    []
    [("/src/a.ts", [(("node", None), node)]);
     ("/src/__inferred type names__.ts", [(("jest", None), jest)])]
    [("lib.es5.d.ts", es5)]
    (<["/node_modules/@types/node/index.d.ts" := {[node]}]>
     {["/node_modules/@types/jest/index.d.ts" := {[jest]}]})
    {[es5]}
    {[node]}
    {["/src/node_modules/@typescript" := watch 1]}
    {["/node_modules/@types/node/package.json" := fileWatch 1]}.

(** A cache that stored, and so watched, the sentinel for the ambient "fs":
    the sentinel object carries the reference that watching left on it. *)
Definition liveWithSentinel : ResolutionCache :=
  mkResolutionCache "/src"
    [("/src/a.ts", [(("bar", None), bar); (("fs", None), sentinel)]);
     ("/src/b.ts", [(("bar", None), bar)])]
    (resolvedTypeReferenceDirectives live) (resolvedLibraries live)
    (resolvedFileToResolution live) (resolutionsWithFailedLookups live)
    (resolutionsWithOnlyAffectingLocations live) (directoryWatchesOfFailedLookups live)
    (fileWatchesOfAffectingLocations live).

Definition objectsWithWatchedSentinel : Store :=
  <[sentinel := mkResolution None None None None None None (Some 1)
                  (Some {[ "/src/a.ts" ]})]> liveObjects.

(** The shared resolution counted once too often, and marked invalidated. *)
Definition objectsWithWrongCount : Store :=
  <[bar := mkResolution (Some (mkResolvedModule "/node_modules/bar/index.js")) None
       (Some ["/src/node_modules/bar/package.json"; "/src/node_modules/bar.ts"])
       (Some ["/node_modules/bar/package.json"]) None None (Some 3)
       (Some {[ "/src/a.ts"; "/src/b.ts" ]})]> liveObjects.

Definition objectsWithInvalidated : Store :=
  <[bar := mkResolution (Some (mkResolvedModule "/node_modules/bar/index.js")) None
       (Some ["/src/node_modules/bar/package.json"; "/src/node_modules/bar.ts"])
       (Some ["/node_modules/bar/package.json"]) None (Some true) (Some 2)
       (Some {[ "/src/a.ts"; "/src/b.ts" ]})]> liveObjects.

(** A cache with an entry for a file that is not of the program. *)
Definition liveWithStrayFile : ResolutionCache :=
  mkResolutionCache "/src"
    (resolvedModuleNames live ++ [("/src/gone.ts", [])])
    (resolvedTypeReferenceDirectives live) (resolvedLibraries live)
    (resolvedFileToResolution live) (resolutionsWithFailedLookups live)
    (resolutionsWithOnlyAffectingLocations live) (directoryWatchesOfFailedLookups live)
    (fileWatchesOfAffectingLocations live).

(** One directory watch counted once too often in the live cache. *)
Definition liveWithLeakedWatch : ResolutionCache :=
  mkResolutionCache "/src" (resolvedModuleNames live)
    (resolvedTypeReferenceDirectives live) (resolvedLibraries live)
    (resolvedFileToResolution live) (resolutionsWithFailedLookups live)
    (resolutionsWithOnlyAffectingLocations live)
    (<["/src/node_modules/bar" := watch 2]> (directoryWatchesOfFailedLookups live))
    (fileWatchesOfAffectingLocations live).

(** The verifier on the project, over the reference cache. *)
Definition verify (userResolvedModuleNames : bool) (actual : ResolutionCache)
    (objects : Store) : outcome (VerifierState unit) :=
  verifyResolutionCache SpecCache.impl sentinel inferredFile libraryLookupFile libraryName
    actual program host "/src/tsconfig.json" userResolvedModuleNames objects.

(** Two file watches whose [resolutions] are [Set] objects, one per cache,
    holding a live resolution and its shadow. *)
Definition linkedState : VerifierState unit :=
  mkState (mkShadow liveObjects live ()) {[ 6%positive := bar ]} {[ bar := 6%positive ]}
    {[ bar := [] ]}.
Definition setObjects : gmap positive (gset ref) :=
  <[ 10%positive := {[ 6%positive ]} ]> {[ 11%positive := {[ bar ]} ]}.
Definition shadowFileWatch : FileWatcherOfAffectingLocation.t :=
  FileWatcherOfAffectingLocation.mk (JsObject 10) (JsNumber 0) None.
Definition liveFileWatch : FileWatcherOfAffectingLocation.t :=
  FileWatcherOfAffectingLocation.mk (JsObject 11) (JsNumber 0) None.

Definition collected (userResolvedModuleNames : bool) (actual : ResolutionCache)
    (objects : Store) : outcome (VerifierState unit) :=
  collectedState SpecCache.impl sentinel inferredFile libraryLookupFile libraryName
    actual program host userResolvedModuleNames objects.

Definition passes {A : Type} (o : outcome A) : bool :=
  match o with
  | Returns _ => true
  | Throws => false
  end.

End Scenario.


(** ** The tally of the document registry verifier *)

Module DocumentRegistryTally.
Import DocumentRegistry.

#[global] Set Warnings "-register-all".

(** A [ts.server.Project] as [collectStats] sees it: its two auxiliary
    projects, when it has them, and its current program. *)
Inductive Project : Type :=
| mkProject (autoImportProviderHost noDtsResolutionProject : option Project)
            (getCurrentProgram : option Program).

(** The [ts.server.ProjectService] as [verifyDocumentRegistry] sees it:
    [forEachProject] lists the projects in the order of the calls. *)
Record ProjectService : Type := mkService {
  forEachProject : list Project;
  getBuckets : Buckets;
  getKeyForCompilationSettings : CompilerOptions → string;
  getDocumentRegistryBucketKeyWithMode : string → ResolutionMode → string;
}.

(** The body of [program.getSourceFiles().forEach(f => ...)]. *)
Definition collectFile (service : ProjectService) (key : string) (f : SourceFile)
    (stats : DocumentRegistryExpectedStats) : DocumentRegistryExpectedStats :=
  let keyWithMode :=
    getDocumentRegistryBucketKeyWithMode service key (impliedNodeFormat f) in
  match stats !! keyWithMode with
  | None =>
      let result : gmap ScriptKind nat := ∅ in
      <[keyWithMode :=
          <[resolvedPath f :=
              <[scriptKind f := default 0 (result !! scriptKind f) + 1]> result]> ∅]> stats
  | Some mapForKeyWithMode =>
      let result : gmap ScriptKind nat :=
        default ∅ (mapForKeyWithMode !! resolvedPath f) in
      <[keyWithMode :=
          <[resolvedPath f :=
              <[scriptKind f := default 0 (result !! scriptKind f) + 1]> result]>
            mapForKeyWithMode]> stats
  end.

Fixpoint collectStats (service : ProjectService) (project : Project)
    (stats : DocumentRegistryExpectedStats) : DocumentRegistryExpectedStats :=
  match project with
  | mkProject autoImportProviderHost noDtsResolutionProject getCurrentProgram =>
      let stats :=
        match autoImportProviderHost with
        | Some host => collectStats service host stats
        | None => stats
        end in
      let stats :=
        match noDtsResolutionProject with
        | Some noDts => collectStats service noDts stats
        | None => stats
        end in
      match getCurrentProgram with
      | None => stats
      | Some program =>
          let key := getKeyForCompilationSettings service (getCompilerOptions program) in
          fold_left (fun stats f => collectFile service key f stats)
            (getSourceFiles program) stats
      end
  end.

(** The [stats] that [verifyDocumentRegistry] hands to the comparison. *)
Definition expectedStats (service : ProjectService) : DocumentRegistryExpectedStats :=
  fold_left (fun stats project => collectStats service project stats)
    (forEachProject service) ∅.

Definition verifyDocumentRegistry (service : ProjectService) : outcome unit :=
  verifyDocumentRegistryStats (getBuckets service) (expectedStats service).

(** The files [collectStats] goes through, each with the key of the
    compilation settings of its program, in the order of the visit. *)
Fixpoint visitedFiles (service : ProjectService) (project : Project)
    : list (string * SourceFile) :=
  match project with
  | mkProject autoImportProviderHost noDtsResolutionProject getCurrentProgram =>
      match autoImportProviderHost with
      | Some host => visitedFiles service host
      | None => []
      end ++
      match noDtsResolutionProject with
      | Some noDts => visitedFiles service noDts
      | None => []
      end ++
      match getCurrentProgram with
      | None => []
      | Some program =>
          (fun f => (getKeyForCompilationSettings service (getCompilerOptions program), f))
            <$> getSourceFiles program
      end
  end.

Definition allVisitedFiles (service : ProjectService) : list (string * SourceFile) :=
  forEachProject service ≫= visitedFiles service.

(** Whether a visited file counts for a bucket, a path and a script kind. *)
Definition countsFor (service : ProjectService) (keyWithMode : string) (p : Path)
    (kind : ScriptKind) (visited : string * SourceFile) : Prop :=
  getDocumentRegistryBucketKeyWithMode service visited.1 (impliedNodeFormat visited.2)
    = keyWithMode ∧
  resolvedPath visited.2 = p ∧ scriptKind visited.2 = kind.

#[global] Instance countsFor_dec service keyWithMode p kind visited :
  Decision (countsFor service keyWithMode p kind visited).
Proof. unfold countsFor. apply _. Defined.

Definition holders (service : ProjectService) (keyWithMode : string) (p : Path)
    (kind : ScriptKind) (visited : list (string * SourceFile)) : nat :=
  length (filter (countsFor service keyWithMode p kind) visited).

(** The count of a tally, an absent one being no count. *)
Definition tallied (stats : DocumentRegistryExpectedStats) (keyWithMode : string)
    (p : Path) (kind : ScriptKind) : nat :=
  match stats !! keyWithMode with
  | Some statsByPath =>
      match statsByPath !! p with
      | Some byKind => default 0 (byKind !! kind)
      | None => 0
      end
  | None => 0
  end.

(** A tally without an empty bucket, an empty path or a zero. *)
Definition compact (stats : DocumentRegistryExpectedStats) : Prop :=
  ∀ keyWithMode statsByPath, stats !! keyWithMode = Some statsByPath →
    statsByPath ≠ ∅ ∧
    ∀ p byKind, statsByPath !! p = Some byKind →
      byKind ≠ ∅ ∧ ∀ kind n, byKind !! kind = Some n → 0 < n.

(** What a registry entry says of the projects: a single entry is held
    [languageServiceRefCount] times, always with its own script kind; a map by
    script kind gives for each kind the number of holders, and has no kind
    that nobody holds. *)
Definition entryCounted (service : ProjectService) (keyWithMode : string) (p : Path)
    (entry : BucketEntry) : Prop :=
  match entry with
  | SingleEntry e =>
      0 < languageServiceRefCount e ∧
      ∀ kind, holders service keyWithMode p kind (allVisitedFiles service)
              = if decide (kind = scriptKind (sourceFile e))
                then languageServiceRefCount e else 0
  | PerScriptKind entries =>
      ∀ kind, match entries !! kind with
              | Some real =>
                  0 < languageServiceRefCount real ∧
                  holders service keyWithMode p kind (allVisitedFiles service)
                  = languageServiceRefCount real
              | None => holders service keyWithMode p kind (allVisitedFiles service) = 0
              end
  end.

Definition registryCounted (service : ProjectService) : Prop :=
  (∀ key bucketEntries p entry,
     getBuckets service !! key = Some bucketEntries → bucketEntries !! p = Some entry →
     entryCounted service key p entry) ∧
  (∀ visited, visited ∈ allVisitedFiles service →
     ∃ bucketEntries,
       getBuckets service
         !! getDocumentRegistryBucketKeyWithMode service visited.1
              (impliedNodeFormat visited.2) = Some bucketEntries ∧
       is_Some (bucketEntries !! resolvedPath visited.2)).

Definition withProjects (service : ProjectService) (projects : list Project)
    : ProjectService :=
  mkService projects (getBuckets service) (getKeyForCompilationSettings service)
    (getDocumentRegistryBucketKeyWithMode service).

(** A service of two projects that share [app.ts]; the first has an auxiliary
    project holding [util.js]. *)
Definition keyOf (options : CompilerOptions) : string := default "k1" (options !! "target").
Definition keyWithModeOf (key : string) (mode : ResolutionMode) : string :=
  match mode with
  | Some ESNext => key +:+ "|esm"
  | Some CommonJS => key +:+ "|cjs"
  | None => key
  end.

Definition programWith (files : list SourceFile) : Program :=
  mkProgram files (fun _ => None) ∅ (fun _ _ _ => None) (fun _ _ _ => None)
    (fun _ => []) (fun _ => []) [] None.

Definition sampleService : ProjectService :=
  mkService
    [ mkProject (Some (mkProject None None (Some (programWith [utilJs])))) None
        (Some (programWith [appTs]));
      mkProject None None (Some (programWith [appTs; utilJsx]));
      mkProject None None None ]
    {[ "k1" := <[ "/user/app.ts" := SingleEntry (mkEntry appTs 2) ]>
              {[ "/user/util.js" :=
                   PerScriptKind (<[ SK_JS := mkEntry utilJs 1 ]>
                                  {[ SK_JSX := mkEntry utilJsx 1 ]}) ]} ]}
    keyOf keyWithModeOf.

End DocumentRegistryTally.

(** ** The cross-reference maps of the resolution cache verifier *)

(** [resolutionToExpected] has the keys of [resolutionToRefs], and a shadow
    resolution recorded for a live one is recorded the other way round. *)
Definition crossReferenced {H : Type} (st : VerifierState H) : Prop :=
  dom (resolutionToExpected st) = dom (resolutionToRefs st) ∧
  ∀ e r, expectedToResolution st !! e = Some r → resolutionToExpected st !! r = Some e.

Definition mutuallyInverse {H : Type} (st : VerifierState H) : Prop :=
  ∀ e r, expectedToResolution st !! e = Some r ↔ resolutionToExpected st !! r = Some e.

(** Watching a resolution discards no object. *)
Definition watchKeepsObjects {H : Type} (impl : ResolutionCacheImpl H) : Prop :=
  ∀ name e file resolvedFileName defer sh sh',
    watchFailedLookupLocationsOfExternalModuleResolutions impl name e file
      resolvedFileName defer sh = Returns sh' →
    dom (heap sh) ⊆ dom (heap sh').

(** The live resolutions behind a set of shadow resolutions. *)
Definition translated {H : Type} (st : VerifierState H) (resolutions : gset ref) : gset ref :=
  list_to_set (omap (fun e => expectedToResolution st !! e) (elements resolutions)).

Definition resolutionSetsAgree {H : Type} (st : VerifierState H)
    (expected actual : gset ref) : Prop :=
  expected ⊆ dom (expectedToResolution st) ∧ actual = translated st expected.

(** Two maps of resolution sets: at a path both have, the sets agree; at a
    path one lacks, the set of the other is empty. *)
Definition resolutionSetMapsAgree {H : Type} (st : VerifierState H)
    (expected actual : gmap Path (gset ref)) : Prop :=
  ∀ p, match expected !! p, actual !! p with
       | Some e, Some a => resolutionSetsAgree st e a
       | Some e, None => e = ∅
       | None, Some a => a = ∅
       | None, None => True
       end.

(** The maps are inverse of each other and every shadow resolution is an
    object. *)
Definition linked {H : Type} (st : VerifierState H) : Prop :=
  crossReferenced st ∧
  (∀ r e, resolutionToExpected st !! r = Some e → expectedToResolution st !! e = Some r) ∧
  dom (expectedToResolution st) ⊆ dom (heap (expected st)).

(** ** The file reader of [verifyProgram] *)

Module VerifyProgram.

(** A [ts.server.ScriptInfo] as the reader sees it; [getSnapshotText] is
    [ts.getSnapshotText(info.getSnapshot())]. *)
Record ScriptInfo : Type := mkScriptInfo {
  isDynamicOrHasMixedContent : bool;
  getSnapshotText : string;
}.

(** What the reader asks of the project, the service, the compiler and the
    host, all declared outside these sources.  [readFile] is the reader of
    the compiler host that the new one replaces; [getFileSize] is optional on
    the host. *)
Record ReaderHost : Type := mkReaderHost {
  toPath : string → Path;
  filenameToScriptInfo : gmap Path ScriptInfo;
  fileIsOpen : Path → bool;
  getScriptSnapshot : Path → option string;
  isAnySupportedFileExtension : Path → bool;
  isRootedDiskPath : string → bool;
  fileExists : string → bool;
  hasTSFileExtension : string → bool;
  readFile : string → option string;
  getFileSize : option (string → nat);
  maxFileSize : nat;
}.

(** [let text: string | undefined | false]. *)
Inductive TextOrFalse : Type :=
| TextUndefined
| TextFalse
| Text (text : string).

(** [compilerHost.readFile = fileName => ...].  A character of a string is
    one unit of its [length].  [info!.getSnapshot()] on no script info
    throws. *)
Definition compilerHostReadFile (host : ReaderHost) (fileName : string)
    : outcome (option string) :=
  let path := toPath host fileName in
  let info := filenameToScriptInfo host !! path in
  if default false (isDynamicOrHasMixedContent <$> info) || fileIsOpen host path then
    match info with
    | Some info => Returns (Some (getSnapshotText info))
    | None => Throws
    end
  else if negb (isAnySupportedFileExtension host path) then
    Returns (getScriptSnapshot host path)
  else if negb (isRootedDiskPath host fileName) || negb (fileExists host fileName) then
    Returns None
  else if hasTSFileExtension host fileName then Returns (readFile host fileName)
  else
    let '(text, fileSize) :=
      match getFileSize host with
      | Some getFileSize => (TextUndefined, getFileSize fileName)
      | None =>
          let text := readFile host fileName in
          (match text with
           | Some text => Text text
           | None => TextFalse
           end,
           default 0 (String.length <$> text))
      end in
    if decide (maxFileSize host < fileSize) then Returns (Some EmptyString)
    else
      match text with
      | TextUndefined => Returns (readFile host fileName)
      | Text text => Returns (if decide (text = EmptyString) then None else Some text)
      | TextFalse => Returns None
      end.

(** The file is served from the disk and its size is looked at: it is not
    open, dynamic or of mixed content, has a supported extension that is not
    a TypeScript one, and is a rooted path that exists. *)
Definition readsSizedFile (host : ReaderHost) (fileName : string) : bool :=
  negb (default false (isDynamicOrHasMixedContent <$>
                         filenameToScriptInfo host !! toPath host fileName)
        || fileIsOpen host (toPath host fileName))
  && isAnySupportedFileExtension host (toPath host fileName)
  && isRootedDiskPath host fileName && fileExists host fileName
  && negb (hasTSFileExtension host fileName).

(** The size of the file as its text has it. *)
Definition sizeOnDisk (host : ReaderHost) (fileName : string) : nat :=
  default 0 (String.length <$> readFile host fileName).

(** The size the host reports, when it reports one, is the size of the text. *)
Definition sizeHonest (host : ReaderHost) (fileName : string) : Prop :=
  ∀ size, getFileSize host = Some size → size fileName = sizeOnDisk host fileName.

Definition withGetFileSize (host : ReaderHost) (size : option (string → nat)) : ReaderHost :=
  mkReaderHost (toPath host) (filenameToScriptInfo host) (fileIsOpen host)
    (getScriptSnapshot host) (isAnySupportedFileExtension host) (isRootedDiskPath host)
    (fileExists host) (hasTSFileExtension host) (readFile host) size (maxFileSize host).

(** A host with an open file, a small script, an empty script, a large
    script and a TypeScript file; the limit is eight characters. *)
Definition hasSuffix (suffix s : string) : bool :=
  bool_decide (String.length suffix ≤ String.length s) &&
  bool_decide (String.substring (String.length s - String.length suffix)
                 (String.length suffix) s = suffix).

Definition sampleDisk (fileName : string) : option string :=
  if decide (fileName = "/src/small.js") then Some "let x;"
  else if decide (fileName = "/src/empty.js") then Some EmptyString
  else if decide (fileName = "/src/large.js") then Some "let longer = 1;"
  else if decide (fileName = "/src/large.ts") then Some "let longer = 1;"
  else if decide (fileName = "/src/open.ts") then Some "on disk"
  else None.

Definition sampleHost : ReaderHost :=
  mkReaderHost id {[ "/src/open.ts" := mkScriptInfo false "in editor" ]}
    (fun path => bool_decide (path = "/src/open.ts"))
    (fun _ => None)
    (fun path => hasSuffix ".ts" path || hasSuffix ".js" path)
    (fun fileName => String.prefix "/" fileName)
    (fun fileName => bool_decide (is_Some (sampleDisk fileName)))
    (hasSuffix ".ts")
    sampleDisk None 8.

End VerifyProgram.

(** ** Line ends in the listing of a program *)

Module LineEnds.
Import ProgramStructure.

(** The text with every line feed turned into a carriage return and a line
    feed. *)
Fixpoint toCRLF (text : string) : string :=
  match text with
  | EmptyString => EmptyString
  | String c rest =>
      if decide (c = LF) then String CR (String LF (toCRLF rest))
      else String c (toCRLF rest)
  end.

Fixpoint hasCR (text : string) : bool :=
  match text with
  | EmptyString => false
  | String c rest => bool_decide (c = CR) || hasCR rest
  end.

Fixpoint lineFeeds (text : string) : nat :=
  match text with
  | EmptyString => 0
  | String c rest => (if decide (c = LF) then 1 else 0) + lineFeeds rest
  end.

End LineEnds.
(** ** Generic facts about the iteration helpers *)

Lemma bind_Returns {A B : Type} (m : outcome A) (f : A → outcome B) (b : B) :
  m ≫= f = Returns b ↔ ∃ a, m = Returns a ∧ f a = Returns b.
Proof.
  destruct m as [a|]; simpl.
  - split; [eauto | by intros (a' & [= ->] & ?)].
  - split; [done | by intros (? & ? & ?)].
Qed.

Lemma seq_Returns (m k : outcome unit) :
  (m ;; k) = Returns () ↔ m = Returns () ∧ k = Returns ().
Proof.
  rewrite bind_Returns. split.
  - by intros ([] & ? & ?).
  - intros [? ?]. by exists ().
Qed.

Lemma Debug_assert_Returns (b : bool) : Debug_assert b = Returns () ↔ b = true.
Proof. by destruct b. Qed.

Lemma Debug_assert_decide (P : Prop) `{!Decision P} :
  Debug_assert (bool_decide P) = Returns () ↔ P.
Proof. rewrite Debug_assert_Returns. apply bool_decide_eq_true. Qed.

Lemma forEach_Returns {A : Type} (body : A → outcome unit) (xs : list A) :
  forEach body xs = Returns () ↔ Forall (fun x => body x = Returns ()) xs.
Proof.
  induction xs as [|x xs IH]; simpl.
  - split; [constructor | done].
  - rewrite seq_Returns, IH, Forall_cons. done.
Qed.

Lemma mapForEach_Returns `{Countable K} {V : Type}
    (body : K → V → outcome unit) (m : gmap K V) :
  mapForEach body m = Returns () ↔ map_Forall (fun k v => body k v = Returns ()) m.
Proof.
  unfold mapForEach. rewrite forEach_Returns, map_Forall_to_list.
  apply Forall_proper; [|done]. by intros [k v].
Qed.

Lemma setForEach_Returns `{Countable K} (body : K → outcome unit) (s : gset K) :
  setForEach body s = Returns () ↔ set_Forall (fun k => body k = Returns ()) s.
Proof. unfold setForEach. by rewrite forEach_Returns, set_Forall_elements. Qed.

Lemma optMapForEach_Returns `{Countable K} {V : Type}
    (body : K → V → outcome unit) (m : option (gmap K V)) :
  optMapForEach body m = Returns () ↔
  ∀ m', m = Some m' → map_Forall (fun k v => body k v = Returns ()) m'.
Proof.
  destruct m as [m|]; simpl.
  - rewrite mapForEach_Returns. split; [by intros ? ? [= <-] | eauto].
  - split; [done | done].
Qed.

Lemma optSetForEach_Returns `{Countable K} (body : K → outcome unit) (s : option (gset K)) :
  optSetForEach body s = Returns () ↔
  ∀ s', s = Some s' → set_Forall (fun k => body k = Returns ()) s'.
Proof.
  destruct s as [s|]; simpl.
  - rewrite setForEach_Returns. split; [by intros ? ? [= <-] | eauto].
  - split; [done | done].
Qed.

Lemma outcome_unit_cases (m : outcome unit) : m = Returns () ∨ m = Throws.
Proof. destruct m as [[]|]; auto. Qed.

(** ** Document registry *)

Module DocumentRegistryFacts.
Import DocumentRegistry.

Lemma verifyBucketEntry_Returns expected entry :
  verifyBucketEntry expected entry = Returns () ↔ entryMatchesTally entry expected.
Proof.
  destruct entry as [e|entries]; simpl.
  - rewrite Debug_assert_Returns, !andb_true_iff, !bool_decide_eq_true.
    destruct expected as [tally|]; simpl.
    + split.
      * intros [[Hsz _] Hget]. exists tally. split; [done|]. split; [congruence | done].
      * intros (t & [= <-] & Hsz & Hget). rewrite Hget, Hsz. eauto.
    + split; [by intros [[? ?] ?] | by intros (? & ? & ?)].
  - rewrite seq_Returns, mapForEach_Returns, optMapForEach_Returns.
    split.
    + intros [Hreal Htally]. split.
      * intros kind real Hk. specialize (Hreal kind real Hk). simpl in Hreal.
        apply Debug_assert_decide in Hreal.
        destruct expected as [tally|]; [|done]. eauto.
      * intros tally kind count -> Hk.
        specialize (Htally tally eq_refl kind count Hk). simpl in Htally.
        by apply Debug_assert_decide in Htally.
    + intros [Hreal Htally]. split.
      * intros kind real Hk. simpl. apply Debug_assert_decide.
        destruct (Hreal kind real Hk) as (tally & -> & Hget). by rewrite <- Hget.
      * intros tally -> kind count Hk. simpl. apply Debug_assert_decide. eauto.
Qed.

(** Claim C7.  [verifyDocumentRegistryStats] returns exactly when the registry
    and the tally agree: a single shared entry needs a tally with exactly one
    script kind, the entry's own, counted [languageServiceRefCount] times; a
    per-script-kind map needs every kind it holds to carry the tallied count
    and every tallied kind to be held; every tallied path is in its bucket and
    every tallied bucket key is in the registry.  Otherwise the call throws. *)
Theorem verifyDocumentRegistryStats_sound_complete
    (buckets : Buckets) (stats : DocumentRegistryExpectedStats) :
  (verifyDocumentRegistryStats buckets stats = Returns () ↔
     registryMatchesStats buckets stats) ∧
  (¬ registryMatchesStats buckets stats →
     verifyDocumentRegistryStats buckets stats = Throws).
Proof.
  assert (Hiff : verifyDocumentRegistryStats buckets stats = Returns () ↔
                 registryMatchesStats buckets stats).
  { unfold verifyDocumentRegistryStats, registryMatchesStats.
    rewrite seq_Returns, !mapForEach_Returns. split.
    - intros [Hb Hs]. split; [|split].
      + intros key bucketEntries path entry Hkey Hpath.
        specialize (Hb key bucketEntries Hkey). simpl in Hb.
        apply seq_Returns in Hb as [Hb _].
        rewrite mapForEach_Returns in Hb.
        apply verifyBucketEntry_Returns, (Hb path entry Hpath).
      + intros key statsByPath path tally Hkey Hpath.
        specialize (Hs key statsByPath Hkey). simpl in Hs.
        apply Debug_assert_decide in Hs as [bucketEntries Hbk].
        exists bucketEntries. split; [done|].
        specialize (Hb key bucketEntries Hbk). simpl in Hb.
        apply seq_Returns in Hb as [_ Hb].
        rewrite optMapForEach_Returns in Hb.
        specialize (Hb statsByPath Hkey path tally Hpath). simpl in Hb.
        by apply Debug_assert_decide in Hb.
      + intros key [statsByPath Hkey].
        specialize (Hs key statsByPath Hkey). simpl in Hs.
        by apply Debug_assert_decide in Hs.
    - intros (Hentry & Hpath & Hkey). split.
      + intros key bucketEntries Hbk. simpl.
        rewrite seq_Returns, mapForEach_Returns, optMapForEach_Returns. split.
        * intros path entry He. apply verifyBucketEntry_Returns. eauto.
        * intros statsByPath Hst path tally Ht. simpl. apply Debug_assert_decide.
          destruct (Hpath key statsByPath path tally Hst Ht) as (be & Hbe & Hin).
          rewrite Hbk in Hbe. by injection Hbe as <-.
      + intros key statsByPath Hst. simpl. apply Debug_assert_decide. eauto. }
  split; [done|].
  intros Hno. destruct (outcome_unit_cases (verifyDocumentRegistryStats buckets stats))
    as [Hr|Hr]; [|done].
  by apply Hiff in Hr.
Qed.

(** The verifier at work: the sample registry passes against its tally and is
    rejected against a tally with an extra script kind. *)
Example verifyDocumentRegistryStats_sample :
  verifyDocumentRegistryStats sampleBuckets sampleStats = Returns () ∧
  verifyDocumentRegistryStats sampleBuckets staleStats = Throws.
Proof. split; vm_compute; reflexivity. Qed.

(** The sample registry agrees with its tally. *)
Lemma verifyDocumentRegistryStats_sample_agrees :
  registryMatchesStats sampleBuckets sampleStats.
Proof.
  apply (proj1 (verifyDocumentRegistryStats_sound_complete sampleBuckets sampleStats)).
  vm_compute. reflexivity.
Defined.

End DocumentRegistryFacts.

(** ** Program structure *)

Module ProgramStructureFacts.
Import ProgramStructure.

Section Sorting.
Context {A : Type} (compare : A → A → comparison).

Lemma sortInsert_perm (x : A) (xs : list A) : sortInsert compare x xs ≡ₚ x :: xs.
Proof.
  induction xs as [|y xs IH]; simpl; [done|].
  destruct (compare x y); try done.
  rewrite IH. apply Permutation_swap.
Qed.

Lemma sort_perm (xs : list A) : sort compare xs ≡ₚ xs.
Proof.
  induction xs as [|x xs IH]; simpl; [done|].
  by rewrite sortInsert_perm, IH.
Qed.

Hypothesis antisym : ∀ a b, compare b a = CompOpp (compare a b).

Lemma sortInsert_HdRel (x z : A) (xs : list A) :
  compare z x ≠ Gt → HdRel (fun a b => compare a b ≠ Gt) z xs →
  HdRel (fun a b => compare a b ≠ Gt) z (sortInsert compare x xs).
Proof.
  intros Hzx Hhd. destruct xs as [|y xs]; simpl; [by constructor|].
  destruct (compare x y); constructor; try done.
  by inversion Hhd.
Qed.

Lemma sortInsert_Sorted (x : A) (xs : list A) :
  Sorted (fun a b => compare a b ≠ Gt) xs →
  Sorted (fun a b => compare a b ≠ Gt) (sortInsert compare x xs).
Proof.
  induction 1 as [|y xs Hs IH Hhd]; simpl.
  - by repeat constructor.
  - destruct (compare x y) eqn:Hxy.
    + constructor; [by constructor|]. constructor. by rewrite Hxy.
    + constructor; [by constructor|]. constructor. by rewrite Hxy.
    + constructor; [done|]. apply sortInsert_HdRel; [|done].
      rewrite (antisym x y), Hxy. done.
Qed.

Lemma sort_Sorted (xs : list A) : Sorted (fun a b => compare a b ≠ Gt) (sort compare xs).
Proof.
  induction xs as [|x xs IH]; simpl; [constructor|].
  by apply sortInsert_Sorted.
Qed.

End Sorting.

Lemma NoDup_fmap_inj_on {A B : Type} (f : A → B) (l : list A) (x y : A) :
  NoDup (f <$> l) → x ∈ l → y ∈ l → f x = f y → x = y.
Proof.
  induction l as [|a l IH]; simpl; [by intros _ ?%elem_of_nil|].
  rewrite NoDup_cons, !elem_of_cons. intros [Hnotin Hnd] [->|Hx] [->|Hy] Heq; auto.
  - exfalso. apply Hnotin. rewrite Heq. by apply list_elem_of_fmap_2.
  - exfalso. apply Hnotin. rewrite <- Heq. by apply list_elem_of_fmap_2.
Qed.

Section Listing.
Variable comparePathsCaseSensitive : Path → Path → comparison.
Variable getNameOfCompilerOptionValue : ModuleKind → string.
Variable store : Store.

Abbreviation getProgramStructure :=
  (getProgramStructure comparePathsCaseSensitive getNameOfCompilerOptionValue store).
Abbreviation verifyProgramStructure :=
  (verifyProgramStructure comparePathsCaseSensitive getNameOfCompilerOptionValue store).
Abbreviation programLines :=
  (programLines comparePathsCaseSensitive getNameOfCompilerOptionValue store).
Abbreviation fileBlock := (fileBlock getNameOfCompilerOptionValue store).
Abbreviation cacheBlock := (cacheBlock getNameOfCompilerOptionValue store).
Abbreviation filesInOrder := (filesInOrder comparePathsCaseSensitive).

Lemma getResolutionCacheDetails_block baseline cacheType invocations getName indent :
  getResolutionCacheDetails getNameOfCompilerOptionValue store baseline cacheType
    (Some invocations) getName indent
  = baseline ++ cacheBlock cacheType invocations getName indent.
Proof.
  unfold getResolutionCacheDetails.
  assert (Hgen : ∀ (added : bool) b,
    (fold_left (fun '(addedCacheType, baseline) '(resolved, key, mode) =>
         let baseline :=
           if addedCacheType : bool then baseline
           else baseline ++ [indent +:+ cacheType +:+ ":"] in
         (true, baseline ++ [resolutionLine getNameOfCompilerOptionValue store
                               getName indent resolved key mode]))
       invocations (added, b)).2
    = b ++ (if added
            then map (fun '(resolved, key, mode) =>
                   resolutionLine getNameOfCompilerOptionValue store
                     getName indent resolved key mode) invocations
            else cacheBlock cacheType invocations getName indent)).
  { induction invocations as [|[[r k] m] rest IH]; intros added b; simpl.
    - destruct added; by rewrite app_nil_r.
    - rewrite IH. destruct added; simpl; by rewrite <- !app_assoc. }
  apply Hgen.
Qed.

Lemma getLibResolutionCacheDetails_block baseline cache indent :
  getLibResolutionCacheDetails store baseline (Some cache) indent
  = baseline ++ libBlock store cache indent.
Proof.
  unfold getLibResolutionCacheDetails.
  assert (Hgen : ∀ (added : bool) b,
    (fold_left (fun '(addedCacheType, baseline) '(libFileName, resolved) =>
         let baseline :=
           if addedCacheType : bool then baseline
           else baseline ++ [indent +:+ "Libs:"] in
         (true, baseline ++ [libLine store indent libFileName resolved]))
       cache (added, b)).2
    = b ++ (if added
            then map (fun '(libFileName, resolved) =>
                        libLine store indent libFileName resolved) cache
            else libBlock store cache indent)).
  { induction cache as [|[k r] rest IH]; intros added b; simpl.
    - destruct added; by rewrite app_nil_r.
    - rewrite IH. destruct added; simpl; by rewrite <- !app_assoc. }
  apply Hgen.
Qed.

Lemma getProgramStructure_lines (program : Program) :
  getProgramStructure (Some program) = String.concat (String LF EmptyString) (programLines program).
Proof.
  unfold ProgramStructure.getProgramStructure, ProgramStructure.programLines.
  cbn [fmap option_fmap option_map mbind option_bind app].
  f_equal.
  assert (Hfiles : ∀ fs b,
    fold_left (fun baseline f =>
      getResolutionCacheDetails getNameOfCompilerOptionValue store
        (getResolutionCacheDetails getNameOfCompilerOptionValue store
           ((baseline ++ [fileHeader f]) ++ [indentText (text f)]) "Modules"
           (Some (invocationsOf (forEachResolvedModule program (Some f))))
           getResolvedModuleFileName "    ")
        "TypeRefs"
        (Some (invocationsOf (forEachResolvedTypeReferenceDirective program (Some f))))
        getResolvedTypeRefFileName "    ") fs b
    = b ++ flat_map (fileBlock program) fs).
  { induction fs as [|f fs IH]; intros b; cbn [fold_left flat_map]; [by rewrite app_nil_r|].
    rewrite IH, !getResolutionCacheDetails_block.
    unfold ProgramStructure.fileBlock. simpl. by rewrite <- !app_assoc. }
  rewrite Hfiles, getResolutionCacheDetails_block. cbn [app].
  destruct (resolvedLibReferences program) as [libs|]; cbn [default].
  - by rewrite getLibResolutionCacheDetails_block, <- app_assoc.
  - cbn. by rewrite !app_nil_r.
Qed.

Lemma filesInOrder_permutation_invariant (p1 p2 : Program) :
  TotalComparison comparePathsCaseSensitive →
  NoDup (path <$> getSourceFiles p1) →
  getSourceFiles p1 ≡ₚ getSourceFiles p2 →
  filesInOrder p1 = filesInOrder p2.
Proof.
  intros [Hanti Heq Htrans] Hnd Hperm. unfold ProgramStructure.filesInOrder.
  set (cmp := fun f1 f2 => comparePathsCaseSensitive (path f1) (path f2)).
  assert (Transitive (fun a b => cmp a b ≠ Gt)).
  { intros x y z. unfold cmp. apply Htrans. }
  apply (Sorted_unique_strong (fun a b => cmp a b ≠ Gt)).
  - intros x1 x2 Hx1 Hx2 H12 H21.
    rewrite sort_perm in Hx1. rewrite sort_perm, <- Hperm in Hx2.
    apply (NoDup_fmap_inj_on path (getSourceFiles p1)); try done.
    apply Heq. unfold cmp in *.
    rewrite (Hanti (path x1) (path x2)) in H21.
    destruct (comparePathsCaseSensitive (path x1) (path x2)); done.
  - apply sort_Sorted. intros a b. apply Hanti.
  - apply sort_Sorted. intros a b. apply Hanti.
  - by rewrite !sort_perm.
Qed.

Lemma sameStructure_lines (p1 p2 : Program) :
  TotalComparison comparePathsCaseSensitive →
  NoDup (path <$> getSourceFiles p1) →
  sameStructure p1 p2 → programLines p1 = programLines p2.
Proof.
  intros Hcmp Hnd (Hfiles & Hres & Hauto & Hlibs).
  unfold ProgramStructure.programLines.
  rewrite <- (filesInOrder_permutation_invariant p1 p2), Hauto, Hlibs by done.
  f_equal.
  assert (Hin : ∀ f, f ∈ filesInOrder p1 → f ∈ getSourceFiles p1).
  { intros f. unfold ProgramStructure.filesInOrder. by rewrite sort_perm. }
  induction (filesInOrder p1) as [|f fs IH]; simpl; [done|].
  rewrite IH by (intros; apply Hin; by right).
  f_equal. unfold ProgramStructure.fileBlock.
  destruct (Hres f) as [-> ->]; [apply Hin; by left | done].
Qed.

Lemma verifyProgramStructure_Returns (expectedProgram actualProgram : Program) name :
  verifyProgramStructure expectedProgram actualProgram name = Returns () ↔
  getProgramStructure (Some actualProgram) = getProgramStructure (Some expectedProgram).
Proof. unfold ProgramStructure.verifyProgramStructure. apply Debug_assert_decide. Qed.

End Listing.

(** The pieces of the structure on small inputs. *)
Example splitLines_mixed :
  splitLines ("a" +:+ String CR (String LF ("b" +:+ String LF (String CR "c"))))
  = ["a"; "b"; String CR "c"].
Proof. reflexivity. Qed.

Example splitLines_trailing : splitLines (String LF EmptyString) = [EmptyString; EmptyString].
Proof. reflexivity. Qed.

Example indentText_blank_line :
  indentText ("a" +:+ String LF (String LF "b"))
  = "    a" +:+ String LF (String LF "    b").
Proof. reflexivity. Qed.

Example sort_stable :
  sort (fun x y : nat * string => Nat.compare x.1 y.1) [(2, "a"); (1, "b"); (2, "c"); (1, "d")]
  = [(1, "b"); (1, "d"); (2, "a"); (2, "c")].
Proof. reflexivity. Qed.

Example programLines_sample :
  programLines ordinalCompare moduleKindName sampleStore sampleProgram
  = [ "  File: /lib/lib.d.ts Path: /lib/lib.d.ts ResolvedPath: /lib/lib.d.ts impliedNodeFormat: undefined";
      EmptyString;
      "  File: /src/main.ts Path: /src/main.ts ResolvedPath: /src/main.ts impliedNodeFormat: 99";
      "    import 'bar';" +:+ String LF "    let x;";
      "    Modules:";
      "      bar: esnext:/node_modules/bar/index.js" ].
Proof. vm_compute. reflexivity. Qed.

Lemma ordinalCompare_total : TotalComparison ordinalCompare.
Proof.
  unfold ordinalCompare. split.
  - intros a b. apply String_as_OT.cmp_antisym.
  - intros a b. apply String_as_OT.cmp_eq.
  - intros a b c Hab Hbc.
    destruct (String_as_OT.cmp a b) eqn:Eab; [| |done].
    + apply String_as_OT.cmp_eq in Eab as ->. done.
    + destruct (String_as_OT.cmp b c) eqn:Ebc; [| |done].
      * apply String_as_OT.cmp_eq in Ebc as <-. by rewrite Eab.
      * apply String_as_OT.cmp_lt in Eab, Ebc.
        pose proof (String_as_OT.lt_trans _ _ _ Eab Ebc) as Hac.
        apply String_as_OT.cmp_lt in Hac. by rewrite Hac.
Qed.

Lemma sampleProgram_paths : NoDup (path <$> getSourceFiles sampleProgram).
Proof.
  apply (bool_decide_unpack (NoDup (path <$> getSourceFiles sampleProgram))).
  vm_compute. exact I.
Qed.




End ProgramStructureFacts.

(** ** The comparisons of the resolution cache verifier *)

Lemma verifySet_Returns (expected actual : option (gset string)) (caption : string) :
  verifySet expected actual caption = Returns () ↔
  default ∅ expected ⊆ default ∅ actual ∧ default ∅ actual ⊆ default ∅ expected.
Proof.
  unfold verifySet. rewrite seq_Returns, !optSetForEach_Returns.
  assert (Hhalf : ∀ X Y : option (gset string),
    (∀ s', X = Some s' → set_Forall (fun x =>
       Debug_assert (default false ((fun y => bool_decide (x ∈ y)) <$> Y)) = Returns ()) s')
    ↔ default ∅ X ⊆ default ∅ Y).
  { intros X Y. split.
    - intros Hall x Hx. destruct X as [s|]; simpl in *; [|set_solver].
      specialize (Hall s eq_refl x Hx). simpl in Hall.
      apply Debug_assert_Returns in Hall.
      destruct Y as [t|]; simpl in *; [by apply bool_decide_eq_true in Hall | done].
    - intros Hsub s -> x Hx. simpl in *. apply Debug_assert_Returns.
      specialize (Hsub x Hx).
      destruct Y as [t|]; simpl in *; [by apply bool_decide_eq_true | set_solver]. }
  by rewrite !Hhalf.
Qed.

Lemma verifyMap_Returns {Expected Actual : Type}
    (expected : gmap string Expected) (actual : gmap string Actual)
    (verifyValue : option Expected → option Actual → string → outcome unit)
    (caption : string) :
  verifyMap (Some expected) (Some actual) verifyValue caption = Returns () ↔
  (∀ path e, expected !! path = Some e →
     verifyValue (Some e) (actual !! path) (caption +:+ ":: " +:+ path) = Returns ()) ∧
  (∀ path a, actual !! path = Some a →
     verifyValue (expected !! path) (Some a) (caption +:+ ":: " +:+ path) = Returns ()).
Proof.
  unfold verifyMap. rewrite seq_Returns. simpl. by rewrite !mapForEach_Returns.
Qed.

Lemma verifyDirectoryWatchesOfFailedLookups_Returns
    (expected actual : gmap string DirectoryWatchesOfFailedLookup.t) :
  verifyDirectoryWatchesOfFailedLookups expected actual = Returns () ↔
  directoryWatchesAgree expected actual.
Proof.
  unfold verifyDirectoryWatchesOfFailedLookups, directoryWatchesAgree.
  rewrite verifyMap_Returns.
  assert (Hvalue : ∀ e a : option DirectoryWatchesOfFailedLookup.t,
    (Debug_assert (bool_decide (DirectoryWatchesOfFailedLookup.refCount <$> e
                                = DirectoryWatchesOfFailedLookup.refCount <$> a)) ;;
     Debug_assert (truthyCount (DirectoryWatchesOfFailedLookup.refCount <$> e)) ;;
     Debug_assert (bool_decide (e ≫= DirectoryWatchesOfFailedLookup.nonRecursive
                                = a ≫= DirectoryWatchesOfFailedLookup.nonRecursive)))
    = Returns () ↔
    match e, a with
    | Some e, Some a =>
        DirectoryWatchesOfFailedLookup.refCount e = DirectoryWatchesOfFailedLookup.refCount a ∧
        DirectoryWatchesOfFailedLookup.refCount e ≠ 0 ∧
        DirectoryWatchesOfFailedLookup.nonRecursive e
          = DirectoryWatchesOfFailedLookup.nonRecursive a
    | None, None => False
    | _, _ => False
    end).
  { intros e a. rewrite !seq_Returns, !Debug_assert_decide, Debug_assert_Returns.
    destruct e as [[ce re]|], a as [[ca ra]|]; simpl.
    - destruct ce; simpl; split; try naive_solver.
    - naive_solver.
    - naive_solver.
    - naive_solver. }
  split.
  - intros [He Ha] path.
    destruct (expected !! path) as [e|] eqn:Hep, (actual !! path) as [a|] eqn:Hap.
    + specialize (He path e Hep). rewrite Hap in He. by apply Hvalue in He.
    + specialize (He path e Hep). rewrite Hap in He. by apply Hvalue in He.
    + specialize (Ha path a Hap). rewrite Hep in Ha. by apply Hvalue in Ha.
    + done.
  - intros Hall. split.
    + intros path e Hep. specialize (Hall path). rewrite Hep in Hall.
      apply Hvalue. by destruct (actual !! path).
    + intros path a Hap. specialize (Hall path). rewrite Hap in Hall.
      apply Hvalue. by destruct (expected !! path).
Qed.

Lemma verifyFileWatcherOfAffectingLocation_Returns projectName
    (expected actual : option FileWatcherOfAffectingLocation.t) (caption : string) :
  verifyFileWatcherOfAffectingLocation projectName expected actual caption = Returns () ↔
  FileWatcherOfAffectingLocation.resolutions <$> expected
    = FileWatcherOfAffectingLocation.resolutions <$> actual ∧
  FileWatcherOfAffectingLocation.files <$> expected
    = FileWatcherOfAffectingLocation.files <$> actual ∧
  default ∅ (expected ≫= FileWatcherOfAffectingLocation.symlinks)
    ⊆ default ∅ (actual ≫= FileWatcherOfAffectingLocation.symlinks) ∧
  default ∅ (actual ≫= FileWatcherOfAffectingLocation.symlinks)
    ⊆ default ∅ (expected ≫= FileWatcherOfAffectingLocation.symlinks).
Proof.
  unfold verifyFileWatcherOfAffectingLocation.
  by rewrite !seq_Returns, !Debug_assert_decide, verifySet_Returns.
Qed.

Lemma verifyFileWatchesOfAffectingLocations_Returns projectName
    (expected actual : gmap string FileWatcherOfAffectingLocation.t) :
  verifyFileWatchesOfAffectingLocations projectName expected actual = Returns () ↔
  fileWatchesAgree expected actual.
Proof.
  unfold verifyFileWatchesOfAffectingLocations, fileWatchesAgree.
  rewrite verifyMap_Returns. split.
  - intros [He Ha] path.
    destruct (expected !! path) as [e|] eqn:Hep, (actual !! path) as [a|] eqn:Hap.
    + specialize (He path e Hep). rewrite Hap in He.
      apply verifyFileWatcherOfAffectingLocation_Returns in He. simpl in He.
      destruct He as ([= Hr] & [= Hf] & Hs1 & Hs2). by unfold symlinksOf.
    + specialize (He path e Hep). rewrite Hap in He.
      apply verifyFileWatcherOfAffectingLocation_Returns in He. simpl in He.
      by destruct He as ([=] & _).
    + specialize (Ha path a Hap). rewrite Hep in Ha.
      apply verifyFileWatcherOfAffectingLocation_Returns in Ha. simpl in Ha.
      by destruct Ha as ([=] & _).
    + done.
  - intros Hall. split.
    + intros path e Hep. specialize (Hall path). rewrite Hep in Hall.
      apply verifyFileWatcherOfAffectingLocation_Returns.
      destruct (actual !! path) as [a|]; [|done]. simpl.
      destruct Hall as (Hr & Hf & Hs1 & Hs2). by rewrite Hr, Hf.
    + intros path a Hap. specialize (Hall path). rewrite Hap in Hall.
      apply verifyFileWatcherOfAffectingLocation_Returns.
      destruct (expected !! path) as [e|]; [|done]. simpl.
      destruct Hall as (Hr & Hf & Hs1 & Hs2). by rewrite Hr, Hf.
Qed.

Lemma deref_Returns (s : Store) (r : ref) (o : Resolution) :
  deref s r = Returns o ↔ s !! r = Some o.
Proof. unfold deref. destruct (s !! r); naive_solver. Qed.

Lemma truthyFlag_false (b : option bool) : negb (truthyFlag b) = true ↔ b ≠ Some true.
Proof. destruct b as [[]|]; simpl; naive_solver. Qed.

Lemma truthyCount_false (n : option nat) : negb (truthyCount n) = true ↔ default 0 n = 0.
Proof. destruct n as [[]|]; simpl; naive_solver. Qed.

Lemma truthySize_false (s : option (gset Path)) :
  negb (truthySize s) = true ↔ default ∅ s = ∅.
Proof.
  destruct s as [s|]; simpl; [|done].
  rewrite negb_involutive, bool_decide_eq_true, size_empty_iff. by unfold_leibniz.
Qed.

Lemma verifyRefCount_Returns {H : Type} (st : VerifierState H) R info :
  verifyRefCount st R info = Returns () ↔ refCountVerified st R info.
Proof.
  unfold verifyRefCount, refCountVerified. rewrite bind_Returns. split.
  - intros (object & Hobj%deref_Returns & Hrest).
    apply seq_Returns in Hrest as [Hcount%Debug_assert_decide Hrest].
    apply seq_Returns in Hrest as [Hinv%Debug_assert_Returns%truthyFlag_false Hrest].
    destruct (resolutionToExpected st !! R) as [e|]; [|done].
    apply bind_Returns in Hrest as (eo & Heo%deref_Returns & Hrest).
    apply seq_Returns in Hrest as [Hsame%Debug_assert_decide Hfiles%verifySet_Returns].
    exists object, e, eo. unfold filesOf. naive_solver.
  - intros (object & e & eo & Hobj & Hcount & Hinv & -> & Heo & Hsame & Hf1 & Hf2).
    exists object. split; [by apply deref_Returns|].
    rewrite !seq_Returns, Debug_assert_decide, Debug_assert_Returns, truthyFlag_false.
    split; [done|]. split; [done|].
    apply bind_Returns. exists eo. split; [by apply deref_Returns|].
    by rewrite seq_Returns, Debug_assert_decide, verifySet_Returns.
Qed.

Lemma verifyReleased_Returns {H : Type} (st : VerifierState H) :
  verifyReleased st = Returns () ↔ shadowReleased st.
Proof.
  unfold verifyReleased, shadowReleased.
  rewrite !seq_Returns, !Debug_assert_decide, mapForEach_Returns.
  assert (Hobj : map_Forall (fun _ e =>
      (expectedObject ← deref (heap (expected st)) e;
       Debug_assert (negb (truthyCount (refCount expectedObject))) ;;
       Debug_assert (negb (truthySize (files expectedObject)))) = Returns ())
      (resolutionToExpected st)
    ↔ ∀ R e, resolutionToExpected st !! R = Some e →
        ∃ eo, heap (expected st) !! e = Some eo ∧
          default 0 (refCount eo) = 0 ∧ filesOf eo = ∅).
  { unfold map_Forall. apply forall_proper; intros R. apply forall_proper; intros e.
    apply forall_proper; intros _.
    rewrite bind_Returns. unfold filesOf. split.
    - intros (eo & Heo%deref_Returns & Hrest).
      apply seq_Returns in Hrest
        as [Hc%Debug_assert_Returns%truthyCount_false Hs%Debug_assert_Returns%truthySize_false].
      eauto.
    - intros (eo & Heo & Hc & Hs). exists eo. split; [by apply deref_Returns|].
      by rewrite seq_Returns, !Debug_assert_Returns, truthyCount_false, truthySize_false. }
  rewrite Hobj. naive_solver.
Qed.

(** ** Loops over insertion-ordered maps *)

Lemma jsGet_Some_elem `{EqDecision K} {V : Type} (k : K) (v : V) (m : JsMap K V) :
  jsGet k m = Some v → (k, v) ∈ m.
Proof.
  induction m as [|[k' v'] m IH]; simpl; [done|].
  destruct (decide (k' = k)) as [->|].
  - intros [= ->]. by left.
  - intros ?. right. auto.
Qed.

Lemma jsHas_false `{EqDecision K} {V : Type} (k : K) (m : JsMap K V) :
  jsHas k m = false ↔ jsGet k m = None.
Proof.
  unfold jsHas. rewrite bool_decide_eq_false, <- eq_None_not_Some. done.
Qed.

Lemma forEachS_Returns_inv {A S : Type} (body : A → S → outcome S) (P : S → Prop)
    (xs : list A) (s s' : S) :
  (∀ x s1 s2, x ∈ xs → P s1 → body x s1 = Returns s2 → P s2) →
  P s → forEachS body xs s = Returns s' → P s'.
Proof.
  revert s. induction xs as [|x xs IH]; simpl; intros s Hstep Hs Hrun.
  - by injection Hrun as <-.
  - apply bind_Returns in Hrun as (s1 & Hx & Hrest).
    apply (IH s1); [|by eapply Hstep; [left| |]|done].
    intros y t1 t2 Hy. apply Hstep. by right.
Qed.

Lemma forEachS_Returns_each {A S : Type} (body : A → S → outcome S)
    (xs : list A) (s s' : S) :
  forEachS body xs s = Returns s' →
  ∀ x, x ∈ xs → ∃ s1 s2, body x s1 = Returns s2.
Proof.
  revert s. induction xs as [|y xs IH]; simpl; intros s Hrun x Hx.
  - by apply elem_of_nil in Hx.
  - apply bind_Returns in Hrun as (s1 & Hy & Hrest).
    apply elem_of_cons in Hx as [->|Hx]; [eauto|]. by eapply IH.
Qed.

(** ** The phases of [verifyResolutionCache] *)

Section VerifierFacts.

Context {H : Type} (impl : ResolutionCacheImpl H).
Variable emptyResolution : ref.
Variable getAutomaticTypeDirectiveContainingFile : CompilerOptions → string → string.
Variable getInferredLibraryNameResolveFrom : CompilerOptions → string → string → string.
Variable getLibraryNameFromLibFileName : string → string.
Variable actual : ResolutionCache.
Variable actualProgram : Program.
Variable resolutionHostCacheHost : ResolutionCacheHost.
Variable projectName : string.
Variable userResolvedModuleNames : bool.

Abbreviation verifyResolutionCache' :=
  (verifyResolutionCache impl emptyResolution getAutomaticTypeDirectiveContainingFile
     getInferredLibraryNameResolveFrom getLibraryNameFromLibFileName
     actual actualProgram resolutionHostCacheHost projectName userResolvedModuleNames).
Abbreviation collect' :=
  (collect impl emptyResolution getAutomaticTypeDirectiveContainingFile
     getInferredLibraryNameResolveFrom getLibraryNameFromLibFileName
     actual actualProgram resolutionHostCacheHost userResolvedModuleNames).
Abbreviation initialState' := (initialState impl actual resolutionHostCacheHost).
Abbreviation teardown' := (teardown impl actual actualProgram).
Abbreviation inferredTypesPath' :=
  (inferredTypesPath getAutomaticTypeDirectiveContainingFile actualProgram
     resolutionHostCacheHost).
Abbreviation collectResolutionToRefFromCache' :=
  (collectResolutionToRefFromCache impl getAutomaticTypeDirectiveContainingFile
     actualProgram resolutionHostCacheHost).
Abbreviation programTypeRefResolution' :=
  (programTypeRefResolution getAutomaticTypeDirectiveContainingFile actualProgram
     resolutionHostCacheHost).
Abbreviation libraryPath' :=
  (libraryPath getInferredLibraryNameResolveFrom actualProgram resolutionHostCacheHost).

Abbreviation collectedState' :=
  (collectedState impl emptyResolution getAutomaticTypeDirectiveContainingFile
     getInferredLibraryNameResolveFrom getLibraryNameFromLibFileName
     actual actualProgram resolutionHostCacheHost userResolvedModuleNames).

Lemma verifyResolutionCache_phases (objects : Store) (released : VerifierState H) :
  verifyResolutionCache' objects = Returns released ↔
  ∃ collected, collectedState' objects = Returns collected ∧
    verifyCollected actual projectName collected = Returns () ∧
    teardown' collected = Returns released ∧
    verifyReleased released = Returns ().
Proof.
  unfold verifyResolutionCache, collectedState. split.
  - intros Hrun.
    apply bind_Returns in Hrun as (st & Hinit & Hrun).
    apply bind_Returns in Hrun as (collected & Hcollect & Hrun).
    apply bind_Returns in Hrun as ([] & Hverify & Hrun).
    apply bind_Returns in Hrun as (fin & Hteardown & Hrun).
    apply bind_Returns in Hrun as ([] & Hreleased & [= <-]).
    exists collected. rewrite Hinit. eauto.
  - intros (collected & Hstate & Hverify & Hteardown & Hreleased).
    apply bind_Returns in Hstate as (st & Hinit & Hcollect).
    rewrite Hinit. simpl. rewrite Hcollect. simpl. rewrite Hverify. simpl.
    rewrite Hteardown. simpl. by rewrite Hreleased.
Qed.

Lemma verifyCollected_Returns (st : VerifierState H) :
  verifyCollected actual projectName st = Returns () →
  (∀ R info, resolutionToRefs st !! R = Some info → refCountVerified st R info) ∧
  directoryWatchesAgree (directoryWatchesOfFailedLookups (cacheOf (expected st)))
    (directoryWatchesOfFailedLookups actual) ∧
  fileWatchesAgree (fileWatchesOfAffectingLocations (cacheOf (expected st)))
    (fileWatchesOfAffectingLocations actual).
Proof.
  unfold verifyCollected. rewrite !seq_Returns, mapForEach_Returns.
  intros (Hrefs & _ & _ & _ & Hdirs & Hfiles). split; [|split].
  - intros R info HR. apply verifyRefCount_Returns. by apply Hrefs.
  - by apply verifyDirectoryWatchesOfFailedLookups_Returns.
  - by eapply verifyFileWatchesOfAffectingLocations_Returns.
Qed.

Abbreviation collectModules' :=
  (collectModules impl getAutomaticTypeDirectiveContainingFile actualProgram
     resolutionHostCacheHost).
Abbreviation collectTypeRefs' :=
  (collectTypeRefs impl getAutomaticTypeDirectiveContainingFile actualProgram
     resolutionHostCacheHost).
Abbreviation collectLibrary' :=
  (collectLibrary impl getInferredLibraryNameResolveFrom getLibraryNameFromLibFileName
     actualProgram resolutionHostCacheHost).
Abbreviation verifyModuleIsInCache' := (verifyModuleIsInCache emptyResolution actual).
Abbreviation verifyTypeRefIsInCache' := (verifyTypeRefIsInCache emptyResolution actual).
Abbreviation verifyAutoTypeRefIsInCache' :=
  (verifyAutoTypeRefIsInCache emptyResolution getAutomaticTypeDirectiveContainingFile
     actual actualProgram resolutionHostCacheHost).

(** What [collect] went through when it returns. *)
Lemma collect_Returns (st collected : VerifierState H) :
  collect' st = Returns collected →
  ∃ st1 st2 st3 finished,
    forEachS collectModules' (resolvedModuleNames actual) st = Returns st1 ∧
    forEachS collectTypeRefs' (resolvedTypeReferenceDirectives actual) st1 = Returns st2 ∧
    forEachS collectLibrary' (resolvedLibraries actual) st2 = Returns st3 ∧
    (userResolvedModuleNames = false →
     Forall (fun e => verifyModuleIsInCache' e = Returns ())
       (forEachResolvedModule actualProgram None)) ∧
    Forall (fun e => verifyTypeRefIsInCache' e = Returns ())
      (forEachResolvedTypeReferenceDirective actualProgram None) ∧
    Forall (fun e => verifyAutoTypeRefIsInCache' e = Returns ())
      (getAutomaticTypeDirectiveResolutions actualProgram) ∧
    finishCachingPerDirectoryResolution impl (Some actualProgram) None (expected st3)
      = Returns finished ∧
    collected = set_expected finished st3.
Proof.
  unfold collect. intros Hrun.
  apply bind_Returns in Hrun as (st1 & H1 & Hrun).
  apply bind_Returns in Hrun as (st2 & H2 & Hrun).
  apply bind_Returns in Hrun as (st3 & H3 & Hrun).
  apply bind_Returns in Hrun as ([] & Hm & Hrun).
  apply bind_Returns in Hrun as ([] & Ht & Hrun).
  apply bind_Returns in Hrun as ([] & Ha & Hrun).
  apply bind_Returns in Hrun as (finished & Hf & [= <-]).
  exists st1, st2, st3, finished. repeat split; try done.
  - intros ->. by apply forEach_Returns.
  - by apply forEach_Returns.
  - by apply forEach_Returns.
Qed.

Lemma collectEntry_Returns cacheType fileName getName defer storeExpected
    getProgramResolutions name mode resolved flag (st : VerifierState H) loop :
  collectEntry impl cacheType fileName getName defer storeExpected getProgramResolutions
    ((name, mode), resolved) (flag, st) = Returns loop →
  ∃ object e st1,
    heap (expected st) !! resolved = Some object ∧
    collectResolution impl cacheType fileName resolved (getName object) name mode defer st
      = Returns (e, st1) ∧
    getProgramResolutions name mode = Some resolved ∧
    loop.2 = set_cache
      (setInExpectedCache storeExpected fileName name mode e
         (cacheOf (expected
            (if flag then st1
             else set_cache (writeMap storeExpected
                    (jsSet fileName [] (readMap storeExpected (cacheOf (expected st1))))
                    (cacheOf (expected st1))) st1))))
      (if flag then st1
       else set_cache (writeMap storeExpected
              (jsSet fileName [] (readMap storeExpected (cacheOf (expected st1))))
              (cacheOf (expected st1))) st1).
Proof.
  unfold collectEntry. intros Hb.
  apply bind_Returns in Hb as (object & Hobj%deref_Returns & Hb).
  apply bind_Returns in Hb as ([e s3] & Hc & Hb).
  apply bind_Returns in Hb as ([] & Hassert%Debug_assert_decide & [= <-]).
  exists object, e, s3. by repeat split.
Qed.

(** The two assertions inside [collectResolutionToRefFromCache]. *)
Lemma collectResolutionToRefFromCache_asserts cacheType fileName cache getName defer
    storeExpected getProgramResolutions (st st' : VerifierState H) :
  collectResolutionToRefFromCache' cacheType fileName cache getName defer
    storeExpected getProgramResolutions st = Returns st' →
  (is_Some (getSourceFileByPath actualProgram fileName) ∨ inferredTypesPath' = fileName) ∧
  ∀ name mode resolved, ((name, mode), resolved) ∈ cache →
    getProgramResolutions name mode = Some resolved.
Proof.
  unfold collectResolutionToRefFromCache. intros Hrun.
  apply bind_Returns in Hrun as ([] & Hfile & Hrun).
  apply Debug_assert_Returns, orb_true_iff in Hfile.
  rewrite !bool_decide_eq_true in Hfile. split; [done|].
  apply bind_Returns in Hrun as (loop & Hloop & _).
  intros name mode resolved Hin.
  destruct (forEachS_Returns_each _ _ _ _ Hloop _ Hin) as ([f1 s1] & l2 & Hbody).
  by apply collectEntry_Returns in Hbody as (? & ? & ? & _ & _ & ? & _).
Qed.

Lemma verifyResolutionIsInCache_Returns cacheType cache resolution name mode fileName :
  verifyResolutionIsInCache emptyResolution cacheType cache resolution name mode fileName
    = Returns () ↔
  if decide (resolution ≠ emptyResolution)
  then cache ≫= jsGet (name, mode) = Some resolution
  else cache ≫= jsGet (name, mode) = None.
Proof.
  unfold verifyResolutionIsInCache. destruct (decide _).
  - apply Debug_assert_decide.
  - rewrite Debug_assert_Returns. destruct cache as [c|]; simpl; [|done].
    by rewrite negb_true_iff, jsHas_false.
Qed.

(** *** Counting the collected references *)

Lemma occurrences_app R (l1 l2 : list ref) :
  occurrences R (l1 ++ l2) = occurrences R l1 + occurrences R l2.
Proof. unfold occurrences. by rewrite filter_app, length_app. Qed.

Lemma occurrences_cons R r (l : list ref) :
  occurrences R (r :: l) = occurrences R [r] + occurrences R l.
Proof. apply (occurrences_app R [r] l). Qed.

Lemma occurrences_singleton R r :
  occurrences R [r] = if decide (r = R) then 1 else 0.
Proof. unfold occurrences. cbn. by destruct (decide (r = R)). Qed.

Lemma sum_occurrences_snd {K : Type} R (l : list (K * ref)) :
  sum_list ((fun x => occurrences R [x.2]) <$> l) = occurrences R l.*2.
Proof.
  induction l as [|[k r] l IH]; [done|].
  rewrite !fmap_cons. simpl. rewrite IH. symmetry. apply occurrences_cons.
Qed.

Lemma forEachS_count {A S : Type} (body : A → S → outcome S) (count : S → nat)
    (weight : A → nat) (xs : list A) (s s' : S) :
  (∀ x s1 s2, body x s1 = Returns s2 → count s2 = count s1 + weight x) →
  forEachS body xs s = Returns s' →
  count s' = count s + sum_list (weight <$> xs).
Proof.
  intros Hstep. revert s. induction xs as [|x xs IH]; cbn; intros s Hrun.
  - injection Hrun as <-. lia.
  - apply bind_Returns in Hrun as (s1 & Hx & Hrest).
    rewrite (IH _ Hrest), (Hstep _ _ _ Hx). cbn. lia.
Qed.

Lemma collectResolution_count cacheType fileName resolved resolvedFileName name mode defer
    (st st' : VerifierState H) e R :
  collectResolution impl cacheType fileName resolved resolvedFileName name mode defer st
    = Returns (e, st') →
  collectedCount st' R = collectedCount st R + occurrences R [resolved] ∧
  (keysNonEmpty st → keysNonEmpty st').
Proof.
  unfold collectResolution. intros Hrun.
  apply bind_Returns in Hrun as ([e1 st1] & Hfirst & Hrun).
  apply bind_Returns in Hrun as (watched & _ & [= <- <-]).
  assert (Hmid : collectedCount st1 R = collectedCount st R + occurrences R [resolved] ∧
                 (keysNonEmpty st → keysNonEmpty st1)); [|done].
  unfold collectedCount, keysNonEmpty. rewrite occurrences_singleton.
  destruct (resolutionToRefs st !! resolved) as [existing|] eqn:Hex.
  - destruct (resolutionToExpected st !! resolved); [|done].
    injection Hfirst as <- <-. simpl. split.
    + destruct (decide (resolved = R)) as [->|Hne].
      * rewrite lookup_insert_eq, Hex. simpl. rewrite length_app. simpl. lia.
      * rewrite lookup_insert_ne by done. lia.
    + intros Hkeys R' info. rewrite lookup_insert. case_decide.
      * intros [= <-]. by destruct existing.
      * apply Hkeys.
  - apply bind_Returns in Hfirst as (object & _ & [= <- <-]). simpl. split.
    + destruct (decide (resolved = R)) as [->|Hne].
      * by rewrite lookup_insert_eq, Hex.
      * rewrite lookup_insert_ne by done. lia.
    + intros Hkeys R' info. rewrite lookup_insert. case_decide.
      * by intros [= <-].
      * apply Hkeys.
Qed.

Lemma collectEntry_count cacheType fileName getName defer storeExpected
    getProgramResolutions entry (loop loop' : bool * VerifierState H) R :
  collectEntry impl cacheType fileName getName defer storeExpected getProgramResolutions
    entry loop = Returns loop' →
  collectedCount loop'.2 R = collectedCount loop.2 R + occurrences R [entry.2] ∧
  (keysNonEmpty loop.2 → keysNonEmpty loop'.2).
Proof.
  destruct entry as [[name mode] resolved], loop as [flag st].
  intros (object & e & st1 & _ & Hc & _ & ->)%collectEntry_Returns.
  apply (collectResolution_count _ _ _ _ _ _ _ _ _ _ R) in Hc. by destruct flag.
Qed.

Lemma collectResolutionToRefFromCache_count cacheType fileName cache getName defer
    storeExpected getProgramResolutions (st st' : VerifierState H) R :
  collectResolutionToRefFromCache' cacheType fileName cache getName defer
    storeExpected getProgramResolutions st = Returns st' →
  collectedCount st' R = collectedCount st R + occurrences R cache.*2 ∧
  (keysNonEmpty st → keysNonEmpty st').
Proof.
  unfold collectResolutionToRefFromCache. intros Hrun.
  apply bind_Returns in Hrun as ([] & _ & Hrun).
  apply bind_Returns in Hrun as (loop & Hloop & [= <-]).
  split.
  - pose proof (forEachS_count _ (fun p => collectedCount p.2 R)
      (fun x => occurrences R [x.2]) _ _ _
      (fun x s1 s2 Hb => proj1 (collectEntry_count _ _ _ _ _ _ x s1 s2 R Hb)) Hloop)
      as Hcount.
    cbn [snd] in Hcount. by rewrite Hcount, sum_occurrences_snd.
  - intros Hkeys.
    apply (forEachS_Returns_inv _ (fun p => keysNonEmpty p.2) _ (false, st) loop
             (fun x s1 s2 _ Hp Hb => proj2 (collectEntry_count _ _ _ _ _ _ x s1 s2 R Hb) Hp)
             Hkeys Hloop).
Qed.

Lemma perFile_count (body : Path * ModeAwareCache → VerifierState H → outcome (VerifierState H))
    (m : JsMap Path ModeAwareCache) (st st' : VerifierState H) R :
  (∀ x s1 s2, body x s1 = Returns s2 →
     collectedCount s2 R = collectedCount s1 R + occurrences R x.2.*2 ∧
     (keysNonEmpty s1 → keysNonEmpty s2)) →
  forEachS body m st = Returns st' →
  collectedCount st' R = collectedCount st R + occurrences R (cachedResolutions m) ∧
  (keysNonEmpty st → keysNonEmpty st').
Proof.
  intros Hbody Hloop. split.
  - rewrite (forEachS_count _ (fun s => collectedCount s R)
      (fun x => occurrences R x.2.*2) _ _ _ (fun x s1 s2 Hb => proj1 (Hbody x s1 s2 Hb)) Hloop).
    f_equal. clear. unfold cachedResolutions.
    induction m as [|[p c] m IH]; [done|].
    rewrite !fmap_cons. simpl. by rewrite occurrences_app, IH.
  - intros Hkeys.
    apply (forEachS_Returns_inv _ keysNonEmpty _ _ _
             (fun x s1 s2 _ Hp Hb => proj2 (Hbody x s1 s2 Hb) Hp) Hkeys Hloop).
Qed.

Lemma collectLibrary_count entry (st st' : VerifierState H) R :
  collectLibrary' entry st = Returns st' →
  collectedCount st' R = collectedCount st R + occurrences R [entry.2] ∧
  (keysNonEmpty st → keysNonEmpty st').
Proof.
  destruct entry as [lib resolved]. unfold collectLibrary. intros Hb.
  apply bind_Returns in Hb as (object & _ & Hb).
  apply bind_Returns in Hb as ([e s3] & Hc & [= <-]).
  by apply (collectResolution_count _ _ _ _ _ _ _ _ _ _ R) in Hc.
Qed.

Lemma collect_count (st collected : VerifierState H) R :
  collect' st = Returns collected →
  collectedCount collected R = collectedCount st R + referencesTo actual R ∧
  (keysNonEmpty st → keysNonEmpty collected).
Proof.
  intros (st1 & st2 & st3 & finished & H1 & H2 & H3 & _ & _ & _ & _ & ->)%collect_Returns.
  apply (perFile_count _ _ _ _ R) in H1 as [Hc1 Hk1];
    [|intros [p c] s1 s2; apply collectResolutionToRefFromCache_count].
  apply (perFile_count _ _ _ _ R) in H2 as [Hc2 Hk2];
    [|intros [p c] s1 s2; apply collectResolutionToRefFromCache_count].
  assert (Hlibs : collectedCount st3 R
                  = collectedCount st2 R + occurrences R (resolvedLibraries actual).*2 ∧
                  (keysNonEmpty st2 → keysNonEmpty st3)).
  { split.
    - rewrite (forEachS_count _ (fun s => collectedCount s R)
        (fun x => occurrences R [x.2]) _ _ _
        (fun x s1 s2 Hb => proj1 (collectLibrary_count x s1 s2 R Hb)) H3).
      by rewrite sum_occurrences_snd.
    - intros Hkeys.
      apply (forEachS_Returns_inv _ keysNonEmpty _ _ _
               (fun x s1 s2 _ Hp Hb => proj2 (collectLibrary_count x s1 s2 R Hb) Hp)
               Hkeys H3). }
  destruct Hlibs as [Hc3 Hk3]. split.
  - unfold referencesTo. change (collectedCount (set_expected finished st3) R)
      with (collectedCount st3 R). lia.
  - intros Hk. apply Hk1, Hk2, Hk3 in Hk. exact Hk.
Qed.

Lemma collectedState_count (objects : Store) (collected : VerifierState H) :
  collectedState' objects = Returns collected →
  (∀ R info, resolutionToRefs collected !! R = Some info →
     length info = referencesTo actual R ∧ 0 < referencesTo actual R) ∧
  (∀ R, 0 < referencesTo actual R → is_Some (resolutionToRefs collected !! R)).
Proof.
  unfold collectedState. intros Hrun.
  apply bind_Returns in Hrun as (st & Hinit & Hcollect).
  assert (Hst : resolutionToRefs st = ∅).
  { unfold initialState in Hinit. destruct (createResolutionCache _ _ _ _) as [c h].
    by apply bind_Returns in Hinit as (started & _ & [= <-]). }
  assert (Hcount : ∀ R, collectedCount collected R = referencesTo actual R).
  { intros R. destruct (collect_count _ _ R Hcollect) as [-> _].
    unfold collectedCount. by rewrite Hst, lookup_empty. }
  assert (Hkeys : keysNonEmpty collected).
  { destruct (collect_count _ _ 1%positive Hcollect) as [_ Hk]. apply Hk.
    intros R info. by rewrite Hst, lookup_empty. }
  split.
  - intros R info HR. specialize (Hcount R). specialize (Hkeys R info HR).
    unfold collectedCount in Hcount. rewrite HR in Hcount. simpl in Hcount.
    rewrite <- Hcount. split; [done|]. destruct info; [done|simpl; lia].
  - intros R Hpos. specialize (Hcount R). unfold collectedCount in Hcount.
    destruct (resolutionToRefs collected !! R); [done|]. simpl in Hcount. lia.
Qed.

(** *** The claims on the assertions *)

Lemma returns_or_throws {A : Type} (o : outcome A) : (∃ a, o = Returns a) ∨ o = Throws.
Proof. destruct o; eauto. Qed.

Abbreviation programResolutionsCached' :=
  (programResolutionsCached emptyResolution getAutomaticTypeDirectiveContainingFile
     actual actualProgram resolutionHostCacheHost userResolvedModuleNames).
Abbreviation cachedResolutionsReported' :=
  (cachedResolutionsReported getAutomaticTypeDirectiveContainingFile
     actual actualProgram resolutionHostCacheHost).
Abbreviation sentinelNotCached' :=
  (sentinelNotCached emptyResolution getAutomaticTypeDirectiveContainingFile
     actual actualProgram resolutionHostCacheHost userResolvedModuleNames).
Abbreviation cachedFilesInProgram' :=
  (cachedFilesInProgram getAutomaticTypeDirectiveContainingFile
     actual actualProgram resolutionHostCacheHost).

Lemma verifyResolutionCache_collect (objects : Store) (released : VerifierState H) :
  verifyResolutionCache' objects = Returns released →
  ∃ st collected, collect' st = Returns collected.
Proof.
  intros (collected & Hstate & _)%verifyResolutionCache_phases.
  apply bind_Returns in Hstate as (st & _ & Hcollect). eauto.
Qed.

Lemma collect_files_asserted (st collected : VerifierState H) :
  collect' st = Returns collected →
  cachedFilesInProgram' ∧ cachedResolutionsReported'.
Proof.
  intros (st1 & st2 & st3 & finished & H1 & H2 & _)%collect_Returns.
  assert (Hmod : ∀ path cache, (path, cache) ∈ resolvedModuleNames actual →
    (is_Some (getSourceFileByPath actualProgram path) ∨ inferredTypesPath' = path) ∧
    ∀ name mode resolved, ((name, mode), resolved) ∈ cache →
      programModuleResolution actualProgram path name mode = Some resolved).
  { intros path cache Hin.
    destruct (forEachS_Returns_each _ _ _ _ H1 _ Hin) as (s1 & s2 & Hbody).
    by apply collectResolutionToRefFromCache_asserts in Hbody. }
  assert (Htyp : ∀ path cache, (path, cache) ∈ resolvedTypeReferenceDirectives actual →
    (is_Some (getSourceFileByPath actualProgram path) ∨ inferredTypesPath' = path) ∧
    ∀ name mode resolved, ((name, mode), resolved) ∈ cache →
      programTypeRefResolution' path name mode = Some resolved).
  { intros path cache Hin.
    destruct (forEachS_Returns_each _ _ _ _ H2 _ Hin) as (s1 & s2 & Hbody).
    by apply collectResolutionToRefFromCache_asserts in Hbody. }
  split.
  - intros path [[cache Hc]|[cache Hc]]; apply jsGet_Some_elem in Hc.
    + destruct (Hmod path cache Hc) as [[?|?] _]; auto.
    + destruct (Htyp path cache Hc) as [[?|?] _]; auto.
  - split.
    + intros path cache name mode resolved Hp Hc. by apply (Hmod path cache Hp).
    + intros path cache name mode resolved Hp Hc. by apply (Htyp path cache Hp).
Qed.

Lemma collect_program_asserted (st collected : VerifierState H) :
  collect' st = Returns collected →
  programResolutionsCached' ∧ sentinelNotCached'.
Proof.
  intros (st1 & st2 & st3 & finished & _ & _ & _ & Hm & Ht & Ha & _)%collect_Returns.
  rewrite Forall_forall in Ht. rewrite Forall_forall in Ha.
  assert (Hm' : userResolvedModuleNames = false →
    ∀ e, e ∈ forEachResolvedModule actualProgram None → verifyModuleIsInCache' e = Returns ()).
  { intros Hu. by apply Forall_forall, Hm. }
  unfold verifyModuleIsInCache in Hm'. unfold verifyTypeRefIsInCache in Ht.
  split; (split; [|split]).
  - intros Hu e He Hne. specialize (Hm' Hu e He).
    apply verifyResolutionIsInCache_Returns in Hm'. by rewrite decide_True in Hm'.
  - intros e He Hne. specialize (Ht e He).
    apply verifyResolutionIsInCache_Returns in Ht. by rewrite decide_True in Ht.
  - intros name mode r Hin Hne. specialize (Ha _ Hin). simpl in Ha.
    apply verifyResolutionIsInCache_Returns in Ha. by rewrite decide_True in Ha.
  - intros Hu e He Heq. specialize (Hm' Hu e He).
    apply verifyResolutionIsInCache_Returns in Hm'.
    rewrite decide_False in Hm'; [done | by intros ?].
  - intros e He Heq. specialize (Ht e He).
    apply verifyResolutionIsInCache_Returns in Ht.
    rewrite decide_False in Ht; [done | by intros ?].
  - intros name mode r Hin Heq. specialize (Ha _ Hin). simpl in Ha.
    apply verifyResolutionIsInCache_Returns in Ha.
    rewrite decide_False in Ha; [done | by intros ?].
Qed.

(** Claim C1.  For every resolution [R] collected from the live cache the
    verifier asserts that [R.refCount] is the number of references collected
    for [R], that [R] is not invalidated, that the shadow resolution linked to
    [R] has the same count and that the two file sets contain each other; the
    references collected for [R] are as many as the modules, type references
    and libraries of the live cache that hold [R], and every resolution the
    live cache holds is collected.  A violation makes the call throw. *)
Theorem collected_refCounts_verified :
  (∀ (st : VerifierState H) R info,
     verifyRefCount st R info = Returns () ↔ refCountVerified st R info) ∧
  (∀ objects released,
     verifyResolutionCache impl emptyResolution getAutomaticTypeDirectiveContainingFile
       getInferredLibraryNameResolveFrom getLibraryNameFromLibFileName actual actualProgram
       resolutionHostCacheHost projectName userResolvedModuleNames objects = Returns released →
     ∃ collected,
       collectedState impl emptyResolution getAutomaticTypeDirectiveContainingFile
       getInferredLibraryNameResolveFrom getLibraryNameFromLibFileName actual actualProgram
       resolutionHostCacheHost userResolvedModuleNames objects = Returns collected ∧
       (∀ R info, resolutionToRefs collected !! R = Some info →
          refCountVerified collected R info ∧ length info = referencesTo actual R) ∧
       (∀ R, 0 < referencesTo actual R → is_Some (resolutionToRefs collected !! R))) ∧
  (∀ objects collected R info,
     collectedState impl emptyResolution getAutomaticTypeDirectiveContainingFile
       getInferredLibraryNameResolveFrom getLibraryNameFromLibFileName actual actualProgram
       resolutionHostCacheHost userResolvedModuleNames objects = Returns collected →
     resolutionToRefs collected !! R = Some info →
     ¬ refCountVerified collected R info →
     verifyResolutionCache impl emptyResolution getAutomaticTypeDirectiveContainingFile
       getInferredLibraryNameResolveFrom getLibraryNameFromLibFileName actual actualProgram
       resolutionHostCacheHost projectName userResolvedModuleNames objects = Throws).
Proof.
  split; [|split].
  - intros st R info. apply verifyRefCount_Returns.
  - intros objects released
      (collected & Hstate & Hverify & _)%verifyResolutionCache_phases.
    exists collected. split; [done|].
    destruct (collectedState_count _ _ Hstate) as [Hlen Hall].
    apply verifyCollected_Returns in Hverify as (Hrefs & _).
    split; [|done]. intros R info HR. split; [by apply Hrefs | by apply Hlen].
  - intros objects collected R info Hstate HR Hno.
    destruct (returns_or_throws (verifyResolutionCache' objects))
      as [[released Hrun]|]; [|done].
    apply verifyResolutionCache_phases in Hrun as (collected' & Hstate' & Hverify & _).
    rewrite Hstate in Hstate'. injection Hstate' as <-.
    apply verifyCollected_Returns in Hverify as (Hrefs & _).
    destruct Hno. by apply Hrefs.
Qed.


(** Claim C3, as the code has it.  When the call returns, every resolution
    other than the sentinel that the program reports for a type reference or
    an automatic type reference is the very object the live cache holds at
    (file, name, mode), and so is every such module resolution unless
    [userResolvedModuleNames] is set; and every resolution the two per-file
    maps of the live cache hold is the very object the program reports for
    its (file, name, mode).  A mismatch makes the call throw. *)
Theorem cache_and_program_agree :
  (∀ objects released,
     verifyResolutionCache impl emptyResolution getAutomaticTypeDirectiveContainingFile
       getInferredLibraryNameResolveFrom getLibraryNameFromLibFileName actual actualProgram
       resolutionHostCacheHost projectName userResolvedModuleNames objects = Returns released →
     programResolutionsCached emptyResolution getAutomaticTypeDirectiveContainingFile
       actual actualProgram resolutionHostCacheHost userResolvedModuleNames ∧
     cachedResolutionsReported getAutomaticTypeDirectiveContainingFile
       actual actualProgram resolutionHostCacheHost) ∧
  (∀ objects,
     ¬ (programResolutionsCached emptyResolution getAutomaticTypeDirectiveContainingFile
       actual actualProgram resolutionHostCacheHost userResolvedModuleNames ∧
        cachedResolutionsReported getAutomaticTypeDirectiveContainingFile
       actual actualProgram resolutionHostCacheHost) →
     verifyResolutionCache impl emptyResolution getAutomaticTypeDirectiveContainingFile
       getInferredLibraryNameResolveFrom getLibraryNameFromLibFileName actual actualProgram
       resolutionHostCacheHost projectName userResolvedModuleNames objects = Throws).
Proof.
  assert (Hmain : ∀ objects released, verifyResolutionCache' objects = Returns released →
    programResolutionsCached' ∧ cachedResolutionsReported').
  { intros objects released (st & collected & Hcollect)%verifyResolutionCache_collect.
    split.
    - by apply collect_program_asserted in Hcollect as [? _].
    - by apply collect_files_asserted in Hcollect as [_ ?]. }
  split; [done|].
  intros objects Hno.
  destruct (returns_or_throws (verifyResolutionCache' objects)) as [[released Hrun]|]; [|done].
  destruct Hno. by eapply Hmain.
Qed.

(** Claim C4, as the code has it.  When the call returns, the live cache has
    no entry at (name, mode) of a file for which the program reports the
    sentinel as type-reference or automatic type-reference resolution, nor,
    unless [userResolvedModuleNames] is set, as module resolution.  Such an
    entry makes the call throw. *)
Theorem sentinel_not_materialized :
  (∀ objects released,
     verifyResolutionCache impl emptyResolution getAutomaticTypeDirectiveContainingFile
       getInferredLibraryNameResolveFrom getLibraryNameFromLibFileName actual actualProgram
       resolutionHostCacheHost projectName userResolvedModuleNames objects = Returns released →
     sentinelNotCached emptyResolution getAutomaticTypeDirectiveContainingFile
       actual actualProgram resolutionHostCacheHost userResolvedModuleNames) ∧
  (∀ objects,
     ¬ sentinelNotCached emptyResolution getAutomaticTypeDirectiveContainingFile
       actual actualProgram resolutionHostCacheHost userResolvedModuleNames →
     verifyResolutionCache impl emptyResolution getAutomaticTypeDirectiveContainingFile
       getInferredLibraryNameResolveFrom getLibraryNameFromLibFileName actual actualProgram
       resolutionHostCacheHost projectName userResolvedModuleNames objects = Throws).
Proof.
  assert (Hmain : ∀ objects released, verifyResolutionCache' objects = Returns released →
    sentinelNotCached').
  { intros objects released (st & collected & Hcollect)%verifyResolutionCache_collect.
    by apply collect_program_asserted in Hcollect as [_ ?]. }
  split; [done|].
  intros objects Hno.
  destruct (returns_or_throws (verifyResolutionCache' objects)) as [[released Hrun]|]; [|done].
  destruct Hno. by eapply Hmain.
Qed.


(** Claim C6, as the code has it.  The file watches of the shadow and of the
    live cache are compared in both directions: the call returns only if both
    have the same watched paths and, at every path, [resolutions] and [files]
    are each strictly equal ([===]) in the two watches and the two symlink
    sets contain each other.  The cross-reference maps take no part. *)
Theorem file_watches_compared :
  (∀ expected actual,
     verifyFileWatchesOfAffectingLocations projectName expected actual = Returns () ↔
     fileWatchesAgree expected actual) ∧
  (∀ objects released,
     verifyResolutionCache impl emptyResolution getAutomaticTypeDirectiveContainingFile
       getInferredLibraryNameResolveFrom getLibraryNameFromLibFileName actual actualProgram
       resolutionHostCacheHost projectName userResolvedModuleNames objects = Returns released →
     ∃ collected,
       collectedState impl emptyResolution getAutomaticTypeDirectiveContainingFile
       getInferredLibraryNameResolveFrom getLibraryNameFromLibFileName actual actualProgram
       resolutionHostCacheHost userResolvedModuleNames objects = Returns collected ∧
       fileWatchesAgree (fileWatchesOfAffectingLocations (cacheOf (expected collected)))
         (fileWatchesOfAffectingLocations actual)) ∧
  (∀ objects collected,
     collectedState impl emptyResolution getAutomaticTypeDirectiveContainingFile
       getInferredLibraryNameResolveFrom getLibraryNameFromLibFileName actual actualProgram
       resolutionHostCacheHost userResolvedModuleNames objects = Returns collected →
     ¬ fileWatchesAgree (fileWatchesOfAffectingLocations (cacheOf (expected collected)))
         (fileWatchesOfAffectingLocations actual) →
     verifyResolutionCache impl emptyResolution getAutomaticTypeDirectiveContainingFile
       getInferredLibraryNameResolveFrom getLibraryNameFromLibFileName actual actualProgram
       resolutionHostCacheHost projectName userResolvedModuleNames objects = Throws).
Proof.
  split; [|split].
  - apply verifyFileWatchesOfAffectingLocations_Returns.
  - intros objects released
      (collected & Hstate & Hverify & _)%verifyResolutionCache_phases.
    exists collected. split; [done|].
    by apply verifyCollected_Returns in Hverify as (_ & _ & ?).
  - intros objects collected Hstate Hno.
    destruct (returns_or_throws (verifyResolutionCache' objects))
      as [[released Hrun]|]; [|done].
    apply verifyResolutionCache_phases in Hrun as (collected' & Hstate' & Hverify & _).
    rewrite Hstate in Hstate'. injection Hstate' as <-.
    apply verifyCollected_Returns in Hverify as (_ & _ & ?). done.
Qed.

(** Claim C10.  For every path with an entry in [resolvedModuleNames] or
    [resolvedTypeReferenceDirectives] of the live cache the verifier asserts
    that the path is a source file of the program or the path of the file
    containing the automatic type directives; an entry for another path makes
    the call throw. *)
Theorem cached_files_belong_to_program :
  (∀ objects released,
     verifyResolutionCache impl emptyResolution getAutomaticTypeDirectiveContainingFile
       getInferredLibraryNameResolveFrom getLibraryNameFromLibFileName actual actualProgram
       resolutionHostCacheHost projectName userResolvedModuleNames objects = Returns released →
     cachedFilesInProgram getAutomaticTypeDirectiveContainingFile
       actual actualProgram resolutionHostCacheHost) ∧
  (∀ objects,
     ¬ cachedFilesInProgram getAutomaticTypeDirectiveContainingFile
       actual actualProgram resolutionHostCacheHost →
     verifyResolutionCache impl emptyResolution getAutomaticTypeDirectiveContainingFile
       getInferredLibraryNameResolveFrom getLibraryNameFromLibFileName actual actualProgram
       resolutionHostCacheHost projectName userResolvedModuleNames objects = Throws).
Proof.
  assert (Hmain : ∀ objects released, verifyResolutionCache' objects = Returns released →
    cachedFilesInProgram').
  { intros objects released (st & collected & Hcollect)%verifyResolutionCache_collect.
    by apply collect_files_asserted in Hcollect as [? _]. }
  split; [done|].
  intros objects Hno.
  destruct (returns_or_throws (verifyResolutionCache' objects)) as [[released Hrun]|]; [|done].
  destruct Hno. by eapply Hmain.
Qed.

End VerifierFacts.

(** ** The verifier leaves the live objects alone *)

Lemma elem_of_jsSet `{EqDecision K} {V : Type} (k : K) (v : V) (m : JsMap K V) x :
  x ∈ jsSet k v m → x = (k, v) ∨ x ∈ m.
Proof.
  induction m as [|[k' v'] m IH]; simpl.
  - intros ->%list_elem_of_singleton. by left.
  - destruct (decide (k' = k)); rewrite !elem_of_cons; naive_solver.
Qed.

Lemma elem_of_modeAwareRefs (c : ModeAwareCache) r :
  r ∈ modeAwareRefs c ↔ ∃ key, (key, r) ∈ c.
Proof.
  unfold modeAwareRefs. rewrite elem_of_list_to_set, list_elem_of_fmap. split.
  - intros ([key r'] & -> & Hin). eauto.
  - intros (key & Hin). by exists (key, r).
Qed.

Lemma elem_of_perFileRefs (m : JsMap Path ModeAwareCache) r :
  r ∈ perFileRefs m ↔ ∃ p c key, (p, c) ∈ m ∧ (key, r) ∈ c.
Proof.
  unfold perFileRefs. rewrite elem_of_union_list. split.
  - intros (X & HX & Hr). apply list_elem_of_fmap in HX as (c & -> & Hc).
    apply list_elem_of_fmap in Hc as ([p c'] & -> & Hpc).
    apply elem_of_modeAwareRefs in Hr as (key & Hkey). eauto.
  - intros (p & c & key & Hpc & Hkey). exists (modeAwareRefs c). split.
    + apply list_elem_of_fmap. exists c. split; [done|].
      apply list_elem_of_fmap. by exists (p, c).
    + apply elem_of_modeAwareRefs. eauto.
Qed.

Lemma perFileRefs_jsSet k (c : ModeAwareCache) (m : JsMap Path ModeAwareCache) :
  perFileRefs (jsSet k c m) ⊆ perFileRefs m ∪ modeAwareRefs c.
Proof.
  intros r (p & c' & key & Hpc & Hkey)%elem_of_perFileRefs.
  apply elem_of_jsSet in Hpc as [[= -> ->]|Hpc].
  - apply elem_of_union_r, elem_of_modeAwareRefs. eauto.
  - apply elem_of_union_l, elem_of_perFileRefs. eauto.
Qed.

Lemma modeAwareRefs_jsSet key e (c : ModeAwareCache) :
  modeAwareRefs (jsSet key e c) ⊆ modeAwareRefs c ∪ {[e]}.
Proof.
  intros r (key' & Hin)%elem_of_modeAwareRefs.
  apply elem_of_jsSet in Hin as [[= -> ->]|Hin].
  - set_solver.
  - apply elem_of_union_l, elem_of_modeAwareRefs. eauto.
Qed.

Lemma modeAwareRefs_jsGet k (m : JsMap Path ModeAwareCache) :
  modeAwareRefs (default [] (jsGet k m)) ⊆ perFileRefs m.
Proof.
  destruct (jsGet k m) as [c|] eqn:Hget; simpl.
  - intros r (key & Hin)%elem_of_modeAwareRefs. apply elem_of_perFileRefs.
    exists k, c, key. split; [by apply jsGet_Some_elem | done].
  - intros r (key & Hin)%elem_of_modeAwareRefs. by apply elem_of_nil in Hin.
Qed.

Lemma libraryRefs_jsSet k e (l : JsMap string ref) :
  (list_to_set (jsSet k e l).*2 : gset ref) ⊆ list_to_set l.*2 ∪ {[e]}.
Proof.
  intros r. rewrite elem_of_union, !elem_of_list_to_set, !list_elem_of_fmap.
  intros ([k' r'] & -> & Hin). apply elem_of_jsSet in Hin as [[= -> ->]|Hin].
  - right. set_solver.
  - left. by exists (k', r').
Qed.

Lemma moduleNamesOf_local : perFileMapLocal moduleNamesOf.
Proof. intros c. unfold cacheRefs. simpl. split; [|intros m]; set_solver. Qed.

Lemma typeReferenceDirectivesOf_local : perFileMapLocal typeReferenceDirectivesOf.
Proof. intros c. unfold cacheRefs. simpl. split; [|intros m]; set_solver. Qed.

Lemma cacheRefs_reset (pm : PerFileMap) fileName c :
  perFileMapLocal pm →
  cacheRefs (writeMap pm (jsSet fileName [] (readMap pm c)) c) ⊆ cacheRefs c.
Proof.
  intros Hpm. destruct (Hpm c) as [Hread Hwrite].
  etrans; [apply Hwrite|].
  pose proof (perFileRefs_jsSet fileName [] (readMap pm c)) as Hset.
  assert (modeAwareRefs [] = ∅) as Hnil by done.
  set_solver.
Qed.

Lemma cacheRefs_setInExpectedCache (pm : PerFileMap) fileName name mode e c :
  perFileMapLocal pm →
  cacheRefs (setInExpectedCache pm fileName name mode e c) ⊆ cacheRefs c ∪ {[e]}.
Proof.
  intros Hpm. destruct (Hpm c) as [Hread Hwrite]. unfold setInExpectedCache.
  etrans; [apply Hwrite|].
  pose proof (perFileRefs_jsSet fileName
    (jsSet (name, mode) e (default [] (jsGet fileName (readMap pm c)))) (readMap pm c)) as H1.
  pose proof (modeAwareRefs_jsSet (name, mode) e
    (default [] (jsGet fileName (readMap pm c)))) as H2.
  pose proof (modeAwareRefs_jsGet fileName (readMap pm c)) as H3.
  set_solver.
Qed.

Section Frame.

Context {H : Type} (impl : ResolutionCacheImpl H) (closureRefs : H → gset ref).
Variable emptyResolution : ref.
Variable getAutomaticTypeDirectiveContainingFile : CompilerOptions → string → string.
Variable getInferredLibraryNameResolveFrom : CompilerOptions → string → string → string.
Variable getLibraryNameFromLibFileName : string → string.
Variable actual : ResolutionCache.
Variable actualProgram : Program.
Variable resolutionHostCacheHost : ResolutionCacheHost.
Variable projectName : string.
Variable userResolvedModuleNames : bool.
Variable objects : Store.

Hypothesis local : HeapLocal closureRefs impl.

Abbreviation confinedShadow' := (confinedShadow closureRefs objects).
Abbreviation confined' := (confined closureRefs objects).
Abbreviation tracked' := (tracked closureRefs).

Lemma localTo_confined args (sh sh' : Shadow H) :
  confinedShadow' sh → localTo closureRefs args sh sh' → args ## dom objects →
  confinedShadow' sh'.
Proof.
  intros [Hheap Hdisj] [Hframe Hgrow] Hargs. split.
  - intros a o Ha. rewrite Hframe; [by apply Hheap|].
    assert (a ∈ dom objects) by (apply elem_of_dom; eauto). set_solver.
  - set_solver.
Qed.

Lemma confined_set_cache c (st : VerifierState H) extra :
  confined' st → cacheRefs c ⊆ cacheRefs (cacheOf (expected st)) ∪ extra →
  extra ## dom objects → confined' (set_cache c st).
Proof.
  intros [[Hheap Hdisj] Hlinks] Hsub Hextra. split; [split|]; simpl; try done.
  unfold tracked in *. simpl. set_solver.
Qed.

Lemma collectResolution_confined cacheType fileName resolved resolvedFileName name mode
    defer (st st' : VerifierState H) e :
  confined' st →
  collectResolution impl cacheType fileName resolved resolvedFileName name mode defer st
    = Returns (e, st') →
  confined' st' ∧ e ∉ dom objects.
Proof.
  intros Hst Hrun. unfold collectResolution in Hrun.
  apply bind_Returns in Hrun as ([e1 st1] & Hfirst & Hrun).
  apply bind_Returns in Hrun as (watched & Hwatch & [= <- <-]).
  assert (Hmid : confined' st1 ∧ e1 ∉ dom objects).
  { destruct Hst as [[Hheap Hdisj] Hlinks].
    destruct (resolutionToRefs st !! resolved) as [existing|].
    - destruct (resolutionToExpected st !! resolved) as [e'|] eqn:He; [|done].
      injection Hfirst as <- <-. split; [by repeat split|]. by eapply Hlinks.
    - apply bind_Returns in Hfirst as (object & _ & [= <- <-]).
      assert (Hfresh : fresh (dom (heap (expected st))) ∉ dom objects).
      { intros Hin. apply elem_of_dom in Hin as [o Ho].
        apply (is_fresh (dom (heap (expected st)))).
        apply elem_of_dom. exists o. by apply Hheap. }
      split; [|done]. split; [split|]; simpl.
      + intros a o Ha. rewrite lookup_insert_ne; [by apply Hheap|].
        intros <-. apply Hfresh, elem_of_dom. eauto.
      + done.
      + intros R e'. rewrite lookup_insert. case_decide; [by intros [= <-]|apply Hlinks]. }
  destruct Hmid as [[Hsh Hlinks] He1]. split; [|done]. split; [|done].
  eapply localTo_confined; [exact Hsh| |].
  - eapply (watch_local _ _ local), Hwatch.
  - set_solver.
Qed.

Lemma collectEntry_confined cacheType fileName getName defer storeExpected
    getProgramResolutions entry (loop loop' : bool * VerifierState H) :
  perFileMapLocal storeExpected →
  confined' loop.2 →
  collectEntry impl cacheType fileName getName defer storeExpected getProgramResolutions
    entry loop = Returns loop' →
  confined' loop'.2.
Proof.
  intros Hpm. destruct entry as [[name mode] resolved], loop as [flag st]. simpl.
  intros Hst (object & e & st1 & _ & Hc & _ & ->)%collectEntry_Returns.
  apply collectResolution_confined in Hc as [Hst1 He]; [|done].
  assert (Hreset : confined'
    (if flag then st1
     else set_cache (writeMap storeExpected
            (jsSet fileName [] (readMap storeExpected (cacheOf (expected st1))))
            (cacheOf (expected st1))) st1)).
  { destruct flag; [done|].
    apply (confined_set_cache _ _ ∅); [done| |set_solver].
    pose proof (cacheRefs_reset storeExpected fileName (cacheOf (expected st1)) Hpm).
    set_solver. }
  apply (confined_set_cache _ _ {[e]}); [done| |set_solver].
  by apply cacheRefs_setInExpectedCache.
Qed.

Lemma collectResolutionToRefFromCache_confined cacheType fileName cache getName defer
    storeExpected getProgramResolutions (st st' : VerifierState H) :
  perFileMapLocal storeExpected →
  confined' st →
  collectResolutionToRefFromCache impl getAutomaticTypeDirectiveContainingFile
    actualProgram resolutionHostCacheHost cacheType fileName cache getName defer
    storeExpected getProgramResolutions st = Returns st' →
  confined' st'.
Proof.
  intros Hpm Hst Hrun. unfold collectResolutionToRefFromCache in Hrun.
  apply bind_Returns in Hrun as ([] & _ & Hrun).
  apply bind_Returns in Hrun as (loop & Hloop & [= <-]).
  refine (forEachS_Returns_inv _ (fun p => confined' p.2) _ (false, st) loop _ Hst Hloop).
  intros x s1 s2 _. by apply collectEntry_confined.
Qed.

Lemma collectLibrary_confined entry (st st' : VerifierState H) :
  confined' st →
  collectLibrary impl getInferredLibraryNameResolveFrom getLibraryNameFromLibFileName
    actualProgram resolutionHostCacheHost entry st = Returns st' →
  confined' st'.
Proof.
  destruct entry as [lib resolved]. unfold collectLibrary. intros Hst Hb.
  apply bind_Returns in Hb as (object & _ & Hb).
  apply bind_Returns in Hb as ([e s3] & Hc & [= <-]).
  apply collectResolution_confined in Hc as [Hs3 He]; [|done].
  apply (confined_set_cache _ _ {[e]}); [done| |set_solver].
  pose proof (libraryRefs_jsSet lib e (resolvedLibraries (cacheOf (expected s3)))).
  unfold cacheRefs. simpl. set_solver.
Qed.

Lemma confined_set_expected (st : VerifierState H) sh :
  confined' st → localTo closureRefs ∅ (expected st) sh → confined' (set_expected sh st).
Proof.
  intros [Hsh Hlinks] Hlocal. split; [|done]. simpl.
  eapply localTo_confined; [exact Hsh|exact Hlocal|set_solver].
Qed.

Lemma initialState_confined (st : VerifierState H) :
  initialState impl actual resolutionHostCacheHost objects = Returns st → confined' st.
Proof.
  unfold initialState.
  pose proof (create_local _ _ local resolutionHostCacheHost
                (rootDirForResolution actual) false) as [Hc Hh].
  destruct (createResolutionCache _ _ _ _) as [c h]. simpl in *.
  intros (started & Hstart & [= <-])%bind_Returns.
  split; [|intros R e; simpl; by rewrite lookup_empty]. simpl.
  eapply localTo_confined; [|eapply (start_local _ _ local), Hstart|set_solver].
  split; [done|]. unfold tracked. simpl. set_solver.
Qed.

Lemma collect_confined (st collected : VerifierState H) :
  confined' st →
  collect impl emptyResolution getAutomaticTypeDirectiveContainingFile
    getInferredLibraryNameResolveFrom getLibraryNameFromLibFileName
    actual actualProgram resolutionHostCacheHost userResolvedModuleNames st
    = Returns collected →
  confined' collected.
Proof.
  intros Hst (st1 & st2 & st3 & finished & H1 & H2 & H3 & _ & _ & _ & Hf & ->)%collect_Returns.
  apply (forEachS_Returns_inv _ confined') in H1; [|
    intros [p c] s1 s2 _ Hs;
    apply collectResolutionToRefFromCache_confined;
    [apply moduleNamesOf_local | done] | done].
  apply (forEachS_Returns_inv _ confined') in H2; [|
    intros [p c] s1 s2 _ Hs;
    apply collectResolutionToRefFromCache_confined;
    [apply typeReferenceDirectivesOf_local | done] | done].
  apply (forEachS_Returns_inv _ confined') in H3; [|
    intros x s1 s2 _ Hs; by apply collectLibrary_confined | done].
  apply confined_set_expected; [done|].
  eapply (finish_local _ _ local), Hf.
Qed.

Lemma teardown_confined (collected released : VerifierState H) :
  confined' collected →
  teardown impl actual actualProgram collected = Returns released →
  confined' released.
Proof.
  intros [Hsh Hlinks] Hrun. unfold teardown in Hrun.
  apply bind_Returns in Hrun as (sh1 & H1 & Hrun).
  apply bind_Returns in Hrun as (sh2 & H2 & Hrun).
  apply bind_Returns in Hrun as (finished & Hf & [= <-]).
  assert (Hremove : ∀ x s1 s2, confinedShadow' s1 → removeEntry impl x s1 = Returns s2 →
                               confinedShadow' s2).
  { intros [p c] s1 s2 Hs Hb. eapply localTo_confined;
      [exact Hs|eapply (remove_local _ _ local), Hb|set_solver]. }
  apply (forEachS_Returns_inv _ confinedShadow') in H1; [|by eauto|done].
  apply (forEachS_Returns_inv _ confinedShadow') in H2; [|by eauto|done].
  split; [|done]. simpl.
  eapply localTo_confined; [exact H2|eapply (finish_local _ _ local), Hf|set_solver].
Qed.


End Frame.

(** ** The reference cache is local *)

Module SpecCacheFacts.
Import SpecCache.

Lemma cacheRefs_holdings c c' : holdings c' = holdings c → cacheRefs c' = cacheRefs c.
Proof. unfold holdings, cacheRefs. by intros [= -> -> ->]. Qed.

Lemma stopWatching_local e file (sh : Shadow unit) :
  (∀ a, a ≠ e → heap (stopWatching e file sh) !! a = heap sh !! a) ∧
  holdings (cacheOf (stopWatching e file sh)) = holdings (cacheOf sh).
Proof.
  unfold stopWatching. destruct (heap sh !! e) as [o|]; [|done]. simpl. split.
  - intros a Ha. by rewrite lookup_insert_ne.
  - by case_decide.
Qed.

Lemma stopWatchingAll_local file resolutions (sh : Shadow unit) :
  (∀ a, a ∉ modeAwareRefs resolutions →
     heap (stopWatchingAll file resolutions sh) !! a = heap sh !! a) ∧
  holdings (cacheOf (stopWatchingAll file resolutions sh)) = holdings (cacheOf sh).
Proof.
  unfold stopWatchingAll. revert sh.
  induction resolutions as [|[key e] rest IH]; intros sh; simpl; [done|].
  destruct (IH (stopWatching e file sh)) as [Hheap Hhold].
  destruct (stopWatching_local e file sh) as [Hheap1 Hhold1]. split.
  - intros a Ha. rewrite Hheap, Hheap1; [done| |].
    + intros ->. apply Ha, elem_of_modeAwareRefs. exists key. by left.
    + intros (key' & Hin)%elem_of_modeAwareRefs.
      apply Ha, elem_of_modeAwareRefs. exists key'. by right.
  - by rewrite Hhold, Hhold1.
Qed.

Lemma perFileRefs_jsDelete k (m : JsMap Path ModeAwareCache) :
  perFileRefs (jsDelete k m) ⊆ perFileRefs m.
Proof.
  intros r (p & c & key & Hpc & Hkey)%elem_of_perFileRefs.
  apply elem_of_perFileRefs. exists p, c, key. split; [|done].
  clear Hkey. induction m as [|[k' v'] m IH]; simpl in *; [done|].
  destruct (decide (k' = k)).
  - right. auto.
  - apply elem_of_cons in Hpc as [->|Hpc]; [by left | right; auto].
Qed.

Lemma removeFile_local file (sh sh' : Shadow unit) :
  removeFile file sh = Returns sh' → localTo closureRefs ∅ sh sh'.
Proof.
  unfold removeFile. intros [= <-].
  set (m1 := default [] (jsGet file (resolvedModuleNames (cacheOf sh)))).
  set (sh1 := stopWatchingAll file m1 sh).
  set (m2 := default [] (jsGet file (resolvedTypeReferenceDirectives (cacheOf sh1)))).
  set (sh2 := stopWatchingAll file m2 sh1).
  destruct (stopWatchingAll_local file m1 sh) as [Hheap1 Hhold1].
  destruct (stopWatchingAll_local file m2 sh1) as [Hheap2 Hhold2].
  fold sh1 in Hheap1, Hhold1. fold sh2 in Hheap2, Hhold2.
  assert (Hh2 : holdings (cacheOf sh2) = holdings (cacheOf sh)) by congruence.
  injection Hhold1 as Hm1 Ht1 Hl1. injection Hh2 as Hm2 Ht2 Hl2.
  assert (Hr1 : modeAwareRefs m1 ⊆ cacheRefs (cacheOf sh)).
  { pose proof (modeAwareRefs_jsGet file (resolvedModuleNames (cacheOf sh))).
    unfold cacheRefs. set_solver. }
  assert (Hr2 : modeAwareRefs m2 ⊆ cacheRefs (cacheOf sh)).
  { pose proof (modeAwareRefs_jsGet file (resolvedTypeReferenceDirectives (cacheOf sh1))).
    unfold cacheRefs. rewrite <- Ht1. set_solver. }
  split.
  - intros a Ha. simpl. unfold tracked in Ha.
    rewrite Hheap2, Hheap1; [done| |]; set_solver.
  - unfold tracked, cacheRefs, closureRefs. simpl. rewrite Hm2, Ht2, Hl2.
    pose proof (perFileRefs_jsDelete file (resolvedModuleNames (cacheOf sh))).
    pose proof (perFileRefs_jsDelete file (resolvedTypeReferenceDirectives (cacheOf sh))).
    set_solver.
Qed.

Lemma stopWatchingFiles_local e fs (sh : Shadow unit) :
  (∀ a, a ≠ e →
     heap (fold_left (fun sh file => stopWatching e file sh) fs sh) !! a = heap sh !! a) ∧
  holdings (cacheOf (fold_left (fun sh file => stopWatching e file sh) fs sh))
    = holdings (cacheOf sh).
Proof.
  revert sh. induction fs as [|f fs IH]; intros sh; simpl; [done|].
  destruct (IH (stopWatching e f sh)) as [Hheap Hhold].
  destruct (stopWatching_local e f sh) as [Hheap1 Hhold1]. split.
  - intros a Ha. by rewrite Hheap, Hheap1.
  - by rewrite Hhold, Hhold1.
Qed.

Lemma releaseLibraries_local (sh : Shadow unit) :
  localTo closureRefs ∅ sh (releaseLibraries sh).
Proof.
  unfold releaseLibraries.
  set (step := fun (sh : Shadow unit) '((_, e) : string * ref) =>
    match heap sh !! e with
    | Some o =>
        fold_left (fun sh file => stopWatching e file sh) (elements (default ∅ (files o))) sh
    | None => sh
    end).
  assert (Hfold : ∀ libs (sh0 : Shadow unit),
    (∀ a, a ∉ (list_to_set libs.*2 : gset ref) →
       heap (fold_left step libs sh0) !! a = heap sh0 !! a) ∧
    holdings (cacheOf (fold_left step libs sh0)) = holdings (cacheOf sh0)).
  { induction libs as [|[k e] libs IH]; intros sh0; cbn [fold_left]; [done|].
    destruct (IH (step sh0 (k, e))) as [Hheap Hhold].
    assert (Hstep : (∀ a, a ≠ e → heap (step sh0 (k, e)) !! a = heap sh0 !! a) ∧
                    holdings (cacheOf (step sh0 (k, e))) = holdings (cacheOf sh0)).
    { simpl. destruct (heap sh0 !! e); [apply stopWatchingFiles_local|done]. }
    destruct Hstep as [Hheap1 Hhold1]. split.
    - intros a Ha. rewrite fmap_cons in Ha. simpl in Ha.
      rewrite Hheap, Hheap1; [done| |]; set_solver.
    - by rewrite Hhold, Hhold1. }
  destruct (Hfold (resolvedLibraries (cacheOf sh)) sh) as [Hheap Hhold].
  injection Hhold as Hm Ht Hl. split.
  - intros a Ha. simpl. apply Hheap. unfold tracked, cacheRefs in Ha. set_solver.
  - unfold tracked, cacheRefs, closureRefs. simpl. rewrite Hm, Ht. set_solver.
Qed.

Lemma watchResolution_local name e file resolvedFileName defer (sh sh' : Shadow unit) :
  watchResolution name e file resolvedFileName defer sh = Returns sh' →
  localTo closureRefs {[e]} sh sh'.
Proof.
  unfold watchResolution. intros (o & _ & [= <-])%bind_Returns. split; simpl.
  - intros a Ha. rewrite lookup_insert_ne; [done|]. set_solver.
  - unfold tracked. simpl.
    assert (cacheRefs (if decide (bump (refCount o) = Some 1)
                       then register e
                              (mkResolution (resolvedModule o)
                                 (resolvedTypeReferenceDirective o)
                                 (failedLookupLocations o) (affectingLocations o)
                                 (node10Result o) (isInvalidated o) (bump (refCount o))
                                 (Some ({[file]} ∪ default ∅ (files o))))
                              resolvedFileName (cacheOf sh)
                       else cacheOf sh) = cacheRefs (cacheOf sh)) as ->.
    { by case_decide. }
    set_solver.
Qed.

Lemma impl_local : HeapLocal closureRefs impl.
Proof.
  split.
  - done.
  - intros sh sh' [= <-]. split; [done|set_solver].
  - apply watchResolution_local.
  - apply removeFile_local.
  - intros [p|] oldProgram sh sh' [= <-].
    + split; [done|set_solver].
    + apply releaseLibraries_local.
Qed.

End SpecCacheFacts.

(** ** The verifier on the project of two files *)

Module ScenarioFacts.
Import Scenario.

(** The project passes, with and without [userResolvedModuleNames]. *)
Example verify_live :
  passes (verify false live liveObjects) = true ∧
  passes (verify true live liveObjects) = true.
Proof. split; vm_compute; reflexivity. Qed.

(** The verifier throws on a leaked directory watch, on a reference count
    that is off, on an invalidated resolution, on an entry for a file outside
    the program, on a lost module resolution and on a stored sentinel. *)
Example verify_faulty :
  verify false liveWithLeakedWatch liveObjects = Throws ∧
  verify false live objectsWithWrongCount = Throws ∧
  verify false live objectsWithInvalidated = Throws ∧
  verify false liveWithStrayFile liveObjects = Throws ∧
  verify false liveWithoutModules liveObjects = Throws ∧
  verify false liveWithSentinel objectsWithWatchedSentinel = Throws.
Proof. repeat split; vm_compute; reflexivity. Qed.

Lemma collected_refCounts_verified_sample :
  ∃ collected, Scenario.collected false live liveObjects = Returns collected ∧
    (∀ R info, resolutionToRefs collected !! R = Some info →
       refCountVerified collected R info ∧ length info = referencesTo live R) ∧
    (∀ R, 0 < referencesTo live R → is_Some (resolutionToRefs collected !! R)).
Proof.
  destruct (verify false live liveObjects) as [released|] eqn:Hrun.
  - exact (proj1 (proj2 (collected_refCounts_verified SpecCache.impl sentinel inferredFile
             libraryLookupFile libraryName live program host "/src/tsconfig.json" false))
             liveObjects released Hrun).
  - vm_compute in Hrun. discriminate Hrun.
Defined.


Lemma cache_and_program_agree_sample :
  programResolutionsCached sentinel inferredFile live program host false ∧
  cachedResolutionsReported inferredFile live program host.
Proof.
  destruct (verify false live liveObjects) as [released|] eqn:Hrun.
  - exact (proj1 (cache_and_program_agree SpecCache.impl sentinel inferredFile
             libraryLookupFile libraryName live program host "/src/tsconfig.json" false)
             liveObjects released Hrun).
  - vm_compute in Hrun. discriminate Hrun.
Defined.

Lemma sentinel_not_materialized_sample :
  sentinelNotCached sentinel inferredFile live program host false.
Proof.
  destruct (verify false live liveObjects) as [released|] eqn:Hrun.
  - exact (proj1 (sentinel_not_materialized SpecCache.impl sentinel inferredFile
             libraryLookupFile libraryName live program host "/src/tsconfig.json" false)
             liveObjects released Hrun).
  - vm_compute in Hrun. discriminate Hrun.
Defined.


Lemma file_watches_compared_sample :
  ∃ collected, Scenario.collected false live liveObjects = Returns collected ∧
    fileWatchesAgree (fileWatchesOfAffectingLocations (cacheOf (expected collected)))
      (fileWatchesOfAffectingLocations live).
Proof.
  destruct (verify false live liveObjects) as [released|] eqn:Hrun.
  - exact (proj1 (proj2 (file_watches_compared SpecCache.impl sentinel inferredFile
             libraryLookupFile libraryName live program host "/src/tsconfig.json" false))
             liveObjects released Hrun).
  - vm_compute in Hrun. discriminate Hrun.
Defined.

Lemma cached_files_belong_to_program_sample :
  cachedFilesInProgram inferredFile live program host.
Proof.
  destruct (verify false live liveObjects) as [released|] eqn:Hrun.
  - exact (proj1 (cached_files_belong_to_program SpecCache.impl sentinel inferredFile
             libraryLookupFile libraryName live program host "/src/tsconfig.json" false)
             liveObjects released Hrun).
  - vm_compute in Hrun. discriminate Hrun.
Defined.


(** With [userResolvedModuleNames] set the verifier returns on a cache that
    lacks the module resolution the program reports for "bar" of [a.ts]: the
    program-to-cache direction is not asserted for modules. *)
Lemma module_resolutions_unchecked_when_user_resolved :
  ¬ (∀ userResolvedModuleNames actual objects released,
       verify userResolvedModuleNames actual objects = Returns released →
       programResolutionsCached sentinel inferredFile actual program host false).
Proof.
  intros Hclaim.
  destruct (verify true liveWithoutModules liveObjects) as [released|] eqn:Hrun.
  - destruct (Hclaim true liveWithoutModules liveObjects released Hrun) as [Hmod _].
    specialize (Hmod eq_refl (mkResolvedEntry bar "bar" None "/src/a.ts")).
    assert (Hin : mkResolvedEntry bar "bar" None "/src/a.ts"
                    ∈ forEachResolvedModule program None) by (vm_compute; by left).
    specialize (Hmod Hin). simpl in Hmod. by specialize (Hmod ltac:(done)).
  - vm_compute in Hrun. discriminate Hrun.
Qed.

(** With [userResolvedModuleNames] set the verifier returns on a cache that
    holds the sentinel at the key of the ambient module "fs" of [a.ts]. *)
Lemma sentinel_unchecked_when_user_resolved :
  ¬ (∀ userResolvedModuleNames actual objects released,
       verify userResolvedModuleNames actual objects = Returns released →
       sentinelNotCached sentinel inferredFile actual program host false).
Proof.
  intros Hclaim.
  destruct (verify true liveWithSentinel objectsWithWatchedSentinel) as [released|] eqn:Hrun.
  - destruct (Hclaim true liveWithSentinel objectsWithWatchedSentinel released Hrun)
      as [Hmod _].
    specialize (Hmod eq_refl (mkResolvedEntry sentinel "fs" None "/src/a.ts")).
    assert (Hin : mkResolvedEntry sentinel "fs" None "/src/a.ts"
                    ∈ forEachResolvedModule program None) by (vm_compute; right; by left).
    specialize (Hmod Hin eq_refl). by vm_compute in Hmod.
  - vm_compute in Hrun. discriminate Hrun.
Qed.

(** Two file watches whose resolution sets correspond through the
    cross-reference maps pass the comparison as the specification words it,
    and fail the comparison of the code, which is [===] on the two sets. *)
Lemma file_watch_resolutions_not_cross_referenced :
  fileWatcherCheckBySpec linkedState setObjects (Some shadowFileWatch) (Some liveFileWatch)
    = Returns () ∧
  verifyFileWatcherOfAffectingLocation "/src/tsconfig.json"
    (Some shadowFileWatch) (Some liveFileWatch) "fileWatchesOfAffectingLocations"
    = Throws.
Proof. split; vm_compute; reflexivity. Qed.

End ScenarioFacts.

(** ** The tally of the document registry verifier *)

Module DocumentRegistryTallyFacts.
Import DocumentRegistry DocumentRegistryTally.

Example expectedStats_sample :
  expectedStats sampleService = sampleStats ∧
  verifyDocumentRegistry sampleService = Returns ().
Proof. split; vm_compute; reflexivity. Qed.

Lemma Project_nested_ind (P : Project → Prop) :
  (∀ auto noDts program,
     (∀ p, auto = Some p → P p) → (∀ p, noDts = Some p → P p) →
     P (mkProject auto noDts program)) →
  ∀ project, P project.
Proof.
  intros Hstep. fix IH 1. intros [auto noDts program]. apply Hstep.
  - destruct auto as [a|]; [intros p [= <-]; apply IH | intros p [=]].
  - destruct noDts as [a|]; [intros p [= <-]; apply IH | intros p [=]].
Qed.

Lemma holders_app service k p kind l1 l2 :
  holders service k p kind (l1 ++ l2)
  = holders service k p kind l1 + holders service k p kind l2.
Proof. unfold holders. by rewrite filter_app, length_app. Qed.

Lemma holders_cons service k p kind x l :
  holders service k p kind (x :: l)
  = (if decide (countsFor service k p kind x) then 1 else 0) + holders service k p kind l.
Proof. unfold holders. rewrite filter_cons. by destruct (decide _). Qed.

Lemma collectFile_tallied service key f stats k p kind :
  tallied (collectFile service key f stats) k p kind
  = tallied stats k p kind + (if decide (countsFor service k p kind (key, f)) then 1 else 0).
Proof.
  unfold collectFile, tallied, countsFor. simpl.
  set (kwm := getDocumentRegistryBucketKeyWithMode service key (impliedNodeFormat f)).
  destruct (decide (kwm = k)) as [<-|Hk].
  - destruct (stats !! kwm) as [m|] eqn:Hm; rewrite lookup_insert_eq.
    + destruct (decide (resolvedPath f = p)) as [<-|Hp].
      * rewrite lookup_insert_eq.
        destruct (decide (scriptKind f = kind)) as [<-|Hkind].
        -- rewrite lookup_insert_eq, decide_True by done. simpl.
           by destruct (m !! resolvedPath f).
        -- rewrite lookup_insert_ne by done. rewrite decide_False by naive_solver.
           destruct (m !! resolvedPath f); simpl; [lia|]. rewrite lookup_empty. simpl. lia.
      * rewrite lookup_insert_ne by done. rewrite decide_False by naive_solver. lia.
    + destruct (decide (resolvedPath f = p)) as [<-|Hp].
      * rewrite lookup_insert_eq.
        destruct (decide (scriptKind f = kind)) as [<-|Hkind].
        -- by rewrite lookup_insert_eq, decide_True.
        -- rewrite lookup_insert_ne by done. rewrite decide_False by naive_solver.
           by rewrite lookup_empty.
      * rewrite lookup_insert_ne by done. rewrite decide_False by naive_solver.
        by rewrite lookup_empty.
  - rewrite decide_False by naive_solver.
    destruct (stats !! kwm); rewrite lookup_insert_ne by done; lia.
Qed.

Lemma collectFile_compact service key f stats :
  compact stats → compact (collectFile service key f stats).
Proof.
  intros Hc k sbp. unfold collectFile.
  set (kwm := getDocumentRegistryBucketKeyWithMode service key (impliedNodeFormat f)).
  assert (Hinner : ∀ (result : gmap ScriptKind nat),
    (∀ kind n, result !! kind = Some n → 0 < n) →
    <[scriptKind f := default 0 (result !! scriptKind f) + 1]> result ≠ ∅ ∧
    ∀ kind n, <[scriptKind f := default 0 (result !! scriptKind f) + 1]> result !! kind
                = Some n → 0 < n).
  { intros result Hpos. split; [apply insert_non_empty|].
    intros kind n. rewrite lookup_insert. case_decide; [intros [= <-]; lia | apply Hpos]. }
  destruct (stats !! kwm) as [m|] eqn:Hm.
  - rewrite lookup_insert. case_decide; [|apply Hc].
    intros [= <-]. split; [apply insert_non_empty|].
    intros p byKind. rewrite lookup_insert. case_decide.
    + intros [= <-]. apply Hinner. intros kind n.
      destruct (m !! resolvedPath f) as [r|] eqn:Hr; simpl; [|by rewrite lookup_empty].
      apply (proj2 (proj2 (Hc kwm m Hm) _ r Hr)).
    + intros Hp. apply (proj2 (Hc kwm m Hm) _ _ Hp).
  - rewrite lookup_insert. case_decide; [|apply Hc].
    intros [= <-]. split; [apply insert_non_empty|].
    intros p byKind. rewrite lookup_insert. case_decide; [|by rewrite lookup_empty].
    intros [= <-]. apply Hinner. intros kind n. by rewrite lookup_empty.
Qed.

Lemma collectFiles_tallied service key files stats k p kind :
  tallied (fold_left (fun stats f => collectFile service key f stats) files stats) k p kind
  = tallied stats k p kind + holders service k p kind ((fun f => (key, f)) <$> files).
Proof.
  revert stats. induction files as [|f files IH]; intros stats; cbn [fold_left].
  - unfold holders. simpl. lia.
  - rewrite IH, collectFile_tallied, fmap_cons, holders_cons. lia.
Qed.

Lemma collectFiles_compact service key files stats :
  compact stats →
  compact (fold_left (fun stats f => collectFile service key f stats) files stats).
Proof.
  revert stats. induction files as [|f files IH]; intros stats Hc; simpl; [done|].
  by apply IH, collectFile_compact.
Qed.

Lemma collectStats_tallied service project :
  ∀ stats k p kind,
    tallied (collectStats service project stats) k p kind
    = tallied stats k p kind + holders service k p kind (visitedFiles service project).
Proof.
  induction project as [auto noDts program IHa IHn] using Project_nested_ind.
  intros stats k p kind. simpl. rewrite !holders_app.
  set (s1 := match auto with Some host => collectStats service host stats | None => stats end).
  set (s2 := match noDts with Some n => collectStats service n s1 | None => s1 end).
  assert (H1 : tallied s1 k p kind = tallied stats k p kind
    + holders service k p kind
        (match auto with Some host => visitedFiles service host | None => [] end)).
  { subst s1. destruct auto as [a|]; [by apply IHa|]. unfold holders. simpl. lia. }
  assert (H2 : tallied s2 k p kind = tallied s1 k p kind
    + holders service k p kind
        (match noDts with Some n => visitedFiles service n | None => [] end)).
  { subst s2. destruct noDts as [a|]; [by apply IHn|]. unfold holders. simpl. lia. }
  destruct program as [program|].
  - rewrite collectFiles_tallied. lia.
  - replace (holders service k p kind []) with 0 by done. lia.
Qed.

Lemma collectStats_compact service project :
  ∀ stats, compact stats → compact (collectStats service project stats).
Proof.
  induction project as [auto noDts program IHa IHn] using Project_nested_ind.
  intros stats Hc. simpl.
  set (s1 := match auto with Some host => collectStats service host stats | None => stats end).
  set (s2 := match noDts with Some n => collectStats service n s1 | None => s1 end).
  assert (H1 : compact s1). { subst s1. destruct auto; [by apply IHa | done]. }
  assert (H2 : compact s2). { subst s2. destruct noDts; [by apply IHn | done]. }
  destruct program; [by apply collectFiles_compact | done].
Qed.

Lemma projects_tallied service projects stats k p kind :
  tallied (fold_left (fun stats project => collectStats service project stats)
             projects stats) k p kind
  = tallied stats k p kind + holders service k p kind (projects ≫= visitedFiles service).
Proof.
  revert stats. induction projects as [|project projects IH]; intros stats; cbn [fold_left].
  - unfold holders. simpl. lia.
  - rewrite bind_cons, IH, collectStats_tallied, holders_app. lia.
Qed.

Lemma projects_compact service projects stats :
  compact stats →
  compact (fold_left (fun stats project => collectStats service project stats)
             projects stats).
Proof.
  revert stats. induction projects as [|project projects IH]; intros stats Hc; simpl; [done|].
  by apply IH, collectStats_compact.
Qed.

Lemma expectedStats_tallied service k p kind :
  tallied (expectedStats service) k p kind
  = holders service k p kind (allVisitedFiles service).
Proof.
  unfold expectedStats, allVisitedFiles. rewrite projects_tallied.
  unfold tallied. by rewrite lookup_empty.
Qed.

Lemma expectedStats_is_compact service : compact (expectedStats service).
Proof. apply projects_compact. intros k sbp. by rewrite lookup_empty. Qed.

(** X1.  The expected count of a bucket, a path and a script kind is the
    number of files with that bucket key, resolved path and script kind that
    the projects and, recursively, their auxiliary projects hold in their
    current programs; the tally has no empty bucket, no empty path and no
    zero count. *)
Theorem expectedStats_counts_holders (service : ProjectService) :
  (∀ keyWithMode p kind,
     tallied (expectedStats service) keyWithMode p kind
     = holders service keyWithMode p kind (allVisitedFiles service)) ∧
  compact (expectedStats service).
Proof.
  unfold expectedStats, allVisitedFiles. split.
  - intros keyWithMode p kind. rewrite projects_tallied.
    unfold tallied. by rewrite lookup_empty.
  - apply projects_compact. intros keyWithMode statsByPath. by rewrite lookup_empty.
Qed.

Lemma compact_ext (s1 s2 : DocumentRegistryExpectedStats) :
  compact s1 → compact s2 →
  (∀ k p kind, tallied s1 k p kind = tallied s2 k p kind) → s1 = s2.
Proof.
  assert (Hkinds : ∀ r1 r2 : gmap ScriptKind nat,
    (∀ kind n, r1 !! kind = Some n → 0 < n) → (∀ kind n, r2 !! kind = Some n → 0 < n) →
    (∀ kind, default 0 (r1 !! kind) = default 0 (r2 !! kind)) → r1 = r2).
  { intros r1 r2 H1 H2 Heq. apply map_eq. intros kind. specialize (Heq kind).
    destruct (r1 !! kind) as [n1|] eqn:E1, (r2 !! kind) as [n2|] eqn:E2; simpl in Heq.
    - by subst.
    - apply H1 in E1. lia.
    - apply H2 in E2. lia.
    - done. }
  assert (Hhalf : ∀ s1 s2 : DocumentRegistryExpectedStats, compact s1 →
    (∀ k p kind, tallied s1 k p kind = tallied s2 k p kind) →
    ∀ k m1 p r1, s1 !! k = Some m1 → m1 !! p = Some r1 →
      ∃ m2 r2, s2 !! k = Some m2 ∧ m2 !! p = Some r2).
  { intros t1 t2 Hc Heq k m1 p r1 Hk Hp.
    destruct (Hc k m1 Hk) as [_ Hpaths]. destruct (Hpaths p r1 Hp) as [Hne Hpos].
    apply map_choose in Hne as (kind & n & Hn). specialize (Hpos kind n Hn).
    specialize (Heq k p kind). unfold tallied in Heq. rewrite Hk, Hp, Hn in Heq.
    simpl in Heq. destruct (t2 !! k) as [m2|]; [|lia].
    destruct (m2 !! p) as [r2|] eqn:Hr2; [by exists m2, r2 | lia]. }
  intros Hc1 Hc2 Heq. apply map_eq. intros k.
  destruct (s1 !! k) as [m1|] eqn:E1, (s2 !! k) as [m2|] eqn:E2.
  - f_equal. apply map_eq. intros p.
    destruct (m1 !! p) as [r1|] eqn:P1, (m2 !! p) as [r2|] eqn:P2.
    + f_equal. apply Hkinds.
      * apply (proj2 (proj2 (Hc1 k m1 E1) p r1 P1)).
      * apply (proj2 (proj2 (Hc2 k m2 E2) p r2 P2)).
      * intros kind. specialize (Heq k p kind). unfold tallied in Heq.
        by rewrite E1, E2, P1, P2 in Heq.
    + destruct (Hhalf s1 s2 Hc1 Heq k m1 p r1 E1 P1) as (m2' & r2 & Hm2 & Hr2).
      congruence.
    + destruct (Hhalf s2 s1 Hc2 (fun k p kind => eq_sym (Heq k p kind)) k m2 p r2 E2 P2)
        as (m1' & r1 & Hm1 & Hr1).
      congruence.
    + done.
  - destruct (Hc1 k m1 E1) as [Hne _]. apply map_choose in Hne as (p & r1 & Hp).
    destruct (Hhalf s1 s2 Hc1 Heq k m1 p r1 E1 Hp) as (m2' & r2 & Hm2 & Hr2). congruence.
  - destruct (Hc2 k m2 E2) as [Hne _]. apply map_choose in Hne as (p & r2 & Hp).
    destruct (Hhalf s2 s1 Hc2 (fun k p kind => eq_sym (Heq k p kind)) k m2 p r2 E2 Hp)
      as (m1' & r1 & Hm1 & Hr1).
    congruence.
  - done.
Qed.

(** X2.  The expected stats do not depend on the order in which
    [forEachProject] visits the projects. *)
Theorem expectedStats_order_independent (service : ProjectService)
    (projects : list Project) :
  projects ≡ₚ forEachProject service →
  expectedStats (withProjects service projects) = expectedStats service.
Proof.
  intros Hperm. apply compact_ext; try apply expectedStats_is_compact.
  intros k p kind. rewrite !expectedStats_tallied.
  unfold allVisitedFiles, holders. simpl.
  assert (Hsame : ∀ project, visitedFiles (withProjects service projects) project
                             = visitedFiles service project).
  { induction project as [auto noDts program IHa IHn] using Project_nested_ind.
    simpl. f_equal; [|f_equal].
    - destruct auto; [by apply IHa | done].
    - destruct noDts; [by apply IHn | done]. }
  assert (Hvisited : projects ≫= visitedFiles (withProjects service projects)
                     ≡ₚ forEachProject service ≫= visitedFiles service).
  { rewrite (list_bind_ext _ (visitedFiles service) projects projects Hsame eq_refl).
    by apply bind_Permutation. }
  rewrite Hvisited. reflexivity.
Qed.

Lemma expectedStats_order_independent_sample :
  reverse (forEachProject sampleService) ≡ₚ forEachProject sampleService ∧
  expectedStats (withProjects sampleService (reverse (forEachProject sampleService)))
  = expectedStats sampleService.
Proof.
  split; [apply reverse_Permutation|].
  apply (expectedStats_order_independent sampleService
           (reverse (forEachProject sampleService))).
  apply reverse_Permutation.
Defined.

Lemma verifyDocumentRegistryStats_Returns (buckets : Buckets)
    (stats : DocumentRegistryExpectedStats) :
  verifyDocumentRegistryStats buckets stats = Returns () ↔
  registryMatchesStats buckets stats.
Proof.
  unfold verifyDocumentRegistryStats, registryMatchesStats.
  rewrite seq_Returns, !mapForEach_Returns. split.
  - intros [Hb Hs]. split; [|split].
    + intros key bucketEntries path entry Hkey Hpath.
      specialize (Hb key bucketEntries Hkey). simpl in Hb.
      apply seq_Returns in Hb as [Hb _].
      rewrite mapForEach_Returns in Hb.
      apply DocumentRegistryFacts.verifyBucketEntry_Returns, (Hb path entry Hpath).
    + intros key statsByPath path tally Hkey Hpath.
      specialize (Hs key statsByPath Hkey). simpl in Hs.
      apply Debug_assert_decide in Hs as [bucketEntries Hbk].
      exists bucketEntries. split; [done|].
      specialize (Hb key bucketEntries Hbk). simpl in Hb.
      apply seq_Returns in Hb as [_ Hb].
      rewrite optMapForEach_Returns in Hb.
      specialize (Hb statsByPath Hkey path tally Hpath). simpl in Hb.
      by apply Debug_assert_decide in Hb.
    + intros key [statsByPath Hkey].
      specialize (Hs key statsByPath Hkey). simpl in Hs.
      by apply Debug_assert_decide in Hs.
  - intros (Hentry & Hpath & Hkey). split.
    + intros key bucketEntries Hbk. simpl.
      rewrite seq_Returns, mapForEach_Returns, optMapForEach_Returns. split.
      * intros path entry He. apply DocumentRegistryFacts.verifyBucketEntry_Returns. eauto.
      * intros statsByPath Hst path tally Ht. simpl. apply Debug_assert_decide.
        destruct (Hpath key statsByPath path tally Hst Ht) as (be & Hbe & Hin).
        rewrite Hbk in Hbe. by injection Hbe as <-.
    + intros key statsByPath Hst. simpl. apply Debug_assert_decide. eauto.
Qed.

Lemma holders_pos service k p kind visited :
  0 < holders service k p kind visited ↔
  ∃ x, x ∈ visited ∧ countsFor service k p kind x.
Proof.
  unfold holders. split.
  - intros Hlen. destruct (filter _ visited) as [|x l] eqn:Hf; [simpl in Hlen; lia|].
    exists x. assert (Hmem : x ∈ filter (countsFor service k p kind) visited)
      by (rewrite Hf; left).
    apply list_elem_of_filter in Hmem as [? ?]. done.
  - intros (x & Hin & Hx).
    assert (Hmem : x ∈ filter (countsFor service k p kind) visited)
      by by apply list_elem_of_filter.
    destruct (filter _ visited); [by apply elem_of_nil in Hmem | simpl; lia].
Qed.

Lemma tallied_lookup stats k p kind n :
  0 < n → tallied stats k p kind = n →
  ∃ statsByPath tally, stats !! k = Some statsByPath ∧ statsByPath !! p = Some tally ∧
    tally !! kind = Some n.
Proof.
  unfold tallied. intros Hn Ht.
  destruct (stats !! k) as [m|] eqn:Hm; [|lia].
  destruct (m !! p) as [r|] eqn:Hr; [|lia].
  destruct (r !! kind) as [c|] eqn:Hc; simpl in Ht; [|lia].
  subst. by exists m, r.
Qed.

Lemma tallied_zero stats k p kind statsByPath tally :
  compact stats → stats !! k = Some statsByPath → statsByPath !! p = Some tally →
  tallied stats k p kind = 0 → tally !! kind = None.
Proof.
  intros Hc Hk Hp. unfold tallied. rewrite Hk, Hp.
  destruct (tally !! kind) as [c|] eqn:Hkind; [|done]. simpl. intros ->.
  apply (proj2 (proj2 (Hc k statsByPath Hk) p tally Hp)) in Hkind. lia.
Qed.

Lemma entryMatchesTally_counted service key p entry :
  entryMatchesTally entry (expectedStats service !! key ≫= (.!! p)) ↔
  entryCounted service key p entry.
Proof.
  pose proof (expectedStats_is_compact service) as Hc.
  pose proof (expectedStats_tallied service key p) as Ht.
  destruct entry as [e|entries]; simpl.
  - split.
    + intros (tally & Hexp & Hsz & Hget).
      destruct (expectedStats service !! key) as [m|] eqn:Hk; [|done]. simpl in Hexp.
      pose proof (proj2 (proj2 (Hc key m Hk) p tally Hexp)) as Hpos.
      split; [by apply (Hpos _ _ Hget)|].
      intros kind. rewrite <- Ht. unfold tallied. rewrite Hk, Hexp.
      case_decide as Hkind; [by subst; rewrite Hget|].
      assert (Hrest : delete (scriptKind (sourceFile e)) tally = ∅).
      { apply map_size_empty_inv. rewrite map_size_delete_Some by eauto. by rewrite Hsz. }
      rewrite <- (lookup_delete_ne tally (scriptKind (sourceFile e)) kind) by done.
      by rewrite Hrest, lookup_empty.
    + intros [Hpos Hcount].
      pose proof (Hcount (scriptKind (sourceFile e))) as Hown.
      rewrite decide_True in Hown by done. rewrite <- Ht in Hown.
      apply tallied_lookup in Hown as (m & tally & Hk & Hp & Hkind); [|done].
      exists tally. rewrite Hk. simpl. split; [done|]. split; [|done].
      assert (tally = {[scriptKind (sourceFile e) := languageServiceRefCount e]}) as ->.
      { apply map_eq. intros kind.
        destruct (decide (kind = scriptKind (sourceFile e))) as [->|Hne].
        - by rewrite lookup_singleton_eq.
        - rewrite lookup_singleton_ne by done.
          apply (tallied_zero (expectedStats service) key p kind m); try done.
          rewrite Ht, Hcount. by rewrite decide_False. }
      apply map_size_singleton.
  - split.
    + intros [Hreal Htally] kind.
      destruct (entries !! kind) as [real|] eqn:Hkind.
      * destruct (Hreal kind real Hkind) as (tally & Hexp & Hget).
        destruct (expectedStats service !! key) as [m|] eqn:Hk; [|done]. simpl in Hexp.
        split; [by apply (proj2 (proj2 (Hc key m Hk) p tally Hexp) _ _ Hget)|].
        rewrite <- Ht. unfold tallied. by rewrite Hk, Hexp, Hget.
      * rewrite <- Ht. unfold tallied.
        destruct (expectedStats service !! key) as [m|] eqn:Hk; [|done].
        destruct (m !! p) as [tally|] eqn:Hp; [|done].
        destruct (tally !! kind) as [c|] eqn:Hc'; [|done].
        destruct (Htally tally kind c) as [real Hreal']; [by simpl | done | congruence].
    + intros Hcount. split.
      * intros kind real Hkind. specialize (Hcount kind). rewrite Hkind in Hcount.
        destruct Hcount as [Hpos Hcount]. rewrite <- Ht in Hcount.
        apply tallied_lookup in Hcount as (m & tally & Hk & Hp & Hget); [|done].
        exists tally. by rewrite Hk.
      * intros tally kind count Hexp Hget. specialize (Hcount kind).
        destruct (entries !! kind) as [real|]; [by eexists|].
        destruct (expectedStats service !! key) as [m|] eqn:Hk; [|done]. simpl in Hexp.
        rewrite <- Ht in Hcount.
        rewrite (tallied_zero (expectedStats service) key p kind m tally Hc Hk Hexp Hcount)
          in Hget.
        done.
Qed.

Lemma registryMatchesStats_counted service :
  registryMatchesStats (getBuckets service) (expectedStats service) ↔
  registryCounted service.
Proof.
  pose proof (expectedStats_is_compact service) as Hc.
  unfold registryMatchesStats, registryCounted. split.
  - intros (Hentry & Hpath & Hkey). split.
    + intros key be p entry Hk Hp. apply entryMatchesTally_counted. eauto.
    + intros [key f] Hin. simpl.
      set (k := getDocumentRegistryBucketKeyWithMode service key (impliedNodeFormat f)).
      assert (Hpos : 0 < holders service k (resolvedPath f) (scriptKind f)
                           (allVisitedFiles service)).
      { apply holders_pos. exists (key, f). split; [done|]. by unfold countsFor. }
      rewrite <- expectedStats_tallied in Hpos.
      destruct (tallied_lookup (expectedStats service) k (resolvedPath f) (scriptKind f) _ Hpos eq_refl)
        as (m & tally & Hm & Htally & _).
      eauto.
  - intros [Hentry Hvis]. split; [|split].
    + intros key be p entry Hk Hp. apply entryMatchesTally_counted. eauto.
    + intros key m p tally Hk Hp.
      destruct (proj2 (Hc key m Hk) p tally Hp) as [Hne Hpos].
      apply map_choose in Hne as (kind & n & Hn). specialize (Hpos kind n Hn).
      assert (Hh : 0 < holders service key p kind (allVisitedFiles service)).
      { rewrite <- expectedStats_tallied. unfold tallied. by rewrite Hk, Hp, Hn. }
      apply holders_pos in Hh as ([key' f] & Hin & Hkey & Hpath & _).
      destruct (Hvis _ Hin) as (be & Hbe & Hsome). simpl in *. subst. eauto.
    + intros key [m Hk].
      destruct (Hc key m Hk) as [Hne Hpaths].
      apply map_choose in Hne as (p & tally & Hp).
      destruct (Hpaths p tally Hp) as [Hne Hpos].
      apply map_choose in Hne as (kind & n & Hn). specialize (Hpos kind n Hn).
      assert (Hh : 0 < holders service key p kind (allVisitedFiles service)).
      { rewrite <- expectedStats_tallied. unfold tallied. by rewrite Hk, Hp, Hn. }
      apply holders_pos in Hh as ([key' f] & Hin & Hkey & Hpath & _).
      destruct (Hvis _ Hin) as (be & Hbe & Hsome). simpl in *. subst. eauto.
Qed.

(** X3.  [verifyDocumentRegistry] returns exactly when the registry counts
    the holders of its documents: a single entry is held
    [languageServiceRefCount] times, at least once and only with its own
    script kind; a map by script kind gives for each of its kinds the
    positive number of holders and no kind is held that it lacks; and every
    file of every project has an entry under its bucket key and resolved
    path.  Otherwise the call throws. *)
Theorem verifyDocumentRegistry_counts_holders (service : ProjectService) :
  (verifyDocumentRegistry service = Returns () ↔ registryCounted service) ∧
  (¬ registryCounted service → verifyDocumentRegistry service = Throws).
Proof.
  assert (Hiff : verifyDocumentRegistry service = Returns () ↔ registryCounted service).
  { unfold verifyDocumentRegistry.
    by rewrite verifyDocumentRegistryStats_Returns, registryMatchesStats_counted. }
  split; [done|].
  intros Hno. destruct (outcome_unit_cases (verifyDocumentRegistry service)) as [Hr|Hr];
    [|done].
  by apply Hiff in Hr.
Qed.

Lemma verifyDocumentRegistry_counts_holders_sample :
  registryCounted sampleService.
Proof.
  apply (proj1 (verifyDocumentRegistry_counts_holders sampleService)).
  vm_compute. reflexivity.
Defined.

End DocumentRegistryTallyFacts.

(** ** The comparison of resolution sets *)

Section ResolutionSets.
Context {H : Type}.

Lemma verifyResolutionSet_Returns (st : VerifierState H) (shadowSide liveSide : option (gset ref))
    (caption : string) :
  verifyResolutionSet st shadowSide liveSide caption = Returns () ↔
  (∀ e, e ∈ default ∅ shadowSide →
     ∃ r, expectedToResolution st !! e = Some r ∧ r ∈ default ∅ liveSide) ∧
  (∀ r, r ∈ default ∅ liveSide →
     ∃ e, resolutionToExpected st !! r = Some e ∧ e ∈ default ∅ shadowSide).
Proof.
  unfold verifyResolutionSet. rewrite seq_Returns, !optSetForEach_Returns.
  assert (Hhalf : ∀ (m : gmap ref ref) (X Y : option (gset ref)),
    (∀ s', X = Some s' → set_Forall (fun x =>
       Debug_assert
         match m !! x with
         | Some counterpart =>
             default false ((fun y => bool_decide (counterpart ∈ y)) <$> Y)
         | None => false
         end = Returns ()) s')
    ↔ ∀ x, x ∈ default ∅ X → ∃ y, m !! x = Some y ∧ y ∈ default ∅ Y).
  { intros m X Y. split.
    - intros Hall x Hx. destruct X as [s|]; simpl in *; [|set_solver].
      specialize (Hall s eq_refl x Hx). simpl in Hall.
      apply Debug_assert_Returns in Hall.
      destruct (m !! x) as [y|]; [|done]. exists y. split; [done|].
      destruct Y as [t|]; simpl in *; [by apply bool_decide_eq_true in Hall | done].
    - intros Hsub s -> x Hx. simpl in *. apply Debug_assert_Returns.
      destruct (Hsub x Hx) as (y & -> & Hy).
      destruct Y as [t|]; simpl in *; [by apply bool_decide_eq_true | set_solver]. }
  by rewrite !Hhalf.
Qed.

Lemma elem_of_translated (st : VerifierState H) (resolutions : gset ref) r :
  r ∈ translated st resolutions ↔
  ∃ e, e ∈ resolutions ∧ expectedToResolution st !! e = Some r.
Proof.
  unfold translated. rewrite elem_of_list_to_set, list_elem_of_omap.
  split; intros (e & He & Hr); exists e; split; try done.
  - by apply elem_of_elements.
  - by apply elem_of_elements in He.
Qed.

Lemma verifyResolutionSet_agree (st : VerifierState H) (shadowSide liveSide : gset ref)
    (caption : string) :
  mutuallyInverse st →
  verifyResolutionSet st (Some shadowSide) (Some liveSide) caption = Returns () ↔
  resolutionSetsAgree st shadowSide liveSide.
Proof.
  intros Hinv. rewrite verifyResolutionSet_Returns. simpl.
  unfold resolutionSetsAgree. split.
  - intros [Hexp Hact]. split.
    + intros e He. destruct (Hexp e He) as (r & Hr & _). by apply elem_of_dom_2 in Hr.
    + apply set_eq. intros r. rewrite elem_of_translated. split.
      * intros Hr. destruct (Hact r Hr) as (e & He & Hin). exists e. split; [done|].
        by apply Hinv.
      * intros (e & He & Hr). destruct (Hexp e He) as (r' & Hr' & Hin). congruence.
  - intros [Hsub ->]. split.
    + intros e He. specialize (Hsub e He). apply elem_of_dom in Hsub as [r Hr].
      exists r. split; [done|]. apply elem_of_translated. eauto.
    + intros r (e & He & Hr)%elem_of_translated. exists e. split; [|done]. by apply Hinv.
Qed.

(** X6.  Between maps that are inverse of each other, [verifyResolutionSet]
    returns exactly when every shadow resolution of the expected set has a
    live counterpart and the actual set is the set of these counterparts;
    [verifyMapOfResolutionSet] returns exactly when this holds at every path
    that both maps have and the set at a path that one of them lacks is
    empty. *)
Theorem verifyResolutionSet_translates (st : VerifierState H) :
  mutuallyInverse st →
  (∀ shadowSide liveSide caption,
     verifyResolutionSet st (Some shadowSide) (Some liveSide) caption = Returns () ↔
     resolutionSetsAgree st shadowSide liveSide) ∧
  (∀ shadowSide liveSide caption,
     verifyMapOfResolutionSet st (Some shadowSide) (Some liveSide) caption = Returns () ↔
     resolutionSetMapsAgree st shadowSide liveSide).
Proof.
  intros Hinv. split; [intros; by apply verifyResolutionSet_agree|].
  intros shadowSide liveSide caption. unfold verifyMapOfResolutionSet.
  rewrite verifyMap_Returns. unfold resolutionSetMapsAgree.
  assert (Hnone_r : ∀ (e : gset ref) c,
    verifyResolutionSet st (Some e) None c = Returns () ↔ e = ∅).
  { intros e c. rewrite verifyResolutionSet_Returns. simpl. split.
    - intros [He _]. apply set_eq. intros x. split; [|set_solver].
      intros Hx. destruct (He x Hx) as (? & _ & ?). set_solver.
    - intros ->. set_solver. }
  assert (Hnone_l : ∀ (a : gset ref) c,
    verifyResolutionSet st None (Some a) c = Returns () ↔ a = ∅).
  { intros a c. rewrite verifyResolutionSet_Returns. simpl. split.
    - intros [_ Ha]. apply set_eq. intros x. split; [|set_solver].
      intros Hx. destruct (Ha x Hx) as (? & _ & ?). set_solver.
    - intros ->. set_solver. }
  split.
  - intros [Hexp Hact] p.
    destruct (shadowSide !! p) as [e|] eqn:He, (liveSide !! p) as [a|] eqn:Ha.
    + specialize (Hexp p e He). rewrite Ha in Hexp. by apply verifyResolutionSet_agree in Hexp.
    + specialize (Hexp p e He). rewrite Ha in Hexp. by apply Hnone_r in Hexp.
    + specialize (Hact p a Ha). rewrite He in Hact. by apply Hnone_l in Hact.
    + done.
  - intros Hagree. split.
    + intros p e He. specialize (Hagree p). rewrite He in Hagree.
      destruct (liveSide !! p); [by apply verifyResolutionSet_agree | by apply Hnone_r].
    + intros p a Ha. specialize (Hagree p). rewrite Ha in Hagree.
      destruct (shadowSide !! p); [by apply verifyResolutionSet_agree | by apply Hnone_l].
Qed.

(** X13.  [verifySet] returns exactly when the two sets have the same
    elements, an undefined set counting as an empty one, and throws
    otherwise. *)
Theorem verifySet_same_elements (shadowSide liveSide : option (gset string))
    (caption : string) :
  (verifySet shadowSide liveSide caption = Returns () ↔
   default ∅ shadowSide = default ∅ liveSide) ∧
  (default ∅ shadowSide ≠ default ∅ liveSide →
   verifySet shadowSide liveSide caption = Throws).
Proof.
  assert (Hiff : verifySet shadowSide liveSide caption = Returns () ↔
                 default ∅ shadowSide = default ∅ liveSide).
  { rewrite verifySet_Returns. split; [intros [? ?]; set_solver | intros ->; set_solver]. }
  split; [done|]. intros Hne.
  destruct (outcome_unit_cases (verifySet shadowSide liveSide caption)) as [Hr|Hr]; [|done].
  by apply Hiff in Hr.
Qed.

Lemma verifySet_same_elements_sample :
  verifySet None (Some ∅) "symlinks" = Returns () ∧
  verifySet (Some {[ "/a" ]}) None "symlinks" = Throws.
Proof.
  split.
  - apply (proj1 (verifySet_same_elements None (Some ∅) "symlinks")). done.
  - apply (proj2 (verifySet_same_elements (Some {[ "/a" ]}) None "symlinks")).
    simpl. set_solver.
Defined.

End ResolutionSets.

(** ** The cross-reference maps *)

Section CrossReferences.

Context {H : Type} (impl : ResolutionCacheImpl H).
Variable emptyResolution : ref.
Variable getAutomaticTypeDirectiveContainingFile : CompilerOptions → string → string.
Variable getInferredLibraryNameResolveFrom : CompilerOptions → string → string → string.
Variable getLibraryNameFromLibFileName : string → string.
Variable actual : ResolutionCache.
Variable actualProgram : Program.
Variable resolutionHostCacheHost : ResolutionCacheHost.
Variable projectName : string.
Variable userResolvedModuleNames : bool.

(** A property of the state that the collection keeps, if every call of
    [collectResolution] and every write to the shadow cache keeps it. *)
Section Invariant.
Variable P : VerifierState H → Prop.
Hypothesis P_set_cache : ∀ c st, P st → P (set_cache c st).
Hypothesis P_collectResolution :
  ∀ cacheType fileName resolved resolvedFileName name mode defer st e st',
    collectResolution impl cacheType fileName resolved resolvedFileName name mode defer st
      = Returns (e, st') →
    P st → P st'.

Lemma collectEntry_invariant cacheType fileName getName defer storeExpected
    getProgramResolutions entry (loop loop' : bool * VerifierState H) :
  collectEntry impl cacheType fileName getName defer storeExpected getProgramResolutions
    entry loop = Returns loop' →
  P loop.2 → P loop'.2.
Proof.
  destruct entry as [[name mode] resolved], loop as [flag st].
  intros (object & e & st1 & _ & Hc & _ & ->)%collectEntry_Returns HP.
  apply P_collectResolution in Hc; [|done].
  apply P_set_cache. destruct flag; [done|]. by apply P_set_cache.
Qed.

Lemma collectResolutionToRefFromCache_invariant cacheType fileName cache getName defer
    storeExpected getProgramResolutions (st st' : VerifierState H) :
  collectResolutionToRefFromCache impl getAutomaticTypeDirectiveContainingFile
    actualProgram resolutionHostCacheHost cacheType fileName cache getName defer
    storeExpected getProgramResolutions st = Returns st' →
  P st → P st'.
Proof.
  unfold collectResolutionToRefFromCache. intros Hrun HP.
  apply bind_Returns in Hrun as ([] & _ & Hrun).
  apply bind_Returns in Hrun as (loop & Hloop & [= <-]).
  apply (forEachS_Returns_inv _ (fun p => P p.2) _ (false, st) loop
           (fun x s1 s2 _ Hp Hb => collectEntry_invariant _ _ _ _ _ _ x s1 s2 Hb Hp)
           HP Hloop).
Qed.

Lemma collectLibrary_invariant entry (st st' : VerifierState H) :
  collectLibrary impl getInferredLibraryNameResolveFrom getLibraryNameFromLibFileName
    actualProgram resolutionHostCacheHost entry st = Returns st' →
  P st → P st'.
Proof.
  destruct entry as [lib resolved]. unfold collectLibrary. intros Hb HP.
  apply bind_Returns in Hb as (object & _ & Hb).
  apply bind_Returns in Hb as ([e s3] & Hc & [= <-]).
  apply P_set_cache. by eapply P_collectResolution.
Qed.

Lemma collect_invariant (st collected : VerifierState H) :
  collect impl emptyResolution getAutomaticTypeDirectiveContainingFile
    getInferredLibraryNameResolveFrom getLibraryNameFromLibFileName
    actual actualProgram resolutionHostCacheHost userResolvedModuleNames st
    = Returns collected →
  P st →
  ∃ st3 finished, P st3 ∧ collected = set_expected finished st3.
Proof.
  intros (st1 & st2 & st3 & finished & H1 & H2 & H3 & _ & _ & _ & _ & ->)%collect_Returns HP.
  exists st3, finished. split; [|done].
  apply (forEachS_Returns_inv _ P _ _ _
           (fun x s1 s2 _ Hp Hb => collectLibrary_invariant x s1 s2 Hb Hp)) in H3; [done|].
  refine (forEachS_Returns_inv _ P _ _ _ _ _ H2).
  { intros [p c] s1 s2 _ Hp Hb. by eapply collectResolutionToRefFromCache_invariant. }
  refine (forEachS_Returns_inv _ P _ _ _ _ HP H1).
  intros [p c] s1 s2 _ Hp Hb. by eapply collectResolutionToRefFromCache_invariant.
Qed.

End Invariant.

Lemma initialState_maps (objects : Store) (st : VerifierState H) :
  initialState impl actual resolutionHostCacheHost objects = Returns st →
  expectedToResolution st = ∅ ∧ resolutionToExpected st = ∅ ∧ resolutionToRefs st = ∅.
Proof.
  unfold initialState. destruct (createResolutionCache _ _ _ _) as [c h].
  by intros (started & _ & [= <-])%bind_Returns.
Qed.

Lemma collectResolution_crossReferenced cacheType fileName resolved resolvedFileName
    name mode defer (st : VerifierState H) e st' :
  collectResolution impl cacheType fileName resolved resolvedFileName name mode defer st
    = Returns (e, st') →
  crossReferenced st → crossReferenced st'.
Proof.
  unfold collectResolution, crossReferenced. intros Hrun [Hdom Hlink].
  apply bind_Returns in Hrun as ([e1 st1] & Hfirst & Hrun).
  apply bind_Returns in Hrun as (watched & _ & [= <- <-]). simpl.
  destruct (resolutionToRefs st !! resolved) as [existing|] eqn:Hex.
  - destruct (resolutionToExpected st !! resolved); [|done].
    injection Hfirst as <- <-. simpl. split; [|done].
    rewrite dom_insert_L, Hdom.
    apply elem_of_dom_2 in Hex. set_solver.
  - apply bind_Returns in Hfirst as (object & _ & [= <- <-]). simpl. split.
    + rewrite !dom_insert_L. by rewrite Hdom.
    + intros e' r'. rewrite lookup_insert. case_decide as He.
      * intros [= <-]. rewrite lookup_insert_eq. congruence.
      * intros Hr%Hlink. rewrite lookup_insert_ne; [done|].
        intros <-. apply elem_of_dom_2 in Hr. rewrite Hdom in Hr.
        by apply not_elem_of_dom in Hex.
Qed.

(** X4.  When the collection returns, [resolutionToExpected] has exactly the
    keys of [resolutionToRefs], so that the lookups the verifier makes with
    [!] find an entry, and a shadow resolution recorded for a live one is
    recorded the other way round. *)
Theorem collectedState_crossReferenced (objects : Store) (collected : VerifierState H) :
  collectedState impl emptyResolution getAutomaticTypeDirectiveContainingFile
    getInferredLibraryNameResolveFrom getLibraryNameFromLibFileName actual actualProgram
    resolutionHostCacheHost userResolvedModuleNames objects = Returns collected →
  crossReferenced collected ∧
  ∀ R info, resolutionToRefs collected !! R = Some info →
    is_Some (resolutionToExpected collected !! R).
Proof.
  unfold collectedState. intros Hrun.
  apply bind_Returns in Hrun as (st & Hinit & Hcollect).
  apply initialState_maps in Hinit as (He & Hr & Hrefs).
  assert (Hcross : crossReferenced collected).
  { apply (collect_invariant crossReferenced) in Hcollect as (st3 & finished & H3 & ->).
    - done.
    - done.
    - intros *. apply collectResolution_crossReferenced.
    - unfold crossReferenced. rewrite He, Hr, Hrefs. split; [done|].
      intros e r. by rewrite lookup_empty. }
  split; [done|].
  intros R info HR. apply elem_of_dom. rewrite (proj1 Hcross). by apply elem_of_dom_2 in HR.
Qed.

Lemma collectResolution_linked cacheType fileName resolved resolvedFileName
    name mode defer (st : VerifierState H) e st' :
  watchKeepsObjects impl →
  collectResolution impl cacheType fileName resolved resolvedFileName name mode defer st
    = Returns (e, st') →
  linked st → linked st'.
Proof.
  intros Hkeeps Hrun (Hcross & Hback & Hheap).
  split; [by eapply collectResolution_crossReferenced|].
  destruct Hcross as [Hdom Hlink].
  unfold collectResolution in Hrun.
  apply bind_Returns in Hrun as ([e1 st1] & Hfirst & Hrun).
  apply bind_Returns in Hrun as (watched & Hwatch%Hkeeps & [= <- <-]). simpl.
  destruct (resolutionToRefs st !! resolved) as [existing|] eqn:Hex.
  - destruct (resolutionToExpected st !! resolved); [|done].
    injection Hfirst as <- <-. simpl in *. split; [done|]. set_solver.
  - apply bind_Returns in Hfirst as (object & _ & [= <- <-]). simpl in *.
    pose proof (is_fresh (dom (heap (expected st)))) as Hfresh.
    set (e := fresh (dom (heap (expected st)))) in *.
    assert (Hnew : expectedToResolution st !! e = None).
    { apply not_elem_of_dom. set_solver. }
    split.
    + intros r' e'. rewrite lookup_insert. case_decide as Hr.
      * intros [= <-]. subst r'. by rewrite lookup_insert_eq.
      * intros He'%Hback. rewrite lookup_insert_ne; [done|].
        intros <-. congruence.
    + rewrite dom_insert_L. rewrite dom_insert_L in Hwatch. set_solver.
Qed.

Lemma collectedState_linked (objects : Store) (collected : VerifierState H) :
  watchKeepsObjects impl →
  collectedState impl emptyResolution getAutomaticTypeDirectiveContainingFile
    getInferredLibraryNameResolveFrom getLibraryNameFromLibFileName actual actualProgram
    resolutionHostCacheHost userResolvedModuleNames objects = Returns collected →
  mutuallyInverse collected.
Proof.
  unfold collectedState. intros Hkeeps Hrun.
  apply bind_Returns in Hrun as (st & Hinit & Hcollect).
  apply initialState_maps in Hinit as (He & Hr & Hrefs).
  apply (collect_invariant linked) in Hcollect as (st3 & finished & H3 & ->).
  - destruct H3 as ([_ Hlink] & Hback & _). intros e r. split; [apply Hlink | apply Hback].
  - intros c st' (Hc & Hb & Hh). done.
  - intros *. by apply collectResolution_linked.
  - unfold linked, crossReferenced. rewrite He, Hr, Hrefs. repeat split.
    + intros e r. by rewrite lookup_empty.
    + intros r e. by rewrite lookup_empty.
    + rewrite dom_empty_L. set_solver.
Qed.

(** X5.  If watching a resolution discards no object, the collection pairs
    the live resolutions of the cache one to one with their shadows:
    [expectedToResolution] and [resolutionToExpected] are inverse of each
    other, and no two live resolutions share a shadow. *)
Theorem collectedState_mutuallyInverse (objects : Store) (collected : VerifierState H) :
  watchKeepsObjects impl →
  collectedState impl emptyResolution getAutomaticTypeDirectiveContainingFile
    getInferredLibraryNameResolveFrom getLibraryNameFromLibFileName actual actualProgram
    resolutionHostCacheHost userResolvedModuleNames objects = Returns collected →
  mutuallyInverse collected ∧
  ∀ r1 r2 e, resolutionToExpected collected !! r1 = Some e →
    resolutionToExpected collected !! r2 = Some e → r1 = r2.
Proof.
  intros Hkeeps Hrun. pose proof (collectedState_linked _ _ Hkeeps Hrun) as Hinv.
  split; [done|]. intros r1 r2 e H1%Hinv H2%Hinv. congruence.
Qed.

(** X7.  If watching a resolution discards no object, [verifyResolutionCache]
    returns only if the three indexes of the live cache are those of the
    shadow, read through the pairing of the resolutions: the resolutions with
    failed lookups, the resolutions with only affecting locations, and the
    resolutions by resolved file. *)
Theorem resolution_indexes_compared (objects : Store) (released : VerifierState H) :
  watchKeepsObjects impl →
  verifyResolutionCache impl emptyResolution getAutomaticTypeDirectiveContainingFile
    getInferredLibraryNameResolveFrom getLibraryNameFromLibFileName actual actualProgram
    resolutionHostCacheHost projectName userResolvedModuleNames objects = Returns released →
  ∃ collected,
    collectedState impl emptyResolution getAutomaticTypeDirectiveContainingFile
      getInferredLibraryNameResolveFrom getLibraryNameFromLibFileName actual actualProgram
      resolutionHostCacheHost userResolvedModuleNames objects = Returns collected ∧
    mutuallyInverse collected ∧
    resolutionSetsAgree collected (resolutionsWithFailedLookups (cacheOf (expected collected)))
      (resolutionsWithFailedLookups actual) ∧
    resolutionSetsAgree collected
      (resolutionsWithOnlyAffectingLocations (cacheOf (expected collected)))
      (resolutionsWithOnlyAffectingLocations actual) ∧
    resolutionSetMapsAgree collected (resolvedFileToResolution (cacheOf (expected collected)))
      (resolvedFileToResolution actual).
Proof.
  intros Hkeeps (collected & Hstate & Hverify & _)%verifyResolutionCache_phases.
  exists collected. split; [done|].
  pose proof (collectedState_linked _ _ Hkeeps Hstate) as Hinv.
  split; [done|].
  unfold verifyCollected in Hverify. rewrite !seq_Returns in Hverify.
  destruct Hverify as (_ & Hmap & Hfailed & Haffecting & _).
  split; [|split].
  - by apply verifyResolutionSet_agree in Hfailed.
  - by apply verifyResolutionSet_agree in Haffecting.
  - unfold verifyMapOfResolutionSet in Hmap. rewrite verifyMap_Returns in Hmap.
    destruct Hmap as [Hexp Hact]. intros p.
    destruct (resolvedFileToResolution (cacheOf (expected collected)) !! p) as [e|] eqn:He,
             (resolvedFileToResolution actual !! p) as [a|] eqn:Ha.
    + specialize (Hexp p e He). rewrite Ha in Hexp. by apply verifyResolutionSet_agree in Hexp.
    + specialize (Hexp p e He). rewrite Ha in Hexp.
      apply verifyResolutionSet_Returns in Hexp as [Hexp _]. simpl in Hexp.
      apply set_eq. intros x. split; [|set_solver].
      intros Hx. destruct (Hexp x Hx) as (? & _ & ?). set_solver.
    + specialize (Hact p a Ha). rewrite He in Hact.
      apply verifyResolutionSet_Returns in Hact as [_ Hact]. simpl in Hact.
      apply set_eq. intros x. split; [|set_solver].
      intros Hx. destruct (Hact x Hx) as (? & _ & ?). set_solver.
    + done.
Qed.

End CrossReferences.

(** ** The cross-reference maps on the project of two files *)

Module ScenarioCrossReferences.
Import Scenario.

Lemma watchResolution_keeps : watchKeepsObjects SpecCache.impl.
Proof.
  intros name e file resolvedFileName defer sh sh'. simpl. unfold SpecCache.watchResolution.
  intros (o & _ & [= <-])%bind_Returns. simpl. rewrite dom_insert_L. set_solver.
Qed.

Lemma linkedState_inverse : mutuallyInverse linkedState.
Proof.
  intros e r. unfold linkedState. simpl. rewrite !lookup_singleton_Some. naive_solver.
Qed.

Lemma collectedState_crossReferenced_sample :
  ∃ collected, Scenario.collected false live liveObjects = Returns collected ∧
    crossReferenced collected.
Proof.
  destruct (Scenario.collected false live liveObjects) as [collected|] eqn:Hrun.
  - exists collected. split; [done|].
    exact (proj1 (collectedState_crossReferenced SpecCache.impl sentinel inferredFile
             libraryLookupFile libraryName live program host false liveObjects
             collected Hrun)).
  - vm_compute in Hrun. discriminate Hrun.
Defined.

Lemma collectedState_mutuallyInverse_sample :
  ∃ collected, Scenario.collected false live liveObjects = Returns collected ∧
    mutuallyInverse collected.
Proof.
  destruct (Scenario.collected false live liveObjects) as [collected|] eqn:Hrun.
  - exists collected. split; [done|].
    exact (proj1 (collectedState_mutuallyInverse SpecCache.impl sentinel inferredFile
             libraryLookupFile libraryName live program host false liveObjects
             collected watchResolution_keeps Hrun)).
  - vm_compute in Hrun. discriminate Hrun.
Defined.

Lemma verifyResolutionSet_translates_sample :
  verifyResolutionSet linkedState (Some {[ 6%positive ]}) (Some {[ bar ]}) "sample"
    = Returns () ↔
  resolutionSetsAgree linkedState {[ 6%positive ]} {[ bar ]}.
Proof.
  exact (proj1 (verifyResolutionSet_translates linkedState linkedState_inverse)
           {[ 6%positive ]} {[ bar ]} "sample").
Defined.

Lemma resolution_indexes_compared_sample :
  ∃ collected, Scenario.collected false live liveObjects = Returns collected ∧
    resolutionSetsAgree collected (resolutionsWithFailedLookups (cacheOf (expected collected)))
      (resolutionsWithFailedLookups live).
Proof.
  destruct (verify false live liveObjects) as [released|] eqn:Hrun.
  - destruct (resolution_indexes_compared SpecCache.impl sentinel inferredFile
                libraryLookupFile libraryName live program host "/src/tsconfig.json" false
                liveObjects released watchResolution_keeps Hrun)
      as (collected & Hstate & _ & Hfailed & _).
    exists collected. by split.
  - vm_compute in Hrun. discriminate Hrun.
Defined.

End ScenarioCrossReferences.

(** ** The file reader of [verifyProgram] *)

Module VerifyProgramFacts.
Import VerifyProgram.

Example compilerHostReadFile_sample :
  compilerHostReadFile sampleHost "/src/open.ts" = Returns (Some "in editor") ∧
  compilerHostReadFile sampleHost "/src/small.js" = Returns (Some "let x;") ∧
  compilerHostReadFile sampleHost "/src/large.js" = Returns (Some EmptyString) ∧
  compilerHostReadFile sampleHost "/src/large.ts" = Returns (Some "let longer = 1;") ∧
  compilerHostReadFile sampleHost "/src/missing.js" = Returns None ∧
  compilerHostReadFile sampleHost "/src/empty.js" = Returns None ∧
  compilerHostReadFile (withGetFileSize sampleHost (Some (sizeOnDisk sampleHost)))
    "/src/empty.js" = Returns (Some EmptyString).
Proof. repeat split; vm_compute; reflexivity. Qed.

Lemma compilerHostReadFile_sized (host : ReaderHost) (fileName : string) :
  readsSizedFile host fileName = true →
  compilerHostReadFile host fileName =
    let '(text, fileSize) :=
      match getFileSize host with
      | Some getFileSize => (TextUndefined, getFileSize fileName)
      | None =>
          (match readFile host fileName with
           | Some text => Text text
           | None => TextFalse
           end,
           sizeOnDisk host fileName)
      end in
    if decide (maxFileSize host < fileSize) then Returns (Some EmptyString)
    else
      match text with
      | TextUndefined => Returns (readFile host fileName)
      | Text text => Returns (if decide (text = EmptyString) then None else Some text)
      | TextFalse => Returns None
      end.
Proof.
  unfold readsSizedFile, compilerHostReadFile. rewrite !andb_true_iff, !negb_true_iff.
  intros ((((-> & ->) & -> ) & ->) & ->). done.
Qed.

Lemma compilerHostReadFile_unsized (host : ReaderHost) (size : option (string → nat))
    (fileName : string) :
  readsSizedFile host fileName = false →
  compilerHostReadFile (withGetFileSize host size) fileName
  = compilerHostReadFile host fileName.
Proof.
  unfold readsSizedFile, compilerHostReadFile. simpl.
  destruct (default false _ || fileIsOpen host _); [done|].
  destruct (isAnySupportedFileExtension host _); [|done].
  destruct (isRootedDiskPath host fileName); [|done].
  destruct (fileExists host fileName); [|done].
  destruct (hasTSFileExtension host fileName); [done|]. simpl. done.
Qed.

(** X8.  A file that is read from the disk and is not a TypeScript file comes
    back with at most [maxFileSize] characters, if the size the host reports
    is that of the text: a larger file reads as the empty string, and a text
    that is returned is the text on the disk or empty. *)
Theorem compilerHostReadFile_within_maxFileSize (host : ReaderHost) (fileName : string) :
  readsSizedFile host fileName = true →
  sizeHonest host fileName →
  (maxFileSize host < sizeOnDisk host fileName →
   compilerHostReadFile host fileName = Returns (Some EmptyString)) ∧
  (∀ text, compilerHostReadFile host fileName = Returns (Some text) →
     String.length text ≤ maxFileSize host ∧
     (text = EmptyString ∨ readFile host fileName = Some text)).
Proof.
  intros Hsized Hhonest. rewrite (compilerHostReadFile_sized _ _ Hsized).
  unfold sizeHonest in Hhonest. unfold sizeOnDisk in *.
  destruct (getFileSize host) as [size|].
  - rewrite (Hhonest size eq_refl). split.
    + intros Hlarge. by rewrite decide_True.
    + intros text. case_decide as Hlarge.
      * intros [= <-]. simpl. split; [lia | by left].
      * intros [= Hread]. rewrite Hread in *. simpl in Hlarge. split; [lia | by right].
  - split.
    + intros Hlarge. destruct (readFile host fileName); by rewrite decide_True.
    + intros text. destruct (readFile host fileName) as [t|]; simpl.
      * case_decide as Hlarge; [intros [= <-]; simpl; split; [lia | by left]|].
        case_decide; [done|]. intros [= <-]. split; [lia | by right].
      * intros Hres. repeat case_decide; simplify_eq.
Qed.

Lemma compilerHostReadFile_within_maxFileSize_sample :
  compilerHostReadFile sampleHost "/src/large.js" = Returns (Some EmptyString).
Proof.
  apply (compilerHostReadFile_within_maxFileSize sampleHost "/src/large.js").
  - vm_compute. reflexivity.
  - intros size. vm_compute. discriminate.
  - vm_compute. lia.
Defined.



(** X10.  The reader throws in one case only: the project has the file open
    and the service has no script info for its path. *)
Theorem compilerHostReadFile_throws (host : ReaderHost) (fileName : string) :
  compilerHostReadFile host fileName = Throws ↔
  filenameToScriptInfo host !! toPath host fileName = None ∧
  fileIsOpen host (toPath host fileName) = true.
Proof.
  unfold compilerHostReadFile.
  destruct (filenameToScriptInfo host !! toPath host fileName) as [info|]; simpl.
  - split; [|by intros [? _]].
    destruct (_ || _); [done|].
    destruct (negb _); [done|]. destruct (_ || _); [done|].
    destruct (hasTSFileExtension host fileName); [done|].
    destruct (getFileSize host); case_decide; try done.
    destruct (readFile host fileName); done.
  - destruct (fileIsOpen host (toPath host fileName)); [done|].
    split; [|by intros [_ ?]].
    destruct (negb _); [done|]. destruct (_ || _); [done|].
    destruct (hasTSFileExtension host fileName); [done|].
    destruct (getFileSize host); case_decide; try done.
    destruct (readFile host fileName); done.
Qed.

End VerifyProgramFacts.

(** ** Line ends in the listing of a program *)

Module LineEndsFacts.
Import ProgramStructure LineEnds.

Lemma splitLines_plain (c : ascii) (rest : string) :
  c ≠ LF → c ≠ CR →
  splitLines (String c rest)
  = match splitLines rest with
    | l :: ls => String c l :: ls
    | [] => [String c EmptyString]
    end.
Proof.
  intros Hlf Hcr. cbn [splitLines]. rewrite decide_False by done.
  destruct rest as [|c' rest']; [done|].
  rewrite decide_False by naive_solver. done.
Qed.

Lemma splitLines_LF (rest : string) :
  splitLines (String LF rest) = EmptyString :: splitLines rest.
Proof. cbn [splitLines]. by rewrite decide_True. Qed.

Lemma splitLines_CRLF (rest : string) :
  splitLines (String CR (String LF rest)) = EmptyString :: splitLines rest.
Proof.
  cbn [splitLines]. rewrite decide_False by done. by rewrite decide_True.
Qed.

Lemma splitLines_nonempty (text : string) : splitLines text ≠ [].
Proof.
  induction text as [|c rest IH]; [done|]. cbn [splitLines].
  case_decide; [done|]. destruct rest as [|c' rest']; [done|].
  case_decide; [done|]. by destruct (splitLines (String c' rest')).
Qed.

Lemma hasCR_cons (c : ascii) (rest : string) :
  hasCR (String c rest) = false → c ≠ CR ∧ hasCR rest = false.
Proof.
  cbn [hasCR]. rewrite orb_false_iff, bool_decide_eq_false. done.
Qed.

Lemma splitLines_toCRLF (text : string) :
  hasCR text = false → splitLines (toCRLF text) = splitLines text.
Proof.
  induction text as [|c rest IH]; [done|].
  intros [Hcr Hrest]%hasCR_cons. cbn [toCRLF].
  destruct (decide (c = LF)) as [->|Hlf].
  - by rewrite splitLines_CRLF, splitLines_LF, IH.
  - by rewrite !splitLines_plain, IH.
Qed.

Lemma concat_cons_nonempty (sep x : string) (xs : list string) :
  xs ≠ [] → String.concat sep (x :: xs) = x +:+ sep +:+ String.concat sep xs.
Proof. by destruct xs. Qed.

Lemma concat_splitLines (text : string) :
  hasCR text = false → String.concat (String LF EmptyString) (splitLines text) = text.
Proof.
  induction text as [|c rest IH]; [done|].
  intros [Hcr Hrest]%hasCR_cons.
  destruct (decide (c = LF)) as [->|Hlf].
  - rewrite splitLines_LF, concat_cons_nonempty by apply splitLines_nonempty.
    simpl. by rewrite IH.
  - rewrite splitLines_plain by done. specialize (IH Hrest).
    destruct (splitLines rest) as [|l ls] eqn:Hlines; [by apply splitLines_nonempty in Hlines|].
    transitivity (String c (String.concat (String LF EmptyString) (l :: ls)));
      [by destruct ls | by rewrite IH].
Qed.

Lemma length_splitLines (text : string) :
  hasCR text = false → length (splitLines text) = S (lineFeeds text).
Proof.
  induction text as [|c rest IH]; [done|].
  intros [Hcr Hrest]%hasCR_cons. cbn [lineFeeds].
  destruct (decide (c = LF)) as [->|Hlf].
  - rewrite splitLines_LF. simpl. by rewrite IH.
  - rewrite splitLines_plain by done. specialize (IH Hrest).
    destruct (splitLines rest) as [|l ls]; [done|]. simpl in *. lia.
Qed.

(** X12.  The listing does not tell Windows line ends from Unix ones: for a
    text without carriage returns, the text with every line feed turned into
    a carriage return and a line feed splits into the same lines and is
    listed alike; the lines are one more than the line feeds and, joined by
    line feeds, give the text back. *)
Theorem splitLines_line_ends (text : string) :
  hasCR text = false →
  splitLines (toCRLF text) = splitLines text ∧
  indentText (toCRLF text) = indentText text ∧
  length (splitLines text) = S (lineFeeds text) ∧
  String.concat (String LF EmptyString) (splitLines text) = text.
Proof.
  intros Hcr. split; [by apply splitLines_toCRLF|]. split; [|split].
  - unfold indentText. by rewrite splitLines_toCRLF.
  - by apply length_splitLines.
  - by apply concat_splitLines.
Qed.

Lemma splitLines_line_ends_sample :
  indentText (toCRLF ("let x;" +:+ String LF "let y;"))
  = indentText ("let x;" +:+ String LF "let y;").
Proof.
  apply (splitLines_line_ends ("let x;" +:+ String LF "let y;")).
  vm_compute. reflexivity.
Defined.

End LineEndsFacts.

(** ** The lines of one cache in the listing of a program *)

Module CacheDetailsFacts.
Import ProgramStructure.

Section CacheDetails.
Variable getNameOfCompilerOptionValue : ModuleKind → string.
Variable store : Store.

(** X11.  [getResolutionCacheDetails] and [getLibResolutionCacheDetails] only
    append to the baseline: nothing when the iteration is undefined or calls
    back for no resolution, and else the heading of the cache once, followed
    by one line for each resolution in the order of the calls. *)
Theorem getResolutionCacheDetails_appends (baseline : list string) (indent : string) :
  (∀ cacheType forEach getResolvedFileName,
     getResolutionCacheDetails getNameOfCompilerOptionValue store baseline cacheType
       forEach getResolvedFileName indent
     = baseline ++ cacheBlock getNameOfCompilerOptionValue store cacheType
                     (default [] forEach) getResolvedFileName indent) ∧
  (∀ cache,
     getLibResolutionCacheDetails store baseline cache indent
     = baseline ++ libBlock store (default [] cache) indent).
Proof.
  split.
  - intros cacheType [invocations|] getName.
    + apply ProgramStructureFacts.getResolutionCacheDetails_block.
    + simpl. by rewrite app_nil_r.
  - intros [cache|].
    + apply ProgramStructureFacts.getLibResolutionCacheDetails_block.
    + simpl. by rewrite app_nil_r.
Qed.

End CacheDetails.

End CacheDetailsFacts.
